(** * mcp_mail.py: a shallow embedding of [MCPMailTool] and its properties

    The tool reads, fetches and sends mail over IMAP and SMTP.  The
    embedding follows [src/mcp_mail.py] method by method:

    - Python [str] values are lists of code points, so that [len], slicing
      and [strip] count what Python counts;
    - methods that touch [self] or the network live in a state-and-exception
      monad over the tool state (the two session slots, the outside world
      and a trace of what was called, slept and logged);
    - the IMAP/SMTP client, the [email] package, [time] and [datetime] are
      a collaborator interface ([MailLib]) that the general theorems
      quantify over; a small scripted server instantiates it for concrete
      runs. *)

From Stdlib Require Import String Ascii.
From Stdlib Require Import ZArith List Bool Lia.
Import ListNotations.
Open Scope Z_scope.

(* ================================================================== *)
(** ** Python strings *)

(** A Python [str]: the list of its Unicode code points. *)
Definition str := list Z.

(** A Python [bytes] object. *)
Definition bytes := list Byte.byte.

(** ASCII literals of the source, written as Rocq strings. *)
Definition lit (s : string) : str :=
  map (fun c => Z.of_nat (nat_of_ascii c)) (list_ascii_of_string s).

Fixpoint str_eqb (a b : str) : bool :=
  match a, b with
  | [], [] => true
  | x :: a', y :: b' => (x =? y) && str_eqb a' b'
  | _, _ => false
  end.

(** [c in s] for a one-character [c]. *)
Definition char_in (c : Z) (s : str) : bool := existsb (Z.eqb c) s.

Fixpoint starts_with (p s : str) : bool :=
  match p, s with
  | [], _ => true
  | x :: p', y :: s' => (x =? y) && starts_with p' s'
  | _ :: _, [] => false
  end.

(** [needle in hay] for strings. *)
Fixpoint str_contains (needle hay : str) : bool :=
  starts_with needle hay ||
  match hay with
  | [] => false
  | _ :: hay' => str_contains needle hay'
  end.

(** [s.split(sep)] for a one-character separator: always at least one
    piece, one more than there are separators. *)
Fixpoint split_char (sep : Z) (s : str) : list str :=
  match s with
  | [] => [[]]
  | c :: t =>
      if c =? sep then [] :: split_char sep t
      else match split_char sep t with
           | [] => [[c]]
           | w :: ws => (c :: w) :: ws
           end
  end.

(** [str.isspace] on one code point: the characters [str.strip()] removes. *)
Definition py_isspace (c : Z) : bool :=
  ((9 <=? c) && (c <=? 13)) || ((28 <=? c) && (c <=? 32)) ||
  (c =? 133) || (c =? 160) || (c =? 5760) ||
  ((8192 <=? c) && (c <=? 8202)) || (c =? 8232) || (c =? 8233) ||
  (c =? 8239) || (c =? 8287) || (c =? 12288).

Fixpoint lstrip (s : str) : str :=
  match s with
  | [] => []
  | c :: t => if py_isspace c then lstrip t else s
  end.

Definition rstrip (s : str) : str := rev (lstrip (rev s)).

(** [s.strip()] *)
Definition strip (s : str) : str := rstrip (lstrip s).

(** [s.replace(a, b)] for one-character [a] and [b]. *)
Definition replace_char (a b : Z) (s : str) : str :=
  map (fun c => if c =? a then b else c) s.

(** [s.lower()], on the letters A-Z.  The only use is the test
    ["authentication failed" in str(e).lower()]; no other code point
    lower-cases to a run of that needle, so folding A-Z decides it. *)
Definition py_lower (s : str) : str :=
  map (fun c => if (65 <=? c) && (c <=? 90) then c + 32 else c) s.

(** [l[:k]] *)
Definition slice_to {A} (k : Z) (l : list A) : list A :=
  if 0 <=? k then firstn (Z.to_nat k) l
  else firstn (length l - Z.to_nat (- k)) l.

(** [l[k:]] *)
Definition slice_from {A} (k : Z) (l : list A) : list A :=
  if 0 <=? k then skipn (Z.to_nat k) l
  else skipn (length l - Z.to_nat (- k)) l.

(** [len(l)] *)
Definition len {A} (l : list A) : Z := Z.of_nat (length l).

(** [x or d] on strings: the empty string is falsy. *)
Definition str_or (x d : str) : str :=
  match x with [] => d | _ => x end.

(** [h or d] on a header lookup, which is [None] when the header is
    missing. *)
Definition header_or (h : option str) (d : str) : str :=
  match h with
  | None => d
  | Some x => str_or x d
  end.

(** The literals of the source that are not ASCII. *)
Definition no_body_content : str := [26080; 27491; 25991; 20869; 23481].
Definition body_parse_failed : str :=
  [27491; 25991; 35299; 26512; 22833; 36133].
Definition no_subject : str := [26080; 20027; 39064].
Definition unknown_sender : str := [26410; 30693; 21457; 20214; 20154].
Definition unknown_recipient : str := [26410; 30693; 25910; 20214; 20154].
Definition unknown_time : str := [26410; 30693; 26102; 38388].
Definition folder_not_found (folder : str) : str :=
  lit "FOLDER_NOT_FOUND: "
  ++ [26080; 27861; 35775; 38382; 25991; 20214; 22841; 32] ++ folder.
Definition search_failed : str :=
  [37038; 20214; 25628; 32034; 22833; 36133].
Definition email_not_found (email_id : str) : str :=
  lit "EMAIL_NOT_FOUND: " ++ [37038; 20214; 73; 68; 32] ++ email_id
  ++ [32; 19981; 23384; 22312].
Definition invalid_email_format : str :=
  lit "INVALID_EMAIL_FORMAT: "
  ++ [25910; 20214; 20154; 37038; 31665; 26684; 24335; 26080; 25928].

Definition ellipsis : str := lit "...".
Definition text_plain : str := lit "text/plain".
Definition text_html : str := lit "text/html".
Definition chr_at : Z := 64.
Definition chr_dot : Z := 46.
Definition chr_lt : Z := 60.
Definition chr_gt : Z := 62.
Definition chr_nl : Z := 10.
Definition chr_cr : Z := 13.
Definition chr_sp : Z := 32.

(** The text after the first [sep] of [s] (empty when there is none). *)
Fixpoint text_after (sep : Z) (s : str) : str :=
  match s with
  | [] => []
  | c :: t => if c =? sep then t else text_after sep t
  end.

(** The domain portion as the specification words it: the text after the
    '@'. *)
Definition text_after_at (to : str) : str := text_after chr_at to.

(** [re.sub(r'<[^>]+>', '', s)].  A match starts at a '<', runs over one
    or more characters other than '>' and ends at the next '>'.  Scanning
    left to right, [pending] holds the text since an unmatched '<': it is
    dropped when a '>' closes it after at least one character, and
    written out when the '>' follows at once or the string ends. *)
Fixpoint re_sub_tags_from (pending : option str) (s : str) : str :=
  match s with
  | [] => match pending with None => [] | Some buf => buf end
  | c :: t =>
      match pending with
      | None =>
          if c =? chr_lt then re_sub_tags_from (Some [c]) t
          else c :: re_sub_tags_from None t
      | Some buf =>
          if c =? chr_gt then
            match buf with
            | [_] => buf ++ c :: re_sub_tags_from None t
            | _ => re_sub_tags_from None t
            end
          else re_sub_tags_from (Some (buf ++ [c])) t
      end
  end.

Definition re_sub_tags (s : str) : str := re_sub_tags_from None s.

(* ================================================================== *)
(** ** Exceptions *)

(** The exception classes the [except] clauses tell apart. *)
Inductive exn_class :=
| IMAP4_error               (* imaplib.IMAP4.error and its subclasses *)
| SMTPAuthenticationError
| SMTPException             (* the other smtplib.SMTPException classes *)
| OtherException.           (* every other subclass of Exception *)

(** An exception: its class and [str(e)]. *)
Record exn := Exn { exn_cls : exn_class; exn_str : str }.

(** [raise Exception(msg)] *)
Definition Exception (msg : str) : exn := Exn OtherException msg.

(** A computation that returns or raises. *)
Definition Exc (A : Type) : Type := (exn + A)%type.

(* ================================================================== *)
(** ** Parsed messages *)

(** The MIME tree of a parsed message.  A leaf carries its content type
    and the outcome of
    [part.get_payload(decode=True).decode(charset or 'utf-8', errors='ignore')],
    which raises for a charset Python does not know.  A container carries
    its content type and its sub-parts. *)
#[warnings="-register-all"]
Inductive mime :=
| Leaf (ctype : str) (text : Exc str)
| Multi (ctype : str) (parts : list mime).

(** [m.is_multipart()] *)
Definition is_multipart (m : mime) : bool :=
  match m with Leaf _ _ => false | Multi _ _ => true end.

(** [m.get_content_type()] *)
Definition get_content_type (m : mime) : str :=
  match m with Leaf c _ => c | Multi c _ => c end.

(** [m.walk()]: the part itself, then its sub-parts, depth first. *)
Fixpoint walk (m : mime) : list mime :=
  match m with
  | Leaf _ _ => [m]
  | Multi _ ps => m :: flat_map walk ps
  end.

(** [part.get_payload(decode=True).decode(charset, errors='ignore')]:
    on a container [get_payload(decode=True)] is [None], and [.decode]
    raises AttributeError. *)
Definition decode_payload (m : mime) : Exc str :=
  match m with
  | Leaf _ t => t
  | Multi _ _ =>
      inl (Exception (lit "'NoneType' object has no attribute 'decode'"))
  end.

(** What [email.message_from_bytes] gives the tool: the headers it reads
    ([None] when missing) and the MIME tree. *)
Record email_message := {
  hdr_subject : option str;
  hdr_from : option str;
  hdr_to : option str;
  hdr_date : option str;
  content : mime
}.

(* ================================================================== *)
(** ** Body extraction, the [try] blocks *)

(** The [for part in email_message.walk()] loop of [extract_body_summary]:
    the first text/plain part is decoded and ends the loop. *)
Fixpoint summary_walk (parts : list mime) (body : str) : Exc str :=
  match parts with
  | [] => inr body
  | part :: rest =>
      if str_eqb (get_content_type part) text_plain
      then decode_payload part
      else summary_walk rest body
  end.

(** The text [extract_body_summary] has in [body] before it cleans it. *)
Definition summary_raw (m : email_message) : Exc str :=
  if is_multipart (content m)
  then summary_walk (walk (content m)) []
  else decode_payload (content m).

(** [body.strip().replace('\n', ' ').replace('\r', ' ')] *)
Definition clean (body : str) : str :=
  replace_char chr_cr chr_sp (replace_char chr_nl chr_sp (strip body)).

(** Lines 262-266: clean, truncate, placeholder. *)
Definition summarize (max_length : Z) (body : str) : str :=
  let body := clean body in
  let body :=
    if max_length <? len body then slice_to max_length body ++ ellipsis
    else body in
  str_or body no_body_content.

(** The [try] block of [extract_body_summary]. *)
Definition summary_try (m : email_message) (max_length : Z) : Exc str :=
  match summary_raw m with
  | inl e => inl e
  | inr body => inr (summarize max_length body)
  end.

(** The [for part in email_message.walk()] loop of [extract_full_body]:
    a text/plain part is decoded and ends the loop; a text/html part met
    while [body] is still empty is decoded and stripped of tags. *)
Fixpoint full_walk (parts : list mime) (body : str) : Exc str :=
  match parts with
  | [] => inr body
  | part :: rest =>
      if str_eqb (get_content_type part) text_plain
      then decode_payload part
      else if str_eqb (get_content_type part) text_html
              && match body with [] => true | _ => false end
      then match decode_payload part with
           | inl e => inl e
           | inr html_body => full_walk rest (re_sub_tags html_body)
           end
      else full_walk rest body
  end.

(** The text [extract_full_body] has in [body] before [body.strip()]. *)
Definition full_raw (m : email_message) : Exc str :=
  if is_multipart (content m)
  then full_walk (walk (content m)) []
  else decode_payload (content m).

(** The [try] block of [extract_full_body]. *)
Definition full_try (m : email_message) : Exc str :=
  match full_raw m with
  | inl e => inl e
  | inr body => inr (str_or (strip body) no_body_content)
  end.

(* ================================================================== *)
(** ** Header decoding, the [try] block *)

(** One element of what [email.header.decode_header] returns. *)
Inductive fragment :=
| F_bytes (b : bytes)
| F_str (s : str).

(* ================================================================== *)
(** ** Configuration and results *)

(** The configuration dict.  [load_config] checks the four required
    fields; the other four are read with [config.get(key, default)]. *)
Record config := {
  cfg_email : str;
  cfg_password : str;
  cfg_imap_server : str;
  cfg_smtp_server : str;
  cfg_imap_port : option Z;
  cfg_smtp_port : option Z;
  cfg_retry_count : option Z;
  cfg_retry_delay : option Z
}.

(** [config.get(key, default)] *)
Definition config_get (v : option Z) (default : Z) : Z :=
  match v with Some x => x | None => default end.

Definition retry_count (cfg : config) : Z := config_get (cfg_retry_count cfg) 3.
Definition retry_delay (cfg : config) : Z := config_get (cfg_retry_delay cfg) 2.

(** One element of ["emails"]. *)
Record summary := {
  s_id : str;
  s_subject : str;
  s_sender : str;
  s_date : str;
  s_body_summary : str
}.

(** The success dict of [mail_get], without its ["success"] key. *)
Record detail := {
  d_id : str;
  d_subject : str;
  d_sender : str;
  d_to : str;
  d_date : str;
  d_body : str
}.

(** The dicts the three operations build. *)
Inductive result :=
| Read_ok (emails : list summary) (count : Z)
| Read_failed (error : str)        (* with "emails": [] and "count": 0 *)
| Send_ok (message timestamp : str)
| Send_invalid (error : str)       (* no "timestamp" *)
| Send_failed (error timestamp : str)
| Get_ok (d : detail)
| Get_failed (error : str).

(** [result["success"]] *)
Definition success (r : result) : bool :=
  match r with
  | Read_ok _ _ | Send_ok _ _ | Get_ok _ => true
  | _ => false
  end.

(** [result.get("error")] *)
Definition error (r : result) : option str :=
  match r with
  | Read_failed e | Send_invalid e | Send_failed e _ | Get_failed e => Some e
  | _ => None
  end.

(** What a method call evaluates to: a dict, or [None] when the body
    runs off its end without a [return]. *)
Inductive pyvalue :=
| PyNone
| PyDict (r : result).

(** [range(n)] *)
Definition py_range (n : Z) : list Z := map Z.of_nat (seq 0 (Z.to_nat n)).

(** [range(n)] from any start, for the tail of a loop. *)
Definition range_from (a : Z) (m : nat) : list Z :=
  map (fun j => a + Z.of_nat j) (seq 0 m).

(** Lines 186-187: [message_ids[-limit:] if len(message_ids) >= limit else
    message_ids], then [latest_ids.reverse()]. *)
Definition latest_ids (message_ids : list bytes) (limit : Z) : list bytes :=
  rev (if limit <=? len message_ids
       then slice_from (- limit) message_ids
       else message_ids).

(* ================================================================== *)
(** ** The tool state and its trace *)

(** A session object ([imaplib.IMAP4_SSL] or [smtplib.SMTP] instance),
    named by the number the library gave it. *)
Definition conn := nat.

(** The calls into the IMAP/SMTP client. *)
Inductive prim :=
| P_IMAP4_SSL | P_imap_login | P_select | P_search | P_fetch
| P_close | P_logout
| P_SMTP | P_starttls | P_smtp_login | P_sendmail | P_quit.

Inductive op := Op_read | Op_send | Op_get.

Inductive level := INFO | WARNING | ERROR.

(** The log lines, by their template and the values put into it. *)
Inductive log_text :=
| L_imap_connected
| L_smtp_connected
| L_decode_failed (e : str)
| L_attempt_failed (o : op) (attempt_no total : Z) (e : str)
| L_message_failed (msg_id : bytes) (e : str)
| L_summary_failed (e : str)
| L_full_body_failed (e : str)
| L_all_closed
| L_close_failed (e : str).

(** What a run leaves behind.  [Ev_attempt] is a marker without a
    counterpart in the source, written when a [try] block of a retry loop
    is entered, so that theorems can count attempts.  [Ev_call] names the
    session a call went to (for a constructor, the session it returned)
    and whether it raised. *)
Inductive event :=
| Ev_attempt (o : op) (attempt : Z)
| Ev_call (p : prim) (c : option conn) (raised : bool)
| Ev_sleep (seconds : Z)
| Ev_log (lv : level) (t : log_text).

(** The delays of the [time.sleep] calls that returned, in order. *)
Fixpoint sleeps (tr : list event) : list Z :=
  match tr with
  | [] => []
  | Ev_sleep d :: tr' => d :: sleeps tr'
  | _ :: tr' => sleeps tr'
  end.

(** The attempts begun in a trace, in order. *)
Fixpoint attempts (tr : list event) : list Z :=
  match tr with
  | [] => []
  | Ev_attempt _ a :: tr' => a :: attempts tr'
  | _ :: tr' => attempts tr'
  end.

(** The client calls in a trace. *)
Fixpoint calls (tr : list event) : list (prim * option conn * bool) :=
  match tr with
  | [] => []
  | Ev_call p c r :: tr' => (p, c, r) :: calls tr'
  | _ :: tr' => calls tr'
  end.

(** The collaborators: the IMAP and SMTP client, the [email] package,
    [time], [datetime] and the codecs, over a world [W] they may change.
    A status is the first component of the pair an IMAP call returns;
    [imap_search] gives with it the outcome of [messages[0].split()] and
    [imap_fetch] the outcome of
    [email.message_from_bytes(msg_data[0][1])]. *)
Class MailLib (W : Type) := {
  IMAP4_SSL : str -> Z -> W -> Exc conn * W;
  imap_login : conn -> str -> str -> W -> Exc unit * W;
  imap_select : conn -> str -> W -> Exc str * W;
  imap_search : conn -> W -> Exc (str * Exc (list bytes)) * W;
  imap_fetch : conn -> bytes -> W -> Exc (str * Exc email_message) * W;
  imap_close : conn -> W -> Exc unit * W;
  imap_logout : conn -> W -> Exc unit * W;
  SMTP : str -> Z -> W -> Exc conn * W;
  smtp_starttls : conn -> W -> Exc unit * W;
  smtp_login : conn -> str -> str -> W -> Exc unit * W;
  smtp_sendmail : conn -> str -> str -> str -> W -> Exc unit * W;
  smtp_quit : conn -> W -> Exc unit * W;
  (** [time.sleep(d)]: it returns once the delay is over, or raises
      where [time] refuses the delay (ValueError for a negative one,
      OverflowError for one too large for the platform's clock) *)
  time_sleep : Z -> W -> Exc unit * W;
  (** [datetime.datetime.now().isoformat()] *)
  now_isoformat : W -> str * W;
  (** [email.header.decode_header(s)] *)
  decode_header : str -> Exc (list (fragment * option str));
  (** [b.decode(encoding)] *)
  bytes_decode : bytes -> str -> Exc str;
  (** [b.decode('utf-8', errors='ignore')] *)
  bytes_decode_ignore : bytes -> str;
  (** [s.encode()] *)
  str_encode : str -> Exc bytes;
  (** the [MIMEMultipart] with the given From, To, Subject and a
      text/plain utf-8 body, rendered by [as_string()] *)
  as_string : str -> str -> str -> str -> Exc str
}.

(** The fields of [self] that change, the world and the trace. *)
Record tool (W : Type) := Tool {
  imap_conn : option conn;
  smtp_conn : option conn;
  world : W;
  trace : list event
}.
Arguments Tool {W}.
Arguments imap_conn {W}.
Arguments smtp_conn {W}.
Arguments world {W}.
Arguments trace {W}.

Section Monad.
Context {W : Type}.

(** A method body: it runs on the tool state and returns or raises.  The
    state a raise leaves behind is kept, as Python keeps it. *)
Definition M (A : Type) : Type := tool W -> Exc A * tool W.

Definition ret {A} (a : A) : M A := fun t => (inr a, t).
Definition raise {A} (e : exn) : M A := fun t => (inl e, t).
Definition bind {A B} (m : M A) (k : A -> M B) : M B :=
  fun t => match m t with
           | (inr a, t') => k a t'
           | (inl e, t') => (inl e, t')
           end.
(** [try: m  except Exception as e: h e] *)
Definition try_catch {A} (m : M A) (h : exn -> M A) : M A :=
  fun t => match m t with
           | (inr a, t') => (inr a, t')
           | (inl e, t') => h e t'
           end.
Definition lift {A} (x : Exc A) : M A := fun t => (x, t).

End Monad.
Arguments M : clear implicits.

Notation "x <- m ;; k" := (bind m (fun x => k))
  (at level 61, m at next level, right associativity).
Notation "m ;; k" := (bind m (fun _ => k))
  (at level 61, right associativity).

Section Methods.
Context {W : Type} {lib : MailLib W}.
Local Abbreviation M := (M W).

Definition emit (ev : event) : M unit :=
  fun t => (inr tt, Tool (imap_conn t) (smtp_conn t) (world t) (trace t ++ [ev])).

(** [self.logger.info/warning/error(...)] *)
Definition log (lv : level) (txt : log_text) : M unit := emit (Ev_log lv txt).

Definition is_raise {A} (x : Exc A) : bool :=
  match x with inl _ => true | inr _ => false end.

(** A call on session [c]. *)
Definition call {A} (p : prim) (c : conn) (f : W -> Exc A * W) : M A :=
  fun t => let (r, w) := f (world t) in
           (r, Tool (imap_conn t) (smtp_conn t) w
                    (trace t ++ [Ev_call p (Some c) (is_raise r)])).

(** A constructor call, which returns a new session. *)
Definition call_new (p : prim) (f : W -> Exc conn * W) : M conn :=
  fun t => let (r, w) := f (world t) in
           (r, Tool (imap_conn t) (smtp_conn t) w
                    (trace t ++ [Ev_call p (match r with inr c => Some c | inl _ => None end)
                                          (is_raise r)])).

(** [time.sleep(d)].  The trace gets the delay when the call returns;
    a call that raises has not slept. *)
Definition sleep (d : Z) : M unit :=
  fun t => let (r, w) := time_sleep d (world t) in
           (r, Tool (imap_conn t) (smtp_conn t) w
                    (match r with
                     | inr _ => trace t ++ [Ev_sleep d]
                     | inl _ => trace t
                     end)).

(** [time.sleep] takes the delay [d]: the call returns, in every world. *)
Definition sleep_returns (d : Z) : Prop :=
  forall w : W, exists w', time_sleep d w = (inr tt, w').

(** [datetime.datetime.now().isoformat()] *)
Definition now : M str :=
  fun t => let (s, w) := now_isoformat (world t) in
           (inr s, Tool (imap_conn t) (smtp_conn t) w (trace t)).

(** [self.imap_conn = v] *)
Definition set_imap_conn (v : option conn) : M unit :=
  fun t => (inr tt, Tool v (smtp_conn t) (world t) (trace t)).

(** [self.smtp_conn = v] *)
Definition set_smtp_conn (v : option conn) : M unit :=
  fun t => (inr tt, Tool (imap_conn t) v (world t) (trace t)).

Definition get_imap_conn : M (option conn) := fun t => (inr (imap_conn t), t).
Definition get_smtp_conn : M (option conn) := fun t => (inr (smtp_conn t), t).

Definition none_has_no_attribute : exn :=
  Exception (lit "'NoneType' object has no attribute").

(** [self.imap_conn] where a method is called on it. *)
Definition the_imap_conn : M conn :=
  c <- get_imap_conn ;;
  match c with Some c => ret c | None => raise none_has_no_attribute end.

(** [self.smtp_conn] where a method is called on it. *)
Definition the_smtp_conn : M conn :=
  c <- get_smtp_conn ;;
  match c with Some c => ret c | None => raise none_has_no_attribute end.

(* ------------------------------------------------------------------ *)
(** *** connect_imap, connect_smtp *)

Definition connect_imap (cfg : config) : M bool :=
  try_catch
    (c <- call_new P_IMAP4_SSL
            (IMAP4_SSL (cfg_imap_server cfg) (config_get (cfg_imap_port cfg) 993)) ;;
     set_imap_conn (Some c) ;;
     call P_imap_login c (imap_login c (cfg_email cfg) (cfg_password cfg)) ;;
     log INFO L_imap_connected ;;
     ret true)
    (fun e =>
       match exn_cls e with
       | IMAP4_error =>
           if str_contains (lit "authentication failed") (py_lower (exn_str e))
           then raise (Exception (lit "AUTHENTICATION_FAILED: " ++ exn_str e))
           else raise (Exception (lit "IMAP_CONNECTION_FAILED: " ++ exn_str e))
       | _ => raise (Exception (lit "NETWORK_ERROR: " ++ exn_str e))
       end).

Definition connect_smtp (cfg : config) : M bool :=
  try_catch
    (c <- call_new P_SMTP
            (SMTP (cfg_smtp_server cfg) (config_get (cfg_smtp_port cfg) 587)) ;;
     set_smtp_conn (Some c) ;;
     call P_starttls c (smtp_starttls c) ;;
     call P_smtp_login c (smtp_login c (cfg_email cfg) (cfg_password cfg)) ;;
     log INFO L_smtp_connected ;;
     ret true)
    (fun e =>
       match exn_cls e with
       | SMTPAuthenticationError =>
           raise (Exception (lit "AUTHENTICATION_FAILED: " ++ exn_str e))
       | SMTPException =>
           raise (Exception (lit "SMTP_CONNECTION_FAILED: " ++ exn_str e))
       | _ => raise (Exception (lit "NETWORK_ERROR: " ++ exn_str e))
       end).

(* ------------------------------------------------------------------ *)
(** *** decode_mime_words *)

(** The [for fragment, encoding in decoded_fragments] loop. *)
Fixpoint decode_fragments (frs : list (fragment * option str))
    (decoded_string : str) : Exc str :=
  match frs with
  | [] => inr decoded_string
  | (F_bytes b, Some (_ :: _ as encoding)) :: rest =>
      match bytes_decode b encoding with
      | inl e => inl e
      | inr t => decode_fragments rest (decoded_string ++ t)
      end
  | (F_bytes b, _) :: rest =>
      decode_fragments rest (decoded_string ++ bytes_decode_ignore b)
  | (F_str t, _) :: rest => decode_fragments rest (decoded_string ++ t)
  end.

Definition decode_mime_words (s : str) : M str :=
  try_catch
    (decoded_fragments <- lift (decode_header s) ;;
     lift (decode_fragments decoded_fragments []))
    (fun e => log WARNING (L_decode_failed (exn_str e)) ;; ret s).

(* ------------------------------------------------------------------ *)
(** *** extract_body_summary, extract_full_body *)

Definition extract_body_summary (m : email_message) (max_length : Z) : M str :=
  try_catch (lift (summary_try m max_length))
    (fun e => log WARNING (L_summary_failed (exn_str e)) ;;
              ret body_parse_failed).

Definition extract_full_body (m : email_message) : M str :=
  try_catch (lift (full_try m))
    (fun e => log WARNING (L_full_body_failed (exn_str e)) ;;
              ret body_parse_failed).

(* ------------------------------------------------------------------ *)
(** *** The retry loop

    [mail_read], [mail_send] and [mail_get] each wrap their [try] block
    in the same loop:
<<
    for attempt in range(retry_count):
        try:
            BODY                      # every path returns or raises
        except Exception as e:
            self.logger.error(... attempt + 1, retry_count, str(e))
            if attempt < retry_count - 1:
                time.sleep(retry_delay)
                self.CONN = None
            else:
                return FAILURE(str(e))
>>
    [retried] holds what differs between the three. *)
Record retried := {
  r_op : op;
  r_body : M pyvalue;
  r_drop : M unit;
  r_failure : str -> M pyvalue
}.

(** The [try] block of one iteration. *)
Definition attempt (r : retried) (a : Z) : M pyvalue :=
  emit (Ev_attempt (r_op r) a) ;; r_body r.

Fixpoint retry_loop (cfg : config) (r : retried) (todo : list Z) : M pyvalue :=
  match todo with
  | [] => ret PyNone
  | a :: rest =>
      try_catch (attempt r a)
        (fun e =>
           log ERROR (L_attempt_failed (r_op r) (a + 1) (retry_count cfg) (exn_str e)) ;;
           if a <? retry_count cfg - 1
           then sleep (retry_delay cfg) ;; r_drop r ;; retry_loop cfg r rest
           else r_failure r (exn_str e))
  end.

(** The [except] block where the loop goes on: log, sleep, drop the
    session. *)
Definition go_on (cfg : config) (r : retried) (a : Z) (e : exn) : M unit :=
  log ERROR (L_attempt_failed (r_op r) (a + 1) (retry_count cfg) (exn_str e)) ;;
  sleep (retry_delay cfg) ;;
  r_drop r.

(** The [except] block where the loop gives up: log, return the failure
    dict. *)
Definition bail_out (cfg : config) (r : retried) (a : Z) (e : exn) : M pyvalue :=
  log ERROR (L_attempt_failed (r_op r) (a + 1) (retry_count cfg) (exn_str e)) ;;
  r_failure r (exn_str e).

(** The tool state in which the attempt after the [k] attempts numbered
    from [a] begins, when those, the first begun in [t], all raised and
    were retried. *)
Fixpoint retried_from (cfg : config) (r : retried) (k : nat) (a : Z)
    (t : tool W) : tool W :=
  match k with
  | O => t
  | S k' =>
      match attempt r a t with
      | (inl e, t1) => retried_from cfg r k' (a + 1) (snd (go_on cfg r a e t1))
      | (inr _, t1) => t1
      end
  end.

(** The tool state in which attempt [k] of a call made in [t] begins. *)
Definition attempt_start (cfg : config) (r : retried) (k : nat) (t : tool W)
  : tool W :=
  retried_from cfg r k 0 t.

(** The protocol layer fails the first [k] attempts of a call made in
    [t]: each of them raises. *)
Definition first_fail (cfg : config) (r : retried) (k : nat) (t : tool W) : Prop :=
  forall j, (j < k)%nat ->
    is_raise (fst (attempt r (Z.of_nat j) (attempt_start cfg r j t))) = true.

(** What the retry loop owes for a call [run] whose attempts are [r]:
    - if every attempt fails, [run] returns a failure dict with the last
      error's string, after [retry_count] attempts and [retry_count - 1]
      sleeps of [retry_delay];
    - if attempt [k] is the first to return, [run] returns what it
      returned and stops there, after [k + 1] attempts and [k] sleeps. *)
Definition retry_contract (cfg : config) (r : retried) (run : M pyvalue) : Prop :=
  forall t : tool W,
    (first_fail cfg r (Z.to_nat (retry_count cfg)) t ->
     exists e t1 f,
       attempt r (retry_count cfg - 1)
         (attempt_start cfg r (Z.to_nat (retry_count cfg) - 1) t) = (inl e, t1) /\
       fst (run t) = inr (PyDict f) /\
       success f = false /\ error f = Some (exn_str e) /\
       attempts (trace (snd (run t)))
         = attempts (trace t) ++ py_range (retry_count cfg) /\
       sleeps (trace (snd (run t)))
         = sleeps (trace t)
           ++ repeat (retry_delay cfg) (Z.to_nat (retry_count cfg) - 1))
    /\
    (forall k v t1,
       (k < Z.to_nat (retry_count cfg))%nat ->
       first_fail cfg r k t ->
       attempt r (Z.of_nat k) (attempt_start cfg r k t) = (inr v, t1) ->
       run t = (inr v, t1) /\
       (exists f, v = PyDict f /\ success f = true) /\
       attempts (trace t1) = attempts (trace t) ++ py_range (Z.of_nat k + 1) /\
       sleeps (trace t1) = sleeps (trace t) ++ repeat (retry_delay cfg) k).

(* ------------------------------------------------------------------ *)
(** *** mail_read *)

(** [if not self.imap_conn: self.connect_imap()] *)
Definition ensure_imap (cfg : config) : M unit :=
  c <- get_imap_conn ;;
  match c with
  | None => connect_imap cfg ;; ret tt
  | Some _ => ret tt
  end.

(** One turn of [for msg_id in latest_ids], with its own [try]. *)
Definition read_one (msg_id : bytes) (emails : list summary) : M (list summary) :=
  try_catch
    (c <- the_imap_conn ;;
     fetched <- call P_fetch c (imap_fetch c msg_id) ;;
     let '(status, parsed) := fetched in
     if negb (str_eqb status (lit "OK")) then ret emails
     else
       email_message <- lift parsed ;;
       subject <- decode_mime_words (header_or (hdr_subject email_message) no_subject) ;;
       sender <- decode_mime_words (header_or (hdr_from email_message) unknown_sender) ;;
       let date := header_or (hdr_date email_message) unknown_time in
       body_summary <- extract_body_summary email_message 200 ;;
       id <- lift (bytes_decode msg_id (lit "utf-8")) ;;
       ret (emails ++ [{| s_id := id; s_subject := subject; s_sender := sender;
                          s_date := date; s_body_summary := body_summary |}]))
    (fun e => log WARNING (L_message_failed msg_id (exn_str e)) ;; ret emails).

Fixpoint read_all (ids : list bytes) (emails : list summary) : M (list summary) :=
  match ids with
  | [] => ret emails
  | msg_id :: rest =>
      emails' <- read_one msg_id emails ;;
      read_all rest emails'
  end.

(** The [try] block of [mail_read]. *)
Definition mail_read_body (cfg : config) (folder : str) (limit : Z) : M pyvalue :=
  ensure_imap cfg ;;
  c <- the_imap_conn ;;
  status <- call P_select c (imap_select c folder) ;;
  if negb (str_eqb status (lit "OK"))
  then raise (Exception (folder_not_found folder))
  else
    c <- the_imap_conn ;;
    found <- call P_search c (imap_search c) ;;
    let '(status, messages) := found in
    if negb (str_eqb status (lit "OK"))
    then raise (Exception search_failed)
    else
      message_ids <- lift messages ;;
      match message_ids with
      | [] => ret (PyDict (Read_ok [] 0))
      | _ =>
          emails <- read_all (latest_ids message_ids limit) [] ;;
          ret (PyDict (Read_ok emails (len emails)))
      end.

Definition read_retried (cfg : config) (folder : str) (limit : Z) : retried :=
  {| r_op := Op_read;
     r_body := mail_read_body cfg folder limit;
     r_drop := set_imap_conn None;
     r_failure := fun e => ret (PyDict (Read_failed e)) |}.

Definition mail_read (cfg : config) (folder : str) (limit : Z) : M pyvalue :=
  retry_loop cfg (read_retried cfg folder limit) (py_range (retry_count cfg)).

(* ------------------------------------------------------------------ *)
(** *** mail_send *)

(** [l[i]] *)
Definition py_index {A} (l : list A) (i : nat) : Exc A :=
  match nth_error l i with
  | Some x => inr x
  | None => inl (Exception (lit "list index out of range"))
  end.

(** Line 287: ['@' not in to or '.' not in to.split('@')[1]] *)
Definition recipient_rejected (to : str) : Exc bool :=
  if negb (char_in chr_at to) then inr true
  else match py_index (split_char chr_at to) 1 with
       | inl e => inl e
       | inr domain => inr (negb (char_in chr_dot domain))
       end.

(** [if not self.smtp_conn: self.connect_smtp()] *)
Definition ensure_smtp (cfg : config) : M unit :=
  c <- get_smtp_conn ;;
  match c with
  | None => connect_smtp cfg ;; ret tt
  | Some _ => ret tt
  end.

(** The [try] block of [mail_send]. *)
Definition mail_send_body (cfg : config) (to subject body : str) : M pyvalue :=
  ensure_smtp cfg ;;
  text <- lift (as_string (cfg_email cfg) to subject body) ;;
  c <- the_smtp_conn ;;
  call P_sendmail c (smtp_sendmail c (cfg_email cfg) to text) ;;
  timestamp <- now ;;
  ret (PyDict (Send_ok (lit "Email sent to " ++ to) timestamp)).

Definition send_retried (cfg : config) (to subject body : str) : retried :=
  {| r_op := Op_send;
     r_body := mail_send_body cfg to subject body;
     r_drop := set_smtp_conn None;
     r_failure := fun e => timestamp <- now ;; ret (PyDict (Send_failed e timestamp)) |}.

Definition mail_send (cfg : config) (to subject body : str) : M pyvalue :=
  rejected <- lift (recipient_rejected to) ;;
  if (rejected : bool) then ret (PyDict (Send_invalid invalid_email_format))
  else retry_loop cfg (send_retried cfg to subject body) (py_range (retry_count cfg)).

(* ------------------------------------------------------------------ *)
(** *** mail_get *)

(** The [try] block of [mail_get]. *)
Definition mail_get_body (cfg : config) (email_id : str) : M pyvalue :=
  ensure_imap cfg ;;
  c <- the_imap_conn ;;
  call P_select c (imap_select c (lit "INBOX")) ;;
  c <- the_imap_conn ;;
  id_bytes <- lift (str_encode email_id) ;;
  fetched <- call P_fetch c (imap_fetch c id_bytes) ;;
  let '(status, parsed) := fetched in
  if negb (str_eqb status (lit "OK"))
  then raise (Exception (email_not_found email_id))
  else
    email_message <- lift parsed ;;
    subject <- decode_mime_words (header_or (hdr_subject email_message) no_subject) ;;
    sender <- decode_mime_words (header_or (hdr_from email_message) unknown_sender) ;;
    to <- decode_mime_words (header_or (hdr_to email_message) unknown_recipient) ;;
    let date := header_or (hdr_date email_message) unknown_time in
    body <- extract_full_body email_message ;;
    ret (PyDict (Get_ok {| d_id := email_id; d_subject := subject;
                           d_sender := sender; d_to := to; d_date := date;
                           d_body := body |})).

Definition get_retried (cfg : config) (email_id : str) : retried :=
  {| r_op := Op_get;
     r_body := mail_get_body cfg email_id;
     r_drop := set_imap_conn None;
     r_failure := fun e => ret (PyDict (Get_failed e)) |}.

Definition mail_get (cfg : config) (email_id : str) : M pyvalue :=
  retry_loop cfg (get_retried cfg email_id) (py_range (retry_count cfg)).

(* ------------------------------------------------------------------ *)
(** *** close_connections *)

Definition close_connections : M unit :=
  try_catch
    (ic <- get_imap_conn ;;
     match ic with
     | Some c =>
         call P_close c (imap_close c) ;;
         call P_logout c (imap_logout c) ;;
         set_imap_conn None
     | None => ret tt
     end ;;
     sc <- get_smtp_conn ;;
     match sc with
     | Some c =>
         call P_quit c (smtp_quit c) ;;
         set_smtp_conn None
     | None => ret tt
     end ;;
     log INFO L_all_closed)
    (fun e => log WARNING (L_close_failed (exn_str e))).

End Methods.

(* ================================================================== *)
(** ** Words for the properties *)

Section Vocabulary.
Context {W : Type}.
Local Abbreviation M := (M W).

(** A method is quiet when it neither sleeps nor begins an attempt. *)
Definition quiet {A} (m : M A) : Prop :=
  forall t, sleeps (trace (snd (m t))) = sleeps (trace t) /\
            attempts (trace (snd (m t))) = attempts (trace t).

(** Whatever a method returns satisfies [P]. *)
Definition returns {A} (P : A -> Prop) (m : M A) : Prop :=
  forall t a t', m t = (inr a, t') -> P a.

(** A success dict: what the three [try] blocks return. *)
Definition success_dict (v : pyvalue) : Prop :=
  exists f, v = PyDict f /\ success f = true.

(** What the loop lemmas need of the three instances of [retried]. *)
Record well_behaved (r : @retried W) : Prop := {
  wb_quiet : quiet (r_body r);
  wb_returns : returns success_dict (r_body r);
  wb_drop : forall t : tool W,
      exists t', r_drop r t = (inr tt, t') /\ trace t' = trace t;
  wb_failure : forall e (t : tool W), exists f t',
      r_failure r e t = (inr (PyDict f), t') /\
      success f = false /\ error f = Some e /\ trace t' = trace t
}.

(** The tool after one more log line. *)
Definition logged (t : tool W) (lv : level) (txt : log_text) : tool W :=
  Tool (imap_conn t) (smtp_conn t) (world t) (trace t ++ [Ev_log lv txt]).

End Vocabulary.

(* ================================================================== *)
(** ** A scripted server

    A concrete [MailLib] for running the methods: a server that refuses a
    given number of connections before it accepts one, holds one INBOX,
    and answers CLOSE with an error while no mailbox is selected (as an
    IMAP server does).  Headers without encoded words and ASCII payloads
    are all it is asked to decode. *)

Record server := {
  sv_refuse : nat;                          (* connections still to refuse *)
  sv_next : conn;                           (* the next session number *)
  sv_inbox : list (bytes * email_message);  (* in search order *)
  sv_selected : bool;                       (* a mailbox is selected *)
  sv_clock : Z                              (* seconds slept so far *)
}.

Definition bytes_eqb (a b : bytes) : bool :=
  if list_eq_dec Byte.byte_eq_dec a b then true else false.

Definition ascii_of_bytes (b : bytes) : str :=
  map (fun x => Z.of_N (Byte.to_N x)) b.

Definition bytes_of_ascii (s : str) : bytes :=
  map (fun c => match Byte.of_N (Z.to_N c) with Some x => x | None => Byte.x3f end) s.

Definition sv_connect (w : server) : Exc conn * server :=
  match sv_refuse w with
  | S k =>
      (inl (Exn OtherException (lit "[Errno 111] Connection refused")),
       {| sv_refuse := k; sv_next := sv_next w; sv_inbox := sv_inbox w;
          sv_selected := sv_selected w; sv_clock := sv_clock w |})
  | O =>
      (inr (sv_next w),
       {| sv_refuse := O; sv_next := S (sv_next w); sv_inbox := sv_inbox w;
          sv_selected := false; sv_clock := sv_clock w |})
  end.

Definition sv_select (folder : str) (w : server) : Exc str * server :=
  let found := str_eqb folder (lit "INBOX") in
  (inr (if found then lit "OK" else lit "NO"),
   {| sv_refuse := sv_refuse w; sv_next := sv_next w; sv_inbox := sv_inbox w;
      sv_selected := found; sv_clock := sv_clock w |}).

Definition sv_fetch (msg_id : bytes) (w : server)
  : Exc (str * Exc email_message) * server :=
  match find (fun entry => bytes_eqb (fst entry) msg_id) (sv_inbox w) with
  | Some entry => (inr (lit "OK", inr (snd entry)), w)
  | None =>
      (inr (lit "NO",
            inl (Exception (lit "'NoneType' object is not subscriptable"))), w)
  end.

Definition sv_close (w : server) : Exc unit * server :=
  if sv_selected w
  then (inr tt,
        {| sv_refuse := sv_refuse w; sv_next := sv_next w; sv_inbox := sv_inbox w;
           sv_selected := false; sv_clock := sv_clock w |})
  else (inl (Exn IMAP4_error (lit "command CLOSE illegal in state AUTH")), w).

(** The clock of the examples.  [time.sleep] refuses a negative delay
    with a ValueError and a delay whose nanoseconds do not fit a signed
    64-bit integer with an OverflowError. *)
Definition clock_verdict (d : Z) : Exc unit :=
  if d <? 0
  then inl (Exception (lit "sleep length must be non-negative"))
  else if Z.shiftl 1 63 <=? d * 1000000000
  then inl (Exception (lit "timestamp too large to convert to C _PyTime_t"))
  else inr tt.

Definition sv_sleep (d : Z) (w : server) : Exc unit * server :=
  match clock_verdict d with
  | inr _ =>
      (inr tt,
       {| sv_refuse := sv_refuse w; sv_next := sv_next w; sv_inbox := sv_inbox w;
          sv_selected := sv_selected w; sv_clock := sv_clock w + d |})
  | inl e => (inl e, w)
  end.

#[export] Instance scripted : MailLib server := {
  IMAP4_SSL := fun _ _ => sv_connect;
  imap_login := fun _ _ _ w => (inr tt, w);
  imap_select := fun _ => sv_select;
  imap_search := fun _ w => (inr (lit "OK", inr (map fst (sv_inbox w))), w);
  imap_fetch := fun _ => sv_fetch;
  imap_close := fun _ => sv_close;
  imap_logout := fun _ w => (inr tt, w);
  SMTP := fun _ _ => sv_connect;
  smtp_starttls := fun _ w => (inr tt, w);
  smtp_login := fun _ _ _ w => (inr tt, w);
  smtp_sendmail := fun _ _ _ _ w => (inr tt, w);
  smtp_quit := fun _ w => (inr tt, w);
  time_sleep := sv_sleep;
  now_isoformat := fun w => (lit "2024-01-01T00:00:00", w);
  decode_header := fun s => inr [(F_str s, None)];
  bytes_decode := fun b _ => inr (ascii_of_bytes b);
  bytes_decode_ignore := ascii_of_bytes;
  str_encode := fun s => inr (bytes_of_ascii s);
  as_string := fun _ _ _ body => inr body
}.

(** A fresh [MCPMailTool]: no session, nothing traced. *)
Definition fresh (w : server) : tool server :=
  {| imap_conn := None; smtp_conn := None; world := w; trace := [] |}.

Definition example_config (retries : Z) : config :=
  {| cfg_email := lit "me@example.com"; cfg_password := lit "secret";
     cfg_imap_server := lit "imap.example.com";
     cfg_smtp_server := lit "smtp.example.com";
     cfg_imap_port := None; cfg_smtp_port := None;
     cfg_retry_count := Some retries; cfg_retry_delay := None |}.

Definition plain_message (subject body : str) : email_message :=
  {| hdr_subject := Some subject; hdr_from := Some (lit "you@example.com");
     hdr_to := Some (lit "me@example.com"); hdr_date := None;
     content := Leaf text_plain (inr body) |}.

(** A multipart/alternative message whose only part is text/html. *)
Definition html_only_message : email_message :=
  {| hdr_subject := Some (lit "News"); hdr_from := Some (lit "you@example.com");
     hdr_to := Some (lit "me@example.com"); hdr_date := None;
     content := Multi (lit "multipart/alternative")
                  [Leaf text_html (inr (lit "<p>Hello <b>world</b></p>"))] |}.

Definition long_text : str := repeat 97 201.

(** A multipart message with a text/html part in a charset Python does
    not know, followed by a long text/plain part. *)
Definition html_unreadable_message : email_message :=
  {| hdr_subject := Some (lit "News"); hdr_from := Some (lit "you@example.com");
     hdr_to := Some (lit "me@example.com"); hdr_date := None;
     content := Multi (lit "multipart/mixed")
                  [Leaf text_html (inl (Exception (lit "unknown encoding: x-user")));
                   Leaf text_plain (inr long_text)] |}.

Definition id1 : bytes := [Byte.x31].
Definition id2 : bytes := [Byte.x32].
Definition id3 : bytes := [Byte.x33].

Definition three_messages : list (bytes * email_message) :=
  [(id1, plain_message (lit "one") (lit "first"));
   (id2, plain_message (lit "two") (lit "second"));
   (id3, plain_message (lit "three") (lit "third"))].

Definition server_with (refuse : nat) (inbox : list (bytes * email_message)) : server :=
  {| sv_refuse := refuse; sv_next := O; sv_inbox := inbox;
     sv_selected := false; sv_clock := 0 |}.

(** A text/plain message of two spaces, and one in a charset Python
    does not know. *)
Definition empty_message : email_message := plain_message (lit "hi") (lit "  ").

Definition unreadable_message : email_message :=
  {| hdr_subject := None; hdr_from := None; hdr_to := None; hdr_date := None;
     content := Leaf text_plain (inl (Exception (lit "unknown encoding: x-user"))) |}.

(** The tool after a send that worked and a read of a folder that does
    not exist, with the default three attempts: both sessions are open and
    no mailbox is selected. *)
Definition after_failed_read : tool server :=
  snd (mail_read (example_config 3) (lit "Nope") 10
         (snd (mail_send (example_config 3) (lit "a@b.c") (lit "hi") (lit "there")
                 (fresh (server_with 0 three_messages))))).

(** The tool after [mail_get] of an identifier the INBOX does not have,
    with the default three attempts. *)
Definition after_failed_get : tool server :=
  snd (mail_get (example_config 3) (lit "9") (fresh (server_with 0 three_messages))).

(** The trace a run added to the one it started with. *)
Definition added (before after : list event) : list event :=
  skipn (length before) after.


(* ================================================================== *)
(** ** load_config and main *)

(** What [json.load] returns. *)
#[warnings="-register-all"]
Inductive json :=
| J_null
| J_bool (b : bool)
| J_int (n : Z)
| J_float (text : str)
| J_str (s : str)
| J_list (items : list json)
| J_dict (items : list (str * json)).

(** The host the process runs on: the file system as [load_config]
    reads it, and [int]. *)
Class Host := {
  (** [os.path.exists(path)] *)
  path_exists : str -> bool;
  (** [open(path, 'r', encoding='utf-8')] and [json.load(f)] *)
  json_load : str -> Exc json;
  (** [int(s)] *)
  py_int : str -> Exc Z
}.

(** The TypeError of [x in v] for a [v] of a type without [in]. *)
Definition not_iterable (type_name : str) : exn :=
  Exception (lit "argument of type '" ++ type_name ++ lit "' is not iterable").

(** [field in config], by the type [json.load] gave [config]: a key of
    a dict, an element of a list, a substring of a string; the other
    values are not iterable and the test raises TypeError. *)
Definition py_in (field : str) (config : json) : Exc bool :=
  match config with
  | J_dict items => inr (existsb (fun kv => str_eqb (fst kv) field) items)
  | J_list items =>
      inr (existsb (fun x => match x with
                             | J_str s => str_eqb s field
                             | _ => false
                             end) items)
  | J_str s => inr (str_contains field s)
  | J_null => inl (not_iterable (lit "NoneType"))
  | J_bool _ => inl (not_iterable (lit "bool"))
  | J_int _ => inl (not_iterable (lit "int"))
  | J_float _ => inl (not_iterable (lit "float"))
  end.

Definition required_fields : list str :=
  [lit "email"; lit "password"; lit "imap_server"; lit "smtp_server"].

Definition config_file_missing (config_file : str) : str :=
  [37197; 32622; 25991; 20214; 19981; 23384; 22312; 58; 32] ++ config_file.

Definition config_field_missing (field : str) : str :=
  [37197; 32622; 25991; 20214; 32570; 23569; 24517; 38656; 23383; 27573; 58; 32]
  ++ field.

(** Lines 67-69: [for field in required_fields: if field not in config:
    raise ValueError(...)]. *)
Fixpoint check_required (fields : list str) (config : json) : Exc unit :=
  match fields with
  | [] => inr tt
  | field :: rest =>
      match py_in field config with
      | inl e => inl e
      | inr true => check_required rest config
      | inr false => inl (Exception (config_field_missing field))
      end
  end.

Section Loading.
Context {host : Host}.

(** The [try] block of [load_config]. *)
Definition load_config_try (config_file : str) : Exc json :=
  if negb (path_exists config_file)
  then inl (Exception (config_file_missing config_file))
  else match json_load config_file with
       | inl e => inl e
       | inr config =>
           match check_required required_fields config with
           | inl e => inl e
           | inr _ => inr config
           end
       end.

Definition load_config (config_file : str) : Exc json :=
  match load_config_try config_file with
  | inl e => inl (Exception (lit "CONFIGURATION_ERROR: " ++ exn_str e))
  | inr config => inr config
  end.

End Loading.

(** What [main] prints: one constructor for each [print] of the source,
    the four usage lines taken together. *)
Inductive printed :=
| Pr_usage
| Pr_result (result : pyvalue)      (* json.dumps(result, ...) *)
| Pr_send_needs_arguments
| Pr_get_needs_id
| Pr_unknown_command (command : str)
| Pr_error (e : str).               (* the line that starts with the error mark *)

Section Main.
Context {W : Type} {lib : MailLib W} {host : Host}.

(** The [try] block of [main].  [constructed] is the outcome of
    [MCPMailTool()]: the exception [load_config] raised, or the
    configuration it returned as the methods read it. *)
Definition main_try (constructed : Exc config) (argv : list str)
    (command : str) : M W (list printed) :=
  cfg <- lift constructed ;;
  if str_eqb command (lit "read") then
    let folder := match nth_error argv 2 with
                  | Some f => f
                  | None => lit "INBOX"
                  end in
    limit <- match nth_error argv 3 with
             | Some l => lift (py_int l)
             | None => ret 10
             end ;;
    result <- mail_read cfg folder limit ;;
    ret [Pr_result result]
  else if str_eqb command (lit "send") then
    match argv with
    | _ :: _ :: to :: subject :: body :: _ =>
        result <- mail_send cfg to subject body ;;
        ret [Pr_result result]
    | _ => ret [Pr_send_needs_arguments]
    end
  else if str_eqb command (lit "get") then
    match argv with
    | _ :: _ :: email_id :: _ =>
        result <- mail_get cfg email_id ;;
        ret [Pr_result result]
    | _ => ret [Pr_get_needs_id]
    end
  else ret [Pr_unknown_command command].

(** [main], run on the tool state [MCPMailTool()] starts with, for a
    standard output that takes every line: the value is the lines handed
    to [print], in order.  The [finally] block closes the connections
    when [tool] was bound.  [main_printing] below is [main] with its
    [print] calls as calls that may raise. *)
Definition main (constructed : Exc config) (argv : list str) : M W (list printed) :=
  match argv with
  | _ :: command :: _ =>
      out <- try_catch (main_try constructed argv command)
               (fun e => ret [Pr_error (exn_str e)]) ;;
      match constructed with
      | inr _ => close_connections
      | inl _ => ret tt
      end ;;
      ret out
  | _ => ret [Pr_usage]
  end.

End Main.

(** *** main and the standard output

    [print] can raise: an encoding the stream does not have
    (UnicodeEncodeError), a closed pipe (OSError), and for the result
    line the [json.dumps] whose value it prints (TypeError).  In [main]
    the usage lines are printed outside the [try] block (lines 442-445),
    the result and the three complaints inside it, and the error line
    inside the [except] clause (line 481), where nothing catches. *)
Section Console.
Context {W : Type} {lib : MailLib W} {host : Host}.

(** What printing a line does to the world.  For [Pr_result] this is
    [print(json.dumps(result, ensure_ascii=False, indent=2))], for
    [Pr_usage] the four [print]s of the usage lines, one after the
    other. *)
Variable stdout_write : printed -> W -> Exc unit * W.

Definition py_print (p : printed) : M W unit :=
  fun t => let (r, w) := stdout_write p (world t) in
           (r, Tool (imap_conn t) (smtp_conn t) w (trace t)).

(** [try: m  finally: f]: [f] runs however [m] ends; an exception of
    [f] takes the place of the outcome of [m]. *)
Definition try_finally {A} (m : M W A) (f : M W unit) : M W A :=
  fun t => let (r, t1) := m t in
           match f t1 with
           | (inr _, t2) => (r, t2)
           | (inl e, t2) => (inl e, t2)
           end.

(** The [try] block of [main]. *)
Definition main_try_printing (constructed : Exc config) (argv : list str)
    (command : str) : M W unit :=
  cfg <- lift constructed ;;
  if str_eqb command (lit "read") then
    let folder := match nth_error argv 2 with
                  | Some f => f
                  | None => lit "INBOX"
                  end in
    limit <- match nth_error argv 3 with
             | Some l => lift (py_int l)
             | None => ret 10
             end ;;
    result <- mail_read cfg folder limit ;;
    py_print (Pr_result result)
  else if str_eqb command (lit "send") then
    match argv with
    | _ :: _ :: to :: subject :: body :: _ =>
        result <- mail_send cfg to subject body ;;
        py_print (Pr_result result)
    | _ => py_print Pr_send_needs_arguments
    end
  else if str_eqb command (lit "get") then
    match argv with
    | _ :: _ :: email_id :: _ =>
        result <- mail_get cfg email_id ;;
        py_print (Pr_result result)
    | _ => py_print Pr_get_needs_id
    end
  else py_print (Pr_unknown_command command).

(** [main]: the usage lines when there is no command; else the [try]
    block, the [except] clause that prints the error, and the [finally]
    block, which closes the connections when [tool] was bound. *)
Definition main_printing (constructed : Exc config) (argv : list str) : M W unit :=
  match argv with
  | _ :: command :: _ =>
      try_finally
        (try_catch (main_try_printing constructed argv command)
           (fun e => py_print (Pr_error (exn_str e))))
        (match constructed with
         | inr _ => close_connections
         | inl _ => ret tt
         end)
  | _ => py_print Pr_usage
  end.

End Console.

(** [int(s)] for the example host, on ASCII text: blanks around the
    literal, one sign, decimal digits with single underscores between
    them.  (Python also takes the decimal digits and the spaces of other
    scripts, and refuses a literal of more than 4300 digits; the example
    command lines have neither.) *)
Definition is_digit (c : Z) : bool := (48 <=? c) && (c <=? 57).

Definition is_blank (c : Z) : bool := ((9 <=? c) && (c <=? 13)) || (c =? 32).

Fixpoint lstrip_blanks (s : str) : str :=
  match s with
  | [] => []
  | c :: t => if is_blank c then lstrip_blanks t else s
  end.

(** The digits after the sign: [after_digit] tells whether the character
    before was a digit, which an underscore and the end both need. *)
Fixpoint digits_value (s : str) (acc : Z) (after_digit : bool) : option Z :=
  match s with
  | [] => if after_digit then Some acc else None
  | c :: rest =>
      if is_digit c then digits_value rest (10 * acc + (c - 48)) true
      else if (c =? 95) && after_digit then digits_value rest acc false
      else None
  end.

Definition int_literal (s : str) : option Z :=
  match rev (lstrip_blanks (rev (lstrip_blanks s))) with
  | 43 :: digits => digits_value digits 0 false
  | 45 :: digits => option_map Z.opp (digits_value digits 0 false)
  | digits => digits_value digits 0 false
  end.

(** [repr(s)], on ASCII text. *)
Definition hex_digit (n : Z) : Z := if n <? 10 then 48 + n else 87 + n.

Definition repr_char (quote c : Z) : str :=
  if c =? 92 then [92; 92]
  else if c =? quote then [92; quote]
  else if c =? 9 then [92; 116]
  else if c =? 10 then [92; 110]
  else if c =? 13 then [92; 114]
  else if (c <? 32) || (c =? 127) then [92; 120; hex_digit (c / 16); hex_digit (c mod 16)]
  else [c].

Definition py_repr (s : str) : str :=
  let quote := if char_in 39 s && negb (char_in 34 s) then 34 else 39 in
  [quote] ++ flat_map (repr_char quote) s ++ [quote].

(** The ValueError of [int(s)], whose text holds [repr(s)] cut at 200
    characters. *)
Definition invalid_int_literal (s : str) : exn :=
  Exception (lit "invalid literal for int() with base 10: "
             ++ slice_to 200 (py_repr s)).

(** A host with the given files. *)

Definition host_with (files : list (str * Exc json)) : Host := {|
  path_exists := fun path => existsb (fun f => str_eqb (fst f) path) files;
  json_load := fun path =>
    match find (fun f => str_eqb (fst f) path) files with
    | Some f => snd f
    | None => inl (Exception (lit "No such file or directory"))
    end;
  py_int := fun s =>
    match int_literal s with
    | Some n => inr n
    | None => inl (invalid_int_literal s)
    end
|}.

Definition good_json : json :=
  J_dict [(lit "email", J_str (lit "me@example.com"));
          (lit "password", J_str (lit "secret"));
          (lit "imap_server", J_str (lit "imap.example.com"));
          (lit "smtp_server", J_str (lit "smtp.example.com"));
          (lit "retry_count", J_int 3)].

Definition no_password_json : json :=
  J_dict [(lit "email", J_str (lit "me@example.com"));
          (lit "imap_server", J_str (lit "imap.example.com"))].

Definition example_host : Host :=
  host_with [(lit "config.json", inr good_json);
             (lit "short.json", inr no_password_json);
             (lit "broken.json", inl (Exception (lit "Expecting value: line 1 column 1 (char 0)")))].

(** A library whose server accepts the connection and then refuses the
    password, and whose SMTP side does not answer at all. *)
Definition locked_out : MailLib unit := {|
  IMAP4_SSL := fun _ _ w => (inr 7%nat, w);
  imap_login := fun _ _ _ w =>
    (inl (Exn IMAP4_error (lit "[AUTHENTICATIONFAILED] Authentication failed.")), w);
  imap_select := fun _ _ w => (inr (lit "NO"), w);
  imap_search := fun _ w => (inr (lit "NO", inr []), w);
  imap_fetch := fun _ _ w =>
    (inr (lit "NO", inl (Exception (lit "'NoneType' object is not subscriptable"))), w);
  imap_close := fun _ w => (inr tt, w);
  imap_logout := fun _ w => (inr tt, w);
  SMTP := fun _ _ w => (inl (Exn SMTPException (lit "Connection unexpectedly closed")), w);
  smtp_starttls := fun _ w => (inr tt, w);
  smtp_login := fun _ _ _ w => (inr tt, w);
  smtp_sendmail := fun _ _ _ _ w => (inr tt, w);
  smtp_quit := fun _ w => (inl (Exn SMTPException (lit "please run connect() first")), w);
  time_sleep := fun d w => (clock_verdict d, w);
  now_isoformat := fun w => (lit "2024-01-01T00:00:00", w);
  decode_header := fun s => inl (Exception (lit "unknown encoding: x-user"));
  bytes_decode := fun b _ => inr (ascii_of_bytes b);
  bytes_decode_ignore := ascii_of_bytes;
  str_encode := fun s => inr (bytes_of_ascii s);
  as_string := fun _ _ _ body => inr body
|}.

(** A library whose server accepts every connection and answers every
    SELECT and every FETCH with the given status; SEARCH lists the
    identifiers 1 to 4 and every FETCH comes with a message. *)
Definition answering (select_status fetch_status : str) : MailLib unit := {|
  IMAP4_SSL := fun _ _ w => (inr 1%nat, w);
  imap_login := fun _ _ _ w => (inr tt, w);
  imap_select := fun _ _ w => (inr select_status, w);
  imap_search := fun _ w =>
    (inr (lit "OK", inr [[Byte.x31]; [Byte.x32]; [Byte.x33]; [Byte.x34]]), w);
  imap_fetch := fun _ msg_id w =>
    (inr (fetch_status, inr (plain_message (ascii_of_bytes msg_id) (lit "hello"))), w);
  imap_close := fun _ w => (inr tt, w);
  imap_logout := fun _ w => (inr tt, w);
  SMTP := fun _ _ w => (inr 2%nat, w);
  smtp_starttls := fun _ w => (inr tt, w);
  smtp_login := fun _ _ _ w => (inr tt, w);
  smtp_sendmail := fun _ _ _ _ w => (inr tt, w);
  smtp_quit := fun _ w => (inr tt, w);
  time_sleep := fun d w => (clock_verdict d, w);
  now_isoformat := fun w => (lit "2024-01-01T00:00:00", w);
  decode_header := fun s => inr [(F_str s, None)];
  bytes_decode := fun b _ => inr (ascii_of_bytes b);
  bytes_decode_ignore := ascii_of_bytes;
  str_encode := fun s => inr (bytes_of_ascii s);
  as_string := fun _ _ _ body => inr body
|}.

(** The server that has every message asked for. *)
Definition obliging : MailLib unit := answering (lit "OK") (lit "OK").

(** The text of [s] up to its first [sep]. *)
Fixpoint text_before (sep : Z) (s : str) : str :=
  match s with
  | [] => []
  | c :: t => if c =? sep then [] else c :: text_before sep t
  end.

(** [sub] is [l] with some elements left out, the others in order. *)
Inductive subsequence {A} : list A -> list A -> Prop :=
| sub_nil : subsequence [] []
| sub_skip x sub l : subsequence sub l -> subsequence sub (x :: l)
| sub_keep x sub l : subsequence sub l -> subsequence (x :: sub) (x :: l).

(** The calls of a trace that go to the SMTP client, and those that go
    to the IMAP client. *)
Definition is_smtp_prim (p : prim) : bool :=
  match p with
  | P_SMTP | P_starttls | P_smtp_login | P_sendmail | P_quit => true
  | _ => false
  end.

Definition smtp_calls (tr : list event) : list (prim * option conn * bool) :=
  filter (fun c => is_smtp_prim (fst (fst c))) (calls tr).

Definition imap_calls (tr : list event) : list (prim * option conn * bool) :=
  filter (fun c => negb (is_smtp_prim (fst (fst c)))) (calls tr).

(** Text that [re_sub_tags] has nothing to remove from: outside its
    "<>" pairs, a '<' is followed by no '>' at all. *)
Inductive tagless : str -> Prop :=
| tagless_nil : tagless []
| tagless_char c s : c <> chr_lt -> tagless s -> tagless (c :: s)
| tagless_pair s : tagless s -> tagless (chr_lt :: chr_gt :: s)
| tagless_open s : char_in chr_gt s = false -> tagless (chr_lt :: s).

(* ================================================================== *)
(** * Properties *)

(** ** Python strings *)

Lemma str_eqb_refl (a : str) : str_eqb a a = true.
Proof. induction a; simpl; [reflexivity|]. now rewrite Z.eqb_refl. Qed.

Lemma str_eqb_eq (a b : str) : str_eqb a b = true <-> a = b.
Proof.
  split; [|intros ->; apply str_eqb_refl].
  revert b; induction a as [|x a IH]; intros [|y b]; simpl; try easy.
  intros H. apply andb_true_iff in H as [H1 H2].
  apply Z.eqb_eq in H1. f_equal; auto.
Qed.

Lemma len_nonneg {A} (l : list A) : 0 <= len l.
Proof. unfold len; lia. Qed.

Lemma slice_to_length {A} (k : Z) (l : list A) :
  0 <= k <= len l -> len (slice_to k l) = k.
Proof.
  unfold slice_to, len. intros H.
  destruct (0 <=? k) eqn:E; [|apply Z.leb_gt in E; lia].
  rewrite length_firstn. lia.
Qed.

Lemma sleeps_app (a b : list event) : sleeps (a ++ b) = sleeps a ++ sleeps b.
Proof.
  induction a as [|[] a IH]; simpl; auto. now rewrite IH.
Qed.

Lemma attempts_app (a b : list event) :
  attempts (a ++ b) = attempts a ++ attempts b.
Proof.
  induction a as [|[] a IH]; simpl; auto. now rewrite IH.
Qed.


Lemma range_from_S (a : Z) (m : nat) :
  range_from a (S m) = a :: range_from (a + 1) m.
Proof.
  unfold range_from. simpl. f_equal; [lia|].
  rewrite <- seq_shift, map_map. apply map_ext. intros; lia.
Qed.

Lemma py_range_from (n : Z) : py_range n = range_from 0 (Z.to_nat n).
Proof. unfold py_range, range_from. apply map_ext. intros; lia. Qed.

Lemma range_from_snoc (a : Z) (m : nat) :
  range_from a (S m) = range_from a m ++ [a + Z.of_nat m].
Proof.
  unfold range_from. rewrite seq_S, map_app. reflexivity.
Qed.

(* ================================================================== *)
(** ** What a method leaves in the trace *)

Section Frame.
Context {W : Type} {lib : MailLib W}.
Local Abbreviation M := (M W).
Local Abbreviation quiet := (@quiet W _).



Lemma quiet_ret {A} (a : A) : quiet (ret a).
Proof. intros t; simpl; auto. Qed.

Lemma quiet_raise {A} (e : exn) : quiet (@raise W A e).
Proof. intros t; simpl; auto. Qed.

Lemma quiet_lift {A} (x : Exc A) : quiet (@lift W A x).
Proof. intros t; simpl; auto. Qed.

Lemma quiet_bind {A B} (m : M A) (k : A -> M B) :
  quiet m -> (forall a, quiet (k a)) -> quiet (bind m k).
Proof.
  intros Hm Hk t. unfold bind. specialize (Hm t).
  destruct (m t) as [[e|a] t1]; simpl in *; auto.
  destruct (Hk a t1) as [H1 H2]. destruct Hm as [H3 H4].
  rewrite H1, H2; auto.
Qed.

Lemma quiet_try_catch {A} (m : M A) (h : exn -> M A) :
  quiet m -> (forall e, quiet (h e)) -> quiet (try_catch m h).
Proof.
  intros Hm Hh t. unfold try_catch. specialize (Hm t).
  destruct (m t) as [[e|a] t1]; simpl in *; auto.
  destruct (Hh e t1) as [H1 H2]. destruct Hm as [H3 H4].
  rewrite H1, H2; auto.
Qed.

Lemma quiet_log (lv : level) (txt : log_text) : quiet (@log W lv txt).
Proof.
  intros t; simpl. rewrite sleeps_app, attempts_app; simpl.
  now rewrite !app_nil_r.
Qed.

Lemma quiet_call {A} (p : prim) (c : conn) (f : W -> Exc A * W) :
  quiet (call p c f).
Proof.
  intros t; unfold call. destruct (f (world t)) as [r w]; simpl.
  rewrite sleeps_app, attempts_app; simpl. now rewrite !app_nil_r.
Qed.

Lemma quiet_call_new (p : prim) (f : W -> Exc conn * W) :
  quiet (call_new p f).
Proof.
  intros t; unfold call_new. destruct (f (world t)) as [r w]; simpl.
  rewrite sleeps_app, attempts_app; simpl. now rewrite !app_nil_r.
Qed.

Lemma quiet_now : quiet now.
Proof. intros t; unfold now. destruct (now_isoformat (world t)); simpl; auto. Qed.

Lemma quiet_set_imap_conn (v : option conn) : quiet (@set_imap_conn W v).
Proof. intros t; simpl; auto. Qed.

Lemma quiet_set_smtp_conn (v : option conn) : quiet (@set_smtp_conn W v).
Proof. intros t; simpl; auto. Qed.

Lemma quiet_get_imap_conn : quiet (@get_imap_conn W).
Proof. intros t; simpl; auto. Qed.

Lemma quiet_get_smtp_conn : quiet (@get_smtp_conn W).
Proof. intros t; simpl; auto. Qed.

Create HintDb quiet_db.
#[local] Hint Resolve quiet_ret quiet_raise quiet_lift quiet_log quiet_call
  quiet_call_new quiet_now quiet_set_imap_conn quiet_set_smtp_conn
  quiet_get_imap_conn quiet_get_smtp_conn : quiet_db.

(** Walks a method body: binds and handlers are split, branches are
    taken apart, leaves are closed from the hint database. *)
Ltac quiet_step :=
  match goal with
  | |- quiet (bind _ _) => apply quiet_bind; [|intros]
  | |- quiet (try_catch _ _) => apply quiet_try_catch; [|intros]
  | |- quiet (if ?b then _ else _) => destruct b
  | |- quiet (match ?x with _ => _ end) => destruct x
  | |- quiet _ => solve [auto with quiet_db]
  end.
Ltac quiet_walk := repeat quiet_step.

Lemma quiet_the_imap_conn : quiet the_imap_conn.
Proof. unfold the_imap_conn. quiet_walk. Qed.

Lemma quiet_the_smtp_conn : quiet the_smtp_conn.
Proof. unfold the_smtp_conn. quiet_walk. Qed.

Lemma quiet_connect_imap (cfg : config) : quiet (connect_imap cfg).
Proof. unfold connect_imap. quiet_walk. Qed.

Lemma quiet_connect_smtp (cfg : config) : quiet (connect_smtp cfg).
Proof. unfold connect_smtp. quiet_walk. Qed.

Lemma quiet_decode_mime_words (s : str) : quiet (decode_mime_words s).
Proof. unfold decode_mime_words. quiet_walk. Qed.

Lemma quiet_extract_body_summary (m : email_message) (k : Z) :
  quiet (extract_body_summary m k).
Proof. unfold extract_body_summary. quiet_walk. Qed.

Lemma quiet_extract_full_body (m : email_message) :
  quiet (extract_full_body m).
Proof. unfold extract_full_body. quiet_walk. Qed.

#[local] Hint Resolve quiet_the_imap_conn quiet_the_smtp_conn
  quiet_connect_imap quiet_connect_smtp quiet_decode_mime_words
  quiet_extract_body_summary quiet_extract_full_body : quiet_db.

Lemma quiet_ensure_imap (cfg : config) : quiet (ensure_imap cfg).
Proof. unfold ensure_imap. quiet_walk. Qed.

Lemma quiet_ensure_smtp (cfg : config) : quiet (ensure_smtp cfg).
Proof. unfold ensure_smtp. quiet_walk. Qed.

Lemma quiet_read_one (msg_id : bytes) (emails : list summary) :
  quiet (read_one msg_id emails).
Proof. unfold read_one. quiet_walk. Qed.

#[local] Hint Resolve quiet_ensure_imap quiet_ensure_smtp quiet_read_one
  : quiet_db.

Lemma quiet_read_all (ids : list bytes) (emails : list summary) :
  quiet (read_all ids emails).
Proof.
  revert emails; induction ids as [|i ids IH]; intros emails; simpl.
  - auto with quiet_db.
  - apply quiet_bind; auto with quiet_db.
Qed.

#[local] Hint Resolve quiet_read_all : quiet_db.

Lemma quiet_mail_read_body (cfg : config) (folder : str) (limit : Z) :
  quiet (mail_read_body cfg folder limit).
Proof. unfold mail_read_body. quiet_walk. Qed.

Lemma quiet_mail_send_body (cfg : config) (to subject body : str) :
  quiet (mail_send_body cfg to subject body).
Proof. unfold mail_send_body. quiet_walk. Qed.

Lemma quiet_mail_get_body (cfg : config) (email_id : str) :
  quiet (mail_get_body cfg email_id).
Proof. unfold mail_get_body. quiet_walk. Qed.

End Frame.

(* ================================================================== *)
(** ** The retry loop *)

Section Retry.
Context {W : Type} {lib : MailLib W}.
Local Abbreviation M := (M W).
Local Abbreviation returns := (@returns W _).

Lemma returns_ret {A} (P : A -> Prop) (a : A) : P a -> returns P (@ret W A a).
Proof. intros H t a' t' E. inversion E; subst; auto. Qed.

Lemma returns_raise {A} (P : A -> Prop) (e : exn) : returns P (@raise W A e).
Proof. intros t a' t' E. inversion E. Qed.

Lemma returns_bind {A B} (P : B -> Prop) (m : M A) (k : A -> M B) :
  (forall a, returns P (k a)) -> returns P (bind m k).
Proof.
  intros Hk t b t' E. unfold bind in E.
  destruct (m t) as [[e|a] t1]; [inversion E|]. eapply Hk; eauto.
Qed.

Ltac returns_step :=
  match goal with
  | |- returns _ (bind _ _) => apply returns_bind; intros
  | |- returns _ (ret _) => apply returns_ret
  | |- returns _ (raise _) => apply returns_raise
  | |- returns _ (if ?b then _ else _) => destruct b
  | |- returns _ (match ?x with _ => _ end) => destruct x
  end.


Lemma mail_read_body_returns (cfg : config) (folder : str) (limit : Z) :
  returns success_dict (mail_read_body cfg folder limit).
Proof.
  unfold mail_read_body; repeat returns_step; eexists; split; reflexivity.
Qed.

Lemma mail_send_body_returns (cfg : config) (to subject body : str) :
  returns success_dict (mail_send_body cfg to subject body).
Proof.
  unfold mail_send_body; repeat returns_step; eexists; split; reflexivity.
Qed.

Lemma mail_get_body_returns (cfg : config) (email_id : str) :
  returns success_dict (mail_get_body cfg email_id).
Proof.
  unfold mail_get_body; repeat returns_step; eexists; split; reflexivity.
Qed.


Lemma read_well_behaved (cfg : config) (folder : str) (limit : Z) :
  well_behaved (read_retried cfg folder limit).
Proof.
  constructor; simpl.
  - apply quiet_mail_read_body.
  - apply mail_read_body_returns.
  - intros t; eexists; split; reflexivity.
  - intros e t; do 2 eexists; repeat split; reflexivity.
Qed.

Lemma send_well_behaved (cfg : config) (to subject body : str) :
  well_behaved (send_retried cfg to subject body).
Proof.
  constructor; simpl.
  - apply quiet_mail_send_body.
  - apply mail_send_body_returns.
  - intros t; eexists; split; reflexivity.
  - intros e t. unfold bind, now.
    destruct (now_isoformat (world t)) as [ts w]; simpl.
    do 2 eexists; repeat split; reflexivity.
Qed.

Lemma get_well_behaved (cfg : config) (email_id : str) :
  well_behaved (get_retried cfg email_id).
Proof.
  constructor; simpl.
  - apply quiet_mail_get_body.
  - apply mail_get_body_returns.
  - intros t; eexists; split; reflexivity.
  - intros e t; do 2 eexists; repeat split; reflexivity.
Qed.

(** A sleep that returns leaves its delay in the trace; one that raises
    leaves the trace as it was. *)
Lemma sleep_run (d : Z) (t : tool W) :
  sleep_returns d ->
  exists w', sleep d t = (inr tt, Tool (imap_conn t) (smtp_conn t) w'
                                   (trace t ++ [Ev_sleep d])).
Proof.
  intros H. destruct (H (world t)) as (w' & E).
  exists w'. unfold sleep. rewrite E. reflexivity.
Qed.

Lemma sleep_raises (d : Z) (t : tool W) (e : exn) (w' : W) :
  time_sleep d (world t) = (inl e, w') ->
  sleep d t = (inl e, Tool (imap_conn t) (smtp_conn t) w' (trace t)).
Proof. intros E. unfold sleep. rewrite E. reflexivity. Qed.

Section Loop.
Variable cfg : config.
Variable r : @retried W.
Hypothesis Hwb : well_behaved r.
Hypothesis Hdelay : sleep_returns (retry_delay cfg).

(** One turn of the loop, by the two ways out of its [except] block. *)
Lemma retry_loop_cons (a : Z) (rest : list Z) (t : tool W) :
  retry_loop cfg r (a :: rest) t
  = try_catch (attempt r a)
      (fun e => if a <? retry_count cfg - 1
                then go_on cfg r a e ;; retry_loop cfg r rest
                else bail_out cfg r a e) t.
Proof.
  simpl. unfold try_catch.
  destruct (attempt r a t) as [[e|v] t1]; [|reflexivity].
  destruct (a <? retry_count cfg - 1); [|reflexivity].
  unfold go_on, bind, log, emit.
  match goal with |- context [sleep ?d ?t2] =>
    destruct (sleep d t2) as [[e'|[]] t3] end; [reflexivity|].
  match goal with |- context [r_drop r ?t2] =>
    destruct (r_drop r t2) as [[e'|[]] t4] end; reflexivity.
Qed.

Lemma attempt_trace (a : Z) (t : tool W) :
  sleeps (trace (snd (attempt r a t))) = sleeps (trace t) /\
  attempts (trace (snd (attempt r a t))) = attempts (trace t) ++ [a].
Proof.
  unfold attempt, bind, emit.
  match goal with |- context [r_body r ?t1] =>
    destruct (wb_quiet r Hwb t1) as [H1 H2]; destruct (r_body r t1) as [[e|v] t2]
  end; simpl in *; rewrite H1, H2, sleeps_app, attempts_app; simpl;
    now rewrite app_nil_r.
Qed.

Lemma go_on_run (a : Z) (e : exn) (t : tool W) :
  exists t', go_on cfg r a e t = (inr tt, t') /\
    sleeps (trace t') = sleeps (trace t) ++ [retry_delay cfg] /\
    attempts (trace t') = attempts (trace t).
Proof.
  unfold go_on, bind, log, emit.
  match goal with |- context [sleep ?d ?t0] =>
    destruct (sleep_run d t0 Hdelay) as (w' & Es); rewrite Es
  end.
  match goal with |- context [r_drop r ?t1] =>
    destruct (wb_drop r Hwb t1) as (t' & E & Htr)
  end.
  exists t'. rewrite E, Htr. simpl.
  rewrite !sleeps_app, !attempts_app; simpl.
  rewrite !app_nil_r. auto.
Qed.

Lemma bail_out_run (a : Z) (e : exn) (t : tool W) :
  exists f t', bail_out cfg r a e t = (inr (PyDict f), t') /\
    success f = false /\ error f = Some (exn_str e) /\
    sleeps (trace t') = sleeps (trace t) /\
    attempts (trace t') = attempts (trace t).
Proof.
  unfold bail_out, bind, log, emit.
  match goal with |- context [r_failure r ?x ?t1] =>
    destruct (wb_failure r Hwb x t1) as (f & t' & E & Hs & He & Htr)
  end.
  exists f, t'. rewrite E, Htr. simpl.
  rewrite sleeps_app, attempts_app; simpl. rewrite !app_nil_r. auto.
Qed.

(** Every attempt from [a] to the last one fails. *)
Lemma loop_all_fail (m : nat) : forall (a : Z) (t : tool W),
  a + Z.of_nat (S m) = retry_count cfg ->
  (forall j, (j <= m)%nat ->
     is_raise (fst (attempt r (a + Z.of_nat j) (retried_from cfg r j a t))) = true) ->
  exists e t1 f t',
    attempt r (retry_count cfg - 1) (retried_from cfg r m a t) = (inl e, t1) /\
    retry_loop cfg r (range_from a (S m)) t = (inr (PyDict f), t') /\
    success f = false /\ error f = Some (exn_str e) /\
    attempts (trace t') = attempts (trace t) ++ range_from a (S m) /\
    sleeps (trace t') = sleeps (trace t) ++ repeat (retry_delay cfg) m.
Proof.
  induction m as [|m IH]; intros a t Ha Hfail.
  - pose proof (Hfail O (Nat.le_refl _)) as H0. simpl in H0.
    replace (a + 0) with a in H0 by lia.
    replace (retry_count cfg - 1) with a by lia.
    destruct (attempt_trace a t) as [Hs Hat].
    rewrite range_from_S, retry_loop_cons.
    unfold try_catch.
    destruct (attempt r a t) as [[e|v] t1] eqn:E; [|discriminate].
    simpl in Hs, Hat.
    destruct (Z.ltb_spec a (retry_count cfg - 1)); [lia|].
    destruct (bail_out_run a e t1) as (f & t' & G & Hsf & Hef & Hs' & Hat').
    exists e, t1, f, t'. rewrite G. repeat split; auto.
    + rewrite Hat'. exact Hat.
    + rewrite Hs', Hs, app_nil_r. reflexivity.
  - pose proof (Hfail O (Nat.le_0_l _)) as H0. simpl in H0.
    replace (a + 0) with a in H0 by lia.
    destruct (attempt_trace a t) as [Hs Hat].
    rewrite range_from_S, retry_loop_cons. unfold try_catch.
    simpl retried_from.
    destruct (attempt r a t) as [[e|v] t1] eqn:E; [|discriminate].
    simpl in Hs, Hat.
    destruct (Z.ltb_spec a (retry_count cfg - 1)); [|lia].
    destruct (go_on_run a e t1) as (t2 & G & Hs2 & Hat2).
    unfold bind at 1. rewrite G. simpl snd.
    destruct (IH (a + 1) t2) as (e' & t3 & f & t' & A1 & A2 & A3 & A4 & A5 & A6).
    + lia.
    + intros j Hj. specialize (Hfail (S j) (proj1 (Nat.succ_le_mono _ _) Hj)).
      simpl retried_from in Hfail. rewrite E, G in Hfail. simpl snd in Hfail.
      replace (a + 1 + Z.of_nat j) with (a + Z.of_nat (S j)) by lia. exact Hfail.
    + exists e', t3, f, t'. repeat split; auto.
      * rewrite A5, Hat2, Hat, <- app_assoc. reflexivity.
      * rewrite A6, Hs2, Hs, <- app_assoc. reflexivity.
Qed.

(** Attempt [a + k] is the first to return. *)
Lemma loop_first_success (k : nat) : forall (a : Z) (t : tool W) (m : nat) v t1,
  (k < m)%nat ->
  a + Z.of_nat m = retry_count cfg ->
  (forall j, (j < k)%nat ->
     is_raise (fst (attempt r (a + Z.of_nat j) (retried_from cfg r j a t))) = true) ->
  attempt r (a + Z.of_nat k) (retried_from cfg r k a t) = (inr v, t1) ->
  retry_loop cfg r (range_from a m) t = (inr v, t1) /\
  attempts (trace t1) = attempts (trace t) ++ range_from a (S k) /\
  sleeps (trace t1) = sleeps (trace t) ++ repeat (retry_delay cfg) k.
Proof.
  induction k as [|k IH]; intros a t m v t1 Hk Ha Hfail Hok.
  - destruct m as [|m]; [lia|]. simpl in Hok.
    replace (a + 0) with a in Hok by lia.
    destruct (attempt_trace a t) as [Hs Hat]. rewrite Hok in Hs, Hat.
    simpl in Hs, Hat.
    rewrite range_from_S, retry_loop_cons. unfold try_catch. rewrite Hok.
    split; [reflexivity|]. split; [rewrite range_from_S; exact Hat|].
    rewrite Hs, app_nil_r. reflexivity.
  - destruct m as [|m]; [lia|].
    pose proof (Hfail O (Nat.lt_0_succ _)) as H0. simpl in H0.
    replace (a + 0) with a in H0 by lia.
    destruct (attempt_trace a t) as [Hs Hat].
    rewrite range_from_S, retry_loop_cons. unfold try_catch.
    simpl retried_from in Hok.
    destruct (attempt r a t) as [[e|v'] t2] eqn:E; [|discriminate].
    simpl in Hs, Hat.
    destruct (Z.ltb_spec a (retry_count cfg - 1)); [|lia].
    destruct (go_on_run a e t2) as (t3 & G & Hs3 & Hat3).
    unfold bind at 1. rewrite G. rewrite G in Hok. simpl snd in Hok.
    destruct (IH (a + 1) t3 m v t1) as (B1 & B2 & B3).
    + lia.
    + lia.
    + intros j Hj. specialize (Hfail (S j) (proj1 (Nat.succ_lt_mono _ _) Hj)).
      simpl retried_from in Hfail. rewrite E, G in Hfail. simpl snd in Hfail.
      replace (a + 1 + Z.of_nat j) with (a + Z.of_nat (S j)) by lia. exact Hfail.
    + replace (a + 1 + Z.of_nat k) with (a + Z.of_nat (S k)) by lia. exact Hok.
    + repeat split; auto.
      * rewrite B2, Hat3, Hat, <- app_assoc. rewrite (range_from_S a (S k)).
        reflexivity.
      * rewrite B3, Hs3, Hs, <- app_assoc. reflexivity.
Qed.

(** The loop over [range(retry_count)] keeps the contract when at least
    one attempt is configured. *)
Lemma retry_loop_contract :
  1 <= retry_count cfg ->
  retry_contract cfg r (retry_loop cfg r (py_range (retry_count cfg))).
Proof.
  intros Hrc t. rewrite py_range_from.
  destruct (Z.to_nat (retry_count cfg)) as [|n] eqn:En; [lia|].
  split.
  - intros Hfail.
    destruct (loop_all_fail n 0 t) as (e & t1 & f & t' & A1 & A2 & A3 & A4 & A5 & A6).
    + lia.
    + intros j Hj. apply (Hfail j). lia.
    + exists e, t1, f. rewrite A2. simpl fst. simpl snd.
      replace (S n - 1)%nat with n by lia.
      repeat split; auto.
  - intros k v t1 Hk Hfail Hok.
    destruct (loop_first_success k 0 t (S n) v t1) as (B1 & B2 & B3); auto.
    + lia.
    + repeat split; auto.
      * eapply wb_returns; eauto.
        unfold attempt, bind, emit in Hok.
        match type of Hok with context [r_body r ?t0] =>
          destruct (r_body r t0) as [[e|v0] t2] eqn:E end;
          inversion Hok; subst. exact E.
      * rewrite B2. f_equal. rewrite py_range_from.
        replace (Z.to_nat (Z.of_nat k + 1)) with (S k) by lia. reflexivity.
Qed.

End Loop.
End Retry.

(* ================================================================== *)
(** ** The three operations retry as one loop *)

Section Operations.
Context {W : Type} {lib : MailLib W}.

Lemma retry_contract_ext (cfg : config) (r : @retried W) (run run' : M W pyvalue) :
  (forall t, run t = run' t) ->
  retry_contract cfg r run' -> retry_contract cfg r run.
Proof.
  intros Heq H t. rewrite Heq. exact (H t).
Qed.

(** A recipient that passes line 287 reaches the loop. *)
Lemma mail_send_accepted (cfg : config) (to subject body : str) (t : tool W) :
  recipient_rejected to = inr false ->
  mail_send cfg to subject body t
  = retry_loop cfg (send_retried cfg to subject body)
      (py_range (retry_count cfg)) t.
Proof.
  intros H. unfold mail_send, bind, lift. rewrite H. reflexivity.
Qed.

(** C1.  With at least one attempt configured and a delay [time.sleep]
    takes (the call returns; it raises for a negative delay and for one
    too large, and the exception then leaves the operation), each of [mail_read], [mail_send] (for a recipient that
    passes validation) and [mail_get] keeps [retry_contract]: when every attempt fails, the call returns a
    failure dict whose error is the string of the last attempt's
    exception, having begun exactly the attempts [0 .. retry_count - 1]
    and slept exactly [retry_count - 1] times, each for [retry_delay];
    when the protocol layer fails the first [k] attempts and attempt [k]
    returns (in particular for [k = retry_count - 1]), the call returns
    that success dict in the state that attempt left, having begun
    exactly [k + 1] attempts and slept exactly [k] times. *)
Theorem operations_retry_contract (cfg : config) :
  1 <= retry_count cfg ->
  sleep_returns (retry_delay cfg) ->
  (forall folder limit,
     retry_contract cfg (read_retried cfg folder limit)
       (mail_read cfg folder limit)) /\
  (forall to subject body,
     recipient_rejected to = inr false ->
     retry_contract cfg (send_retried cfg to subject body)
       (mail_send cfg to subject body)) /\
  (forall email_id,
     retry_contract cfg (get_retried cfg email_id) (mail_get cfg email_id)).
Proof.
  intros Hrc Hdelay. split; [|split].
  - intros folder limit.
    apply retry_loop_contract; auto using read_well_behaved.
  - intros to subject body Hto.
    eapply retry_contract_ext.
    + intros t0. apply mail_send_accepted; assumption.
    + apply retry_loop_contract; auto using send_well_behaved.
  - intros email_id.
    apply retry_loop_contract; auto using get_well_behaved.
Qed.

End Operations.

(** On the scripted server with three attempts configured: a server that
    refuses two connections lets [mail_get] succeed on the third attempt
    after two sleeps of two seconds; one that refuses every connection
    makes [mail_read] fail with the last NETWORK_ERROR after three
    attempts and two sleeps. *)
Lemma operations_retry_contract_witness :
  1 <= retry_count (example_config 3) /\
  sleep_returns (retry_delay (example_config 3)) /\
  (exists d t1,
     mail_get (example_config 3) (lit "1") (fresh (server_with 2 three_messages))
     = (inr (PyDict (Get_ok d)), t1) /\
     attempts (trace t1) = [0; 1; 2] /\ sleeps (trace t1) = [2; 2]) /\
  (exists f,
     fst (mail_read (example_config 3) (lit "INBOX") 10
            (fresh (server_with 5 three_messages))) = inr (PyDict f) /\
     error f = Some (lit "NETWORK_ERROR: [Errno 111] Connection refused") /\
     attempts (trace (snd (mail_read (example_config 3) (lit "INBOX") 10
                             (fresh (server_with 5 three_messages)))))
     = [0; 1; 2] /\
     sleeps (trace (snd (mail_read (example_config 3) (lit "INBOX") 10
                           (fresh (server_with 5 three_messages)))))
     = [2; 2]).
Proof.
  assert (Hrc : 1 <= retry_count (example_config 3)) by (vm_compute; discriminate).
  assert (Hdelay : sleep_returns (retry_delay (example_config 3)))
    by (intros w; eexists; reflexivity).
  split; [exact Hrc|]. split; [exact Hdelay|].
  destruct (operations_retry_contract (example_config 3) Hrc Hdelay)
    as (Hread & _ & Hget).
  split.
  - destruct (Hget (lit "1") (fresh (server_with 2 three_messages))) as [_ Hok].
    edestruct (Hok 2%nat) as (E & _ & Ha & Hs).
    + vm_compute; lia.
    + intros j Hj. destruct j as [|[|j]]; [reflexivity|reflexivity|lia].
    + lazy. reflexivity.
    + do 2 eexists. split; [exact E|]. split; [exact Ha|exact Hs].
  - destruct (Hread (lit "INBOX") 10 (fresh (server_with 5 three_messages)))
      as [Hfail _].
    destruct Hfail as (e & t1 & f & Ea & Ef & _ & He & Ha & Hs).
    + intros j Hj. change (Z.to_nat (retry_count (example_config 3))) with 3%nat in Hj.
      destruct j as [|[|[|j]]]; [reflexivity|reflexivity|reflexivity|lia].
    + exists f. split; [exact Ef|]. split; [|split; [exact Ha|exact Hs]].
      rewrite He. vm_compute in Ea. inversion Ea. reflexivity.
Defined.

(* ================================================================== *)
(** ** Recipient validation *)


Lemma char_in_first_piece (c sep : Z) (s : str) :
  char_in c (hd [] (split_char sep s)) = true -> char_in c s = true.
Proof.
  induction s as [|x s IH]; simpl; [auto|].
  destruct (x =? sep); simpl; [discriminate|].
  destruct (split_char sep s) as [|w ws]; simpl in *.
  - rewrite orb_false_r. intros ->. reflexivity.
  - intros H. apply orb_true_iff in H as [H|H]; [now rewrite H|].
    rewrite (IH H). apply orb_true_r.
Qed.

Lemma split_char_pieces (sep : Z) (s : str) :
  exists w ws, split_char sep s = w :: ws.
Proof.
  induction s as [|x s (w & ws & IH)]; simpl; [eauto|].
  destruct (x =? sep); [eauto|]. rewrite IH. eauto.
Qed.

Lemma second_piece_of (sep : Z) (s : str) :
  char_in sep s = true ->
  py_index (split_char sep s) 1
  = inr (hd [] (split_char sep (text_after sep s))).
Proof.
  induction s as [|x s IH]; simpl; [discriminate|].
  rewrite (Z.eqb_sym sep x).
  destruct (split_char_pieces sep s) as (w & ws & Hs).
  destruct (x =? sep) eqn:E; simpl.
  - intros _. rewrite Hs. reflexivity.
  - intros H. specialize (IH H). rewrite Hs in *.
    destruct ws as [|w' ws]; [discriminate|exact IH].
Qed.

(** [to.split('@')[1]] exists when [to] has an '@', and is the start of
    the text after the first '@'. *)
Lemma second_piece (to : str) :
  char_in chr_at to = true ->
  py_index (split_char chr_at to) 1
  = inr (hd [] (split_char chr_at (text_after_at to))).
Proof. apply second_piece_of. Qed.

(** Line 287 never raises. *)
Lemma recipient_rejected_total (to : str) :
  exists b, recipient_rejected to = inr b.
Proof.
  unfold recipient_rejected.
  destruct (char_in chr_at to) eqn:E; simpl; [|eauto].
  rewrite (second_piece to E). eauto.
Qed.

Lemma recipient_rejected_invalid (to : str) :
  char_in chr_at to = false \/ char_in chr_dot (text_after_at to) = false ->
  recipient_rejected to = inr true.
Proof.
  intros H. unfold recipient_rejected.
  destruct (char_in chr_at to) eqn:E; simpl; [|reflexivity].
  destruct H as [H|H]; [discriminate|].
  rewrite (second_piece to E).
  destruct (char_in chr_dot (hd [] (split_char chr_at (text_after_at to)))) eqn:D;
    [|reflexivity].
  apply char_in_first_piece in D. congruence.
Qed.

Section Validation.
Context {W : Type} {lib : MailLib W}.

(** C6.  A recipient without an '@', or whose text after the '@' has no
    '.', makes [mail_send] return the INVALID_EMAIL_FORMAT failure at
    once and leaves the tool state as it was: no session is opened, no
    call reaches the SMTP client, no attempt is begun, nothing sleeps,
    whatever the configuration. *)
Theorem mail_send_rejects_invalid_recipient
    (cfg : config) (to subject body : str) (t : tool W) :
  char_in chr_at to = false \/ char_in chr_dot (text_after_at to) = false ->
  mail_send cfg to subject body t
  = (inr (PyDict (Send_invalid invalid_email_format)), t).
Proof.
  intros H. unfold mail_send, bind, lift.
  rewrite (recipient_rejected_invalid to H). reflexivity.
Qed.

(** The loop over no attempts: the body of the method runs off its end. *)
Lemma retry_loop_no_attempts (cfg : config) (r : @retried W) (t : tool W) :
  retry_count cfg <= 0 ->
  retry_loop cfg r (py_range (retry_count cfg)) t = (inr PyNone, t).
Proof.
  intros H. unfold py_range.
  replace (Z.to_nat (retry_count cfg)) with O by lia. reflexivity.
Qed.

(** With at least one attempt configured and a delay [time.sleep] takes,
    the loop returns a dict. *)
Lemma retry_loop_returns_dict (cfg : config) (r : @retried W) :
  well_behaved r ->
  sleep_returns (retry_delay cfg) ->
  forall (m : nat) (a : Z) (t : tool W),
    a + Z.of_nat (S m) = retry_count cfg ->
    exists f t', retry_loop cfg r (range_from a (S m)) t = (inr (PyDict f), t').
Proof.
  intros Hwb Hdelay. induction m as [|m IH]; intros a t Ha;
    rewrite range_from_S, (retry_loop_cons cfg r); unfold try_catch;
    destruct (attempt r a t) as [[e|v] t1] eqn:E.
  - destruct (Z.ltb_spec a (retry_count cfg - 1)); [lia|].
    destruct (bail_out_run cfg r Hwb a e t1) as (f & t' & G & _). eauto.
  - unfold attempt, bind, emit in E.
    match type of E with context [r_body r ?t0] =>
      destruct (r_body r t0) as [[e|v0] t2] eqn:E' end; inversion E; subst.
    destruct (wb_returns r Hwb _ _ _ E') as (f & -> & _). eauto.
  - destruct (Z.ltb_spec a (retry_count cfg - 1)); [|lia].
    destruct (go_on_run cfg r Hwb Hdelay a e t1) as (t2 & G & _).
    unfold bind at 1. rewrite G. apply IH. lia.
  - unfold attempt, bind, emit in E.
    match type of E with context [r_body r ?t0] =>
      destruct (r_body r t0) as [[e|v0] t2] eqn:E' end; inversion E; subst.
    destruct (wb_returns r Hwb _ _ _ E') as (f & -> & _). eauto.
Qed.

(** With at least one attempt configured and a delay [time.sleep] takes,
    each operation returns a dict and raises nothing. *)
Lemma operations_return_dict (cfg : config) (t : tool W) :
  1 <= retry_count cfg ->
  sleep_returns (retry_delay cfg) ->
  (forall folder limit, exists f t',
      mail_read cfg folder limit t = (inr (PyDict f), t')) /\
  (forall to subject body, exists f t',
      mail_send cfg to subject body t = (inr (PyDict f), t')) /\
  (forall email_id, exists f t',
      mail_get cfg email_id t = (inr (PyDict f), t')).
Proof.
  intros Hrc Hdelay.
  assert (Hn : exists m, Z.to_nat (retry_count cfg) = S m)
    by (exists (Z.to_nat (retry_count cfg) - 1)%nat; lia).
  destruct Hn as [m Hm].
  split; [|split].
  - intros folder limit. unfold mail_read. rewrite py_range_from, Hm.
    apply retry_loop_returns_dict; [apply read_well_behaved|assumption|lia].
  - intros to subject body. unfold mail_send, bind, lift.
    destruct (recipient_rejected_total to) as [[|] ->].
    + do 2 eexists. reflexivity.
    + rewrite py_range_from, Hm.
      apply retry_loop_returns_dict; [apply send_well_behaved|assumption|lia].
  - intros email_id. unfold mail_get. rewrite py_range_from, Hm.
    apply retry_loop_returns_dict; [apply get_well_behaved|assumption|lia].
Qed.

(** A [retry_delay] that [time.sleep] refuses (a negative one, one too
    large) makes it raise inside the [except] block, and the exception
    leaves the operation. *)
Lemma refused_delay_escapes (cfg : config) (r : @retried W) (a : Z)
    (rest : list Z) (t : tool W) :
  (forall w, is_raise (fst (time_sleep (retry_delay cfg) w)) = true) ->
  a < retry_count cfg - 1 ->
  is_raise (fst (attempt r a t)) = true ->
  is_raise (fst (retry_loop cfg r (a :: rest) t)) = true.
Proof.
  intros Hd Ha Hf. simpl. unfold try_catch.
  destruct (attempt r a t) as [[e|v] t1]; [|discriminate].
  destruct (Z.ltb_spec a (retry_count cfg - 1)); [|lia].
  unfold bind, log, emit, sleep. simpl.
  match goal with |- context [time_sleep ?d ?w] =>
    specialize (Hd w); destruct (time_sleep d w) as [[e'|[]] w'] end;
    [reflexivity|discriminate].
Qed.

(** C7, at [retry_count = 0].  The loop of each operation then has no
    iteration, the method body ends without a [return], and the call
    evaluates to [None]: not a dict with a ["success"] key.  The state is
    untouched. *)
Theorem operations_return_none_without_attempts
    (t : tool W) (folder email_id subject body : str) (limit : Z) :
  mail_read (example_config 0) folder limit t = (inr PyNone, t) /\
  mail_send (example_config 0) (lit "a@b.c") subject body t = (inr PyNone, t) /\
  mail_get (example_config 0) email_id t = (inr PyNone, t).
Proof. repeat split. Qed.

(** C10.  When [decode_header] finds no encoded word in [s] it returns
    the one pair [(s, None)], with [s] as text; [decode_mime_words] then
    returns [s] itself, logs nothing and changes nothing. *)
Theorem decode_mime_words_plain (s : str) (t : tool W) :
  decode_header s = inr [(F_str s, None)] ->
  decode_mime_words s t = (inr s, t).
Proof.
  intros H. unfold decode_mime_words, try_catch, bind, lift.
  rewrite H. reflexivity.
Qed.

(** Text fragments are passed through and joined in order. *)
Lemma decode_fragments_text (parts : list str) (acc : str) :
  decode_fragments (map (fun p => (F_str p, @None str)) parts) acc
  = inr (acc ++ concat parts).
Proof.
  revert acc; induction parts as [|p parts IH]; intros acc; simpl.
  - now rewrite app_nil_r.
  - rewrite IH, app_assoc. reflexivity.
Qed.

End Validation.

(** Three attempts and ["retry_delay": 10**20]. *)
Definition unsleepable_config : config :=
  {| cfg_email := lit "me@example.com"; cfg_password := lit "secret";
     cfg_imap_server := lit "imap.example.com";
     cfg_smtp_server := lit "smtp.example.com";
     cfg_imap_port := None; cfg_smtp_port := None;
     cfg_retry_count := Some 3; cfg_retry_delay := Some (10 ^ 20) |}.

(** With that delay, on a server that refuses every connection, the
    first [time.sleep] raises OverflowError inside the [except] block and
    [mail_read] raises it: one attempt, no sleep, no failure dict. *)
Example refused_delay_leaves_mail_read :
  fst (mail_read unsleepable_config (lit "INBOX") 10
         (fresh (server_with 5 three_messages)))
  = inl (Exception (lit "timestamp too large to convert to C _PyTime_t")) /\
  attempts (trace (snd (mail_read unsleepable_config (lit "INBOX") 10
                          (fresh (server_with 5 three_messages))))) = [0] /\
  sleeps (trace (snd (mail_read unsleepable_config (lit "INBOX") 10
                        (fresh (server_with 5 three_messages))))) = [].
Proof. repeat split. Qed.

(** ["not-an-email"] has no '@': nothing is sent and nothing is tried. *)
Lemma mail_send_rejects_invalid_recipient_witness :
  (char_in chr_at (lit "not-an-email") = false \/
   char_in chr_dot (text_after_at (lit "not-an-email")) = false) /\
  mail_send (example_config 3) (lit "not-an-email") (lit "hi") (lit "there")
    (fresh (server_with 0 []))
  = (inr (PyDict (Send_invalid invalid_email_format)), fresh (server_with 0 [])).
Proof.
  split.
  - left. reflexivity.
  - apply mail_send_rejects_invalid_recipient. left. reflexivity.
Defined.

(** The header ["Hello"] on the scripted library. *)
Lemma decode_mime_words_plain_witness :
  decode_header (lit "Hello") = inr [(F_str (lit "Hello"), None)] /\
  decode_mime_words (lit "Hello") (fresh (server_with 0 []))
  = (inr (lit "Hello"), fresh (server_with 0 [])).
Proof.
  split.
  - reflexivity.
  - apply decode_mime_words_plain. reflexivity.
Defined.

(* ================================================================== *)
(** ** Body extraction *)

Lemma str_or_nonempty (x d : str) : d <> [] -> str_or x d <> [].
Proof. destruct x; simpl; [auto|discriminate]. Qed.

Lemma str_or_keeps (x d : str) : x <> [] -> str_or x d = x.
Proof. destruct x; simpl; [congruence|reflexivity]. Qed.

Lemma len_clean (body : str) : len (clean body) = len (strip body).
Proof. unfold clean, replace_char, len. now rewrite !length_map. Qed.

Lemma summarize_long (body : str) :
  200 < len (clean body) ->
  summarize 200 body = slice_to 200 (clean body) ++ ellipsis.
Proof.
  intros H. unfold summarize.
  destruct (Z.ltb_spec 200 (len (clean body))); [|lia].
  apply str_or_keeps. destruct (slice_to 200 (clean body)); discriminate.
Qed.

Lemma summarize_short (body : str) :
  len (clean body) <= 200 ->
  summarize 200 body = str_or (clean body) no_body_content.
Proof.
  intros H. unfold summarize.
  destruct (Z.ltb_spec 200 (len (clean body))); [lia|reflexivity].
Qed.

Lemma summarize_nonempty (body : str) : summarize 200 body <> [].
Proof.
  unfold summarize. apply str_or_nonempty. discriminate.
Qed.

(** A walk that meets no text/plain part leaves [body] as it was: the
    summary loop has no branch for any other content type. *)
Lemma summary_walk_without_plain (parts : list mime) (body : str) :
  forallb (fun p => negb (str_eqb (get_content_type p) text_plain)) parts = true ->
  summary_walk parts body = inr body.
Proof.
  induction parts as [|p parts IH]; simpl; [reflexivity|].
  intros H. apply andb_true_iff in H as [H1 H2].
  apply negb_true_iff in H1. rewrite H1. auto.
Qed.

(** Where both loops return and the summary loop found a text/plain
    part, the full-body loop returns the same text. *)
Lemma walks_agree (parts : list mime) :
  forall body acc full acc',
    summary_walk parts acc = inr body ->
    full_walk parts acc' = inr full ->
    body = acc \/ full = body.
Proof.
  induction parts as [|p parts IH]; intros body acc full acc'; simpl.
  - intros H _. left. congruence.
  - destruct (str_eqb (get_content_type p) text_plain).
    + intros H1 H2. right. congruence.
    + destruct (str_eqb (get_content_type p) text_html
                && match acc' with [] => true | _ => false end).
      * destruct (decode_payload p) as [e|html]; [discriminate|]. apply IH.
      * apply IH.
Qed.

Lemma raws_agree (m : email_message) (body full : str) :
  summary_raw m = inr body -> full_raw m = inr full ->
  body = [] \/ full = body.
Proof.
  unfold summary_raw, full_raw.
  destruct (is_multipart (content m)).
  - apply walks_agree.
  - intros H1 H2. right. congruence.
Qed.

Section Extraction.
Context {W : Type} {lib : MailLib W}.


Lemma extract_body_summary_run (m : email_message) (t : tool W) :
  extract_body_summary m 200 t
  = match summary_raw m with
    | inr body => (inr (summarize 200 body), t)
    | inl e => (inr body_parse_failed, logged t WARNING (L_summary_failed (exn_str e)))
    end.
Proof.
  unfold extract_body_summary, try_catch, lift, summary_try.
  destruct (summary_raw m); reflexivity.
Qed.

Lemma extract_full_body_run (m : email_message) (t : tool W) :
  extract_full_body m t
  = match full_raw m with
    | inr body => (inr (str_or (strip body) no_body_content), t)
    | inl e => (inr body_parse_failed, logged t WARNING (L_full_body_failed (exn_str e)))
    end.
Proof.
  unfold extract_full_body, try_catch, lift, full_try.
  destruct (full_raw m); reflexivity.
Qed.

(** C9.  Both extractors return a string and never raise, and the string
    is never empty.  When the text they extracted is empty once cleaned
    (summary) or stripped (full body), they return the "no content"
    literal; when decoding raises [e], they log one warning carrying
    [str(e)] and return the "body parse failed" literal. *)
Theorem body_extraction_total (m : email_message) (t : tool W) :
  (forall body, summary_raw m = inr body -> clean body = [] ->
     extract_body_summary m 200 t = (inr no_body_content, t)) /\
  (forall e, summary_raw m = inl e ->
     extract_body_summary m 200 t
     = (inr body_parse_failed, logged t WARNING (L_summary_failed (exn_str e)))) /\
  (exists x, fst (extract_body_summary m 200 t) = inr x /\ x <> []) /\
  (forall body, full_raw m = inr body -> strip body = [] ->
     extract_full_body m t = (inr no_body_content, t)) /\
  (forall e, full_raw m = inl e ->
     extract_full_body m t
     = (inr body_parse_failed, logged t WARNING (L_full_body_failed (exn_str e)))) /\
  (exists x, fst (extract_full_body m t) = inr x /\ x <> []).
Proof.
  rewrite extract_body_summary_run, extract_full_body_run.
  repeat split.
  - intros body -> Hc. rewrite summarize_short by (rewrite Hc; vm_compute; discriminate).
    rewrite Hc. reflexivity.
  - intros e ->. reflexivity.
  - destruct (summary_raw m) as [e|body]; simpl; eexists; split;
      try reflexivity; [discriminate|apply summarize_nonempty].
  - intros body -> Hs. rewrite Hs. reflexivity.
  - intros e ->. reflexivity.
  - destruct (full_raw m) as [e|body]; simpl; eexists; split;
      try reflexivity; [discriminate|apply str_or_nonempty; discriminate].
Qed.

(** X30.  For a message whose summary text is longer than 200
    characters once cleaned, the summary is its first 200 characters
    followed by "..."; the full-body path, where its own walk does not
    raise, returns that same text stripped and as long as it was.  A
    text of 200 characters or fewer is returned by the summary path as
    it is, the empty one as the "no content" literal. *)
Theorem summary_truncates_full_body_does_not
    (m : email_message) (body : str) (t : tool W) :
  summary_raw m = inr body ->
  (200 < len (clean body) ->
     fst (extract_body_summary m 200 t) = inr (slice_to 200 (clean body) ++ ellipsis) /\
     len (slice_to 200 (clean body)) = 200 /\
     (is_raise (full_raw m) = false ->
        fst (extract_full_body m t) = inr (strip body) /\
        len (strip body) = len (clean body))) /\
  (len (clean body) <= 200 ->
     fst (extract_body_summary m 200 t) = inr (str_or (clean body) no_body_content)).
Proof.
  intros Hraw. rewrite extract_body_summary_run, extract_full_body_run, Hraw.
  split.
  - intros Hlong. split; [|split].
    + simpl. now rewrite summarize_long.
    + apply slice_to_length. lia.
    + intros Hfull. destruct (full_raw m) as [e|full] eqn:Ef; [discriminate|].
      destruct (raws_agree m body full Hraw Ef) as [->| ->].
      * vm_compute in Hlong. discriminate.
      * simpl. split; [|now rewrite len_clean].
        rewrite str_or_keeps; [reflexivity|].
        intros Hempty. rewrite len_clean, Hempty in Hlong.
        vm_compute in Hlong. discriminate.
  - intros Hshort. simpl. now rewrite summarize_short.
Qed.

(** C4, on a multipart message whose only part is text/html.  The
    summary loop has no text/html branch: it leaves [body] empty and the
    summary is the "no content" literal, while the full-body loop, which
    has the branch, returns the payload without its tags. *)
Theorem summary_of_html_only_is_placeholder (t : tool W) :
  fst (extract_body_summary html_only_message 200 t) = inr no_body_content /\
  fst (extract_full_body html_only_message t) = inr (lit "Hello world").
Proof. split; reflexivity. Qed.

(** The same for every multipart message without a text/plain part. *)
Lemma summary_without_plain_part (m : email_message) (t : tool W) :
  is_multipart (content m) = true ->
  forallb (fun p => negb (str_eqb (get_content_type p) text_plain))
    (walk (content m)) = true ->
  extract_body_summary m 200 t = (inr no_body_content, t).
Proof.
  intros Hm Hp. rewrite extract_body_summary_run.
  unfold summary_raw. rewrite Hm, summary_walk_without_plain by assumption.
  reflexivity.
Qed.

End Extraction.


(** A body of two spaces, and a body in a charset Python does not know. *)
Lemma body_extraction_total_witness :
  (summary_raw empty_message = inr (lit "  ") /\ clean (lit "  ") = [] /\
   extract_body_summary empty_message 200 (fresh (server_with 0 []))
   = (inr no_body_content, fresh (server_with 0 []))) /\
  (full_raw unreadable_message = inl (Exception (lit "unknown encoding: x-user")) /\
   fst (extract_full_body unreadable_message (fresh (server_with 0 [])))
   = inr body_parse_failed).
Proof.
  split.
  - split; [reflexivity|]. split; [reflexivity|].
    apply (body_extraction_total empty_message (fresh (server_with 0 [])))
      with (body := lit "  "); reflexivity.
  - split; [reflexivity|].
    destruct (body_extraction_total unreadable_message (fresh (server_with 0 [])))
      as (_ & _ & _ & _ & H & _).
    rewrite (H _ eq_refl). reflexivity.
Defined.

(** C8, on a multipart message with a text/html part that cannot be
    decoded before a text/plain part of 201 characters.  The full-body
    loop decodes the text/html part on its way, although the text it
    would take from it is dropped as soon as the text/plain part is
    found (line 406: HTML is for a message without plain text); the
    summary loop does not look at it.  So the summary is the first 200
    characters and "...", while the full body of the same message is the
    "body parse failed" literal and not the untruncated text. *)
Lemma full_body_of_long_message_is_placeholder :
  summary_raw html_unreadable_message = inr long_text /\
  200 < len (clean long_text) /\
  fst (extract_body_summary html_unreadable_message 200 (fresh (server_with 0 [])))
  = inr (slice_to 200 (clean long_text) ++ ellipsis) /\
  fst (extract_full_body html_unreadable_message (fresh (server_with 0 [])))
  = inr body_parse_failed /\
  fst (extract_full_body html_unreadable_message (fresh (server_with 0 [])))
  <> inr (strip long_text).
Proof.
  split; [reflexivity|]. split; [reflexivity|]. split; [reflexivity|].
  split; [reflexivity|]. vm_compute. discriminate.
Qed.

(** A plain message of 201 characters: truncated in the summary, whole
    in the full body. *)
Lemma summary_truncates_full_body_does_not_witness :
  summary_raw (plain_message (lit "hi") long_text) = inr long_text /\
  200 < len (clean long_text) /\
  fst (extract_body_summary (plain_message (lit "hi") long_text) 200
         (fresh (server_with 0 [])))
  = inr (repeat 97 200 ++ ellipsis) /\
  fst (extract_full_body (plain_message (lit "hi") long_text)
         (fresh (server_with 0 [])))
  = inr long_text.
Proof.
  split; [reflexivity|]. split; [reflexivity|].
  destruct (summary_truncates_full_body_does_not
              (plain_message (lit "hi") long_text) long_text
              (fresh (server_with 0 [])) eq_refl) as [Hlong _].
  destruct (Hlong eq_refl) as (Hs & _ & Hf).
  split.
  - rewrite Hs. reflexivity.
  - destruct (Hf eq_refl) as [Hf' _]. rewrite Hf'. reflexivity.
Defined.

(* ================================================================== *)
(** ** Which messages [mail_read] lists *)

Lemma latest_ids_positive (ids : list bytes) (limit : Z) :
  1 <= limit ->
  latest_ids ids limit = rev (skipn (length ids - Z.to_nat limit) ids) /\
  len (latest_ids ids limit) = Z.min limit (len ids).
Proof.
  intros H. unfold latest_ids, slice_from, len.
  destruct (Z.leb_spec limit (Z.of_nat (length ids))) as [Hle|Hgt].
  - destruct (Z.leb_spec 0 (- limit)); [lia|].
    replace (Z.to_nat (- - limit)) with (Z.to_nat limit) by lia.
    split; [reflexivity|]. rewrite length_rev, length_skipn. lia.
  - replace (length ids - Z.to_nat limit)%nat with O by lia.
    split; [reflexivity|]. rewrite length_rev. lia.
Qed.

(** [message_ids[-0:]] is the whole list. *)
Lemma latest_ids_zero (ids : list bytes) : latest_ids ids 0 = rev ids.
Proof.
  unfold latest_ids, slice_from, len. simpl.
  destruct (0 <=? Z.of_nat (length ids)); reflexivity.
Qed.

(** [message_ids[k:]] for [limit = -k]: the [k] oldest are left out. *)
Lemma latest_ids_negative (ids : list bytes) (limit : Z) :
  limit < 0 -> latest_ids ids limit = rev (skipn (Z.to_nat (- limit)) ids).
Proof.
  intros H. unfold latest_ids, slice_from, len.
  destruct (Z.leb_spec limit (Z.of_nat (length ids))); [|lia].
  destruct (Z.leb_spec 0 (- limit)); [reflexivity|lia].
Qed.

Section Listing.
Context {W : Type} {lib : MailLib W}.
Local Abbreviation returns := (@returns W _).

(** One message adds one summary or none, and never fails the loop. *)
Lemma read_one_run (msg_id : bytes) (emails : list summary) (t : tool W) :
  exists more t',
    read_one msg_id emails t = (inr (emails ++ more), t') /\
    (length more <= 1)%nat.
Proof.
  assert (Hskip : forall t0 : tool W, exists more t',
             (inr emails, t0) = (@inr exn _ (emails ++ more), t') /\
             (length more <= 1)%nat).
  { intros t0. exists [], t0. rewrite app_nil_r. split; [reflexivity|simpl; lia]. }
  unfold read_one, try_catch.
  match goal with |- context [bind ?m ?k t] => destruct (bind m k t) as [[e|res] t1] eqn:E end.
  - unfold bind, log, emit; simpl. apply Hskip.
  - revert E. unfold bind, the_imap_conn, get_imap_conn, bind.
    destruct (imap_conn t) as [c|]; simpl; [|discriminate].
    destruct (call P_fetch c (imap_fetch c msg_id) t) as [[e|[status parsed]] t2];
      [discriminate|].
    destruct (negb (str_eqb status (lit "OK"))).
    + unfold ret. intros E; inversion E; subst. apply Hskip.
    + unfold lift. destruct parsed as [e|msg]; [discriminate|].
      destruct (decode_mime_words _ t2) as [[e|subject] t3]; [discriminate|].
      destruct (decode_mime_words _ t3) as [[e|sender] t4]; [discriminate|].
      destruct (extract_body_summary msg 200 t4) as [[e|bs] t5]; [discriminate|].
      destruct (bytes_decode msg_id (lit "utf-8")) as [e|id]; [discriminate|].
      unfold ret. intros E; inversion E; subst.
      do 2 eexists. split; [reflexivity|simpl; lia].
Qed.

(** The loop over the identifiers adds at most one summary for each. *)
Lemma read_all_run (ids : list bytes) : forall (emails : list summary) (t : tool W),
  exists more t',
    read_all ids emails t = (inr (emails ++ more), t') /\
    (length more <= length ids)%nat.
Proof.
  induction ids as [|i ids IH]; intros emails t; simpl.
  - exists [], t. rewrite app_nil_r. split; [reflexivity|simpl; lia].
  - unfold bind.
    destruct (read_one_run i emails t) as (m1 & t1 & E1 & L1). rewrite E1.
    destruct (IH (emails ++ m1) t1) as (m2 & t2 & E2 & L2). rewrite E2.
    exists (m1 ++ m2), t2. rewrite app_assoc. split; [reflexivity|].
    rewrite length_app. simpl. lia.
Qed.

(** What the [try] block of [mail_read] returns: ["count"] is the number
    of summaries. *)
Lemma mail_read_body_count (cfg : config) (folder : str) (limit : Z) :
  returns (fun v => exists emails, v = PyDict (Read_ok emails (len emails)))
    (mail_read_body cfg folder limit).
Proof.
  unfold mail_read_body.
  repeat match goal with
  | |- returns _ (bind _ _) => apply returns_bind; intros
  | |- returns _ (ret _) => apply returns_ret
  | |- returns _ (raise _) => apply returns_raise
  | |- returns _ (if ?b then _ else _) => destruct b
  | |- returns _ (match ?x with _ => _ end) => destruct x
  end; first [exists []; reflexivity | eexists; reflexivity].
Qed.

(** The session slot after a failed attempt: dropped where the loop goes
    on, left as it was where the loop gives up. *)
Lemma go_on_drops_imap_session (cfg : config) (folder : str) (limit a : Z)
    (e : exn) (t : tool W) :
  sleep_returns (retry_delay cfg) ->
  imap_conn (snd (go_on cfg (read_retried cfg folder limit) a e t)) = None.
Proof.
  intros H. unfold go_on, bind, log, emit.
  match goal with |- context [sleep ?d ?t0] =>
    destruct (sleep_run d t0 H) as (w' & Es); rewrite Es
  end.
  reflexivity.
Qed.

Lemma bail_out_keeps_imap_session (cfg : config) (folder : str) (limit a : Z)
    (e : exn) (t : tool W) :
  imap_conn (snd (bail_out cfg (read_retried cfg folder limit) a e t))
  = imap_conn t.
Proof. reflexivity. Qed.

(* ------------------------------------------------------------------ *)
(** ** close_connections *)

(** [close_connections] never raises. *)
Lemma close_connections_total (t : tool W) :
  fst (close_connections t) = inr tt.
Proof.
  unfold close_connections, try_catch.
  match goal with |- context [bind ?m ?k t] =>
    destruct (bind m k t) as [[e|[]] t1] end; reflexivity.
Qed.

(** With no session open it leaves both slots empty. *)
Lemma close_connections_without_session (t : tool W) :
  imap_conn t = None -> smtp_conn t = None ->
  imap_conn (snd (close_connections t)) = None /\
  smtp_conn (snd (close_connections t)) = None.
Proof.
  intros Hi Hs.
  unfold close_connections, try_catch, bind, get_imap_conn, get_smtp_conn.
  rewrite Hi. simpl. rewrite Hs. simpl. auto.
Qed.

(** When CLOSE raises, the first statement of the [try] block to run is
    the last: both slots are as they were. *)
Lemma close_connections_when_close_raises (t : tool W) (c : conn) :
  imap_conn t = Some c ->
  is_raise (fst (imap_close c (world t))) = true ->
  imap_conn (snd (close_connections t)) = Some c /\
  smtp_conn (snd (close_connections t)) = smtp_conn t.
Proof.
  intros Hi Hc.
  unfold close_connections, try_catch, bind, get_imap_conn, call.
  rewrite Hi.
  destruct (imap_close c (world t)) as [[e|[]] w]; [|discriminate].
  simpl. auto.
Qed.

End Listing.


(** C5, at [limit = 0].  [message_ids[-0:]] is the whole list, so a read
    of a three-message INBOX with limit 0 returns all three summaries,
    newest first, with count 3: not the last [min(0, 3) = 0]. *)
Theorem mail_read_limit_zero_lists_all :
  exists emails,
    fst (mail_read (example_config 3) (lit "INBOX") 0
           (fresh (server_with 0 three_messages)))
    = inr (PyDict (Read_ok emails 3)) /\
    map s_id emails = [lit "3"; lit "2"; lit "1"].
Proof. eexists. split; reflexivity. Qed.

(** With a positive limit the same INBOX is listed as the specification has it. *)
Example mail_read_limit_two :
  exists emails,
    fst (mail_read (example_config 3) (lit "INBOX") 2
           (fresh (server_with 0 three_messages)))
    = inr (PyDict (Read_ok emails 2)) /\
    map s_id emails = [lit "3"; lit "2"].
Proof. eexists. split; reflexivity. Qed.


(** C3, after a read that failed with FOLDER_NOT_FOUND.  The server
    answers CLOSE with an error, [close_connections] logs it and returns,
    and both session slots still hold their sessions; neither LOGOUT nor
    QUIT was sent. *)
Theorem close_connections_leaves_sessions_when_close_fails :
  imap_conn after_failed_read = Some 3%nat /\
  smtp_conn after_failed_read = Some 0%nat /\
  fst (close_connections after_failed_read) = inr tt /\
  imap_conn (snd (close_connections after_failed_read)) = Some 3%nat /\
  smtp_conn (snd (close_connections after_failed_read)) = Some 0%nat /\
  calls (added (trace after_failed_read)
           (trace (snd (close_connections after_failed_read))))
  = [(P_close, Some 3%nat, true)].
Proof. repeat split. Qed.


(** C2, after a [mail_get] that returned EMAIL_NOT_FOUND.  The third and
    last attempt ran on session 2 and does not clear [self.imap_conn], so
    the session the failure happened on is still in the slot, and the
    next operation sends its SELECT, SEARCH and FETCH calls to it without
    a new connection. *)
Theorem failed_session_is_used_again :
  fst (mail_get (example_config 3) (lit "9") (fresh (server_with 0 three_messages)))
  = inr (PyDict (Get_failed (email_not_found (lit "9")))) /\
  skipn 8 (calls (trace after_failed_get))
  = [(P_IMAP4_SSL, Some 2%nat, false); (P_imap_login, Some 2%nat, false);
     (P_select, Some 2%nat, false); (P_fetch, Some 2%nat, false)] /\
  imap_conn after_failed_get = Some 2%nat /\
  calls (added (trace after_failed_get)
           (trace (snd (mail_read (example_config 3) (lit "INBOX") 1 after_failed_get))))
  = [(P_select, Some 2%nat, false); (P_search, Some 2%nat, false);
     (P_fetch, Some 2%nat, false)].
Proof. repeat split. Qed.


(* ================================================================== *)
(** ** Connecting *)

Section Connecting.
Context {W : Type} {lib : MailLib W}.

(** X1.  When [connect_imap] raises, what it raises is a plain
    [Exception] built from the error [cause] of the constructor or of
    [login]: tagged AUTHENTICATION_FAILED when [cause] is an IMAP error
    whose text, in lower case, has "authentication failed" in it,
    IMAP_CONNECTION_FAILED for the other IMAP errors and NETWORK_ERROR
    for every other exception; the text of [cause] follows the tag. *)
Theorem connect_imap_raises_classified
    (cfg : config) (t t' : tool W) (e : exn) :
  connect_imap cfg t = (inl e, t') ->
  exists cause,
    (fst (IMAP4_SSL (cfg_imap_server cfg) (config_get (cfg_imap_port cfg) 993)
            (world t)) = inl cause \/
     exists c w,
       IMAP4_SSL (cfg_imap_server cfg) (config_get (cfg_imap_port cfg) 993)
         (world t) = (inr c, w) /\
       fst (imap_login c (cfg_email cfg) (cfg_password cfg) w) = inl cause) /\
    exn_cls e = OtherException /\
    ((exn_cls cause = IMAP4_error /\
      str_contains (lit "authentication failed") (py_lower (exn_str cause)) = true /\
      exn_str e = lit "AUTHENTICATION_FAILED: " ++ exn_str cause) \/
     (exn_cls cause = IMAP4_error /\
      str_contains (lit "authentication failed") (py_lower (exn_str cause)) = false /\
      exn_str e = lit "IMAP_CONNECTION_FAILED: " ++ exn_str cause) \/
     (exn_cls cause <> IMAP4_error /\
      exn_str e = lit "NETWORK_ERROR: " ++ exn_str cause)).
Proof.
  assert (Hclass : forall cause t0,
    (match exn_cls cause with
     | IMAP4_error =>
         if str_contains (lit "authentication failed") (py_lower (exn_str cause))
         then raise (Exception (lit "AUTHENTICATION_FAILED: " ++ exn_str cause))
         else raise (Exception (lit "IMAP_CONNECTION_FAILED: " ++ exn_str cause))
     | _ => raise (Exception (lit "NETWORK_ERROR: " ++ exn_str cause))
     end) t0 = (@inl exn bool e, t') ->
    exn_cls e = OtherException /\
    ((exn_cls cause = IMAP4_error /\
      str_contains (lit "authentication failed") (py_lower (exn_str cause)) = true /\
      exn_str e = lit "AUTHENTICATION_FAILED: " ++ exn_str cause) \/
     (exn_cls cause = IMAP4_error /\
      str_contains (lit "authentication failed") (py_lower (exn_str cause)) = false /\
      exn_str e = lit "IMAP_CONNECTION_FAILED: " ++ exn_str cause) \/
     (exn_cls cause <> IMAP4_error /\
      exn_str e = lit "NETWORK_ERROR: " ++ exn_str cause))).
  { intros cause t0.
    destruct (exn_cls cause) eqn:Ec.
    - destruct (str_contains _ _) eqn:Es;
        unfold raise; intros E; inversion E; subst; simpl;
        (split; [reflexivity|]).
      + left. repeat split.
      + right; left. repeat split.
    - unfold raise; intros E; inversion E; subst; simpl.
      split; [reflexivity|]. right; right. split; [discriminate|reflexivity].
    - unfold raise; intros E; inversion E; subst; simpl.
      split; [reflexivity|]. right; right. split; [discriminate|reflexivity].
    - unfold raise; intros E; inversion E; subst; simpl.
      split; [reflexivity|]. right; right. split; [discriminate|reflexivity]. }
  unfold connect_imap, try_catch, bind, call_new, call, set_imap_conn, log, emit, ret.
  destruct (IMAP4_SSL _ _ (world t)) as [[cause|c] w] eqn:Ec; simpl.
  - intros E. exists cause. split; [left; reflexivity|]. eapply Hclass; eauto.
  - destruct (imap_login c _ _ w) as [[cause|[]] w1] eqn:El; simpl.
    + intros E. exists cause. split.
      * right. exists c, w. rewrite El. auto.
      * eapply Hclass; eauto.
    + discriminate.
Qed.

(** X2.  What [connect_imap] leaves in [self.imap_conn]: the slot is
    untouched when the constructor raises; once the constructor has
    returned a session the slot holds it, also when [login] then raises
    and [connect_imap] fails; when both calls return, [connect_imap]
    returns [True] after exactly those two calls.  The SMTP slot is never
    touched. *)
Theorem connect_imap_session_slot (cfg : config) (t : tool W) :
  (forall cause w,
     IMAP4_SSL (cfg_imap_server cfg) (config_get (cfg_imap_port cfg) 993)
       (world t) = (inl cause, w) ->
     is_raise (fst (connect_imap cfg t)) = true /\
     imap_conn (snd (connect_imap cfg t)) = imap_conn t) /\
  (forall c w cause w',
     IMAP4_SSL (cfg_imap_server cfg) (config_get (cfg_imap_port cfg) 993)
       (world t) = (inr c, w) ->
     imap_login c (cfg_email cfg) (cfg_password cfg) w = (inl cause, w') ->
     is_raise (fst (connect_imap cfg t)) = true /\
     imap_conn (snd (connect_imap cfg t)) = Some c) /\
  (forall c w w',
     IMAP4_SSL (cfg_imap_server cfg) (config_get (cfg_imap_port cfg) 993)
       (world t) = (inr c, w) ->
     imap_login c (cfg_email cfg) (cfg_password cfg) w = (inr tt, w') ->
     fst (connect_imap cfg t) = inr true /\
     imap_conn (snd (connect_imap cfg t)) = Some c /\
     calls (added (trace t) (trace (snd (connect_imap cfg t))))
     = [(P_IMAP4_SSL, Some c, false); (P_imap_login, Some c, false)]) /\
  smtp_conn (snd (connect_imap cfg t)) = smtp_conn t.
Proof.
  unfold connect_imap, try_catch, bind, call_new, call, set_imap_conn, log, emit, ret.
  repeat split.
  - rewrite H. simpl.
    destruct (exn_cls cause); [destruct (str_contains _ _)|..]; reflexivity.
  - rewrite H. simpl.
    destruct (exn_cls cause); [destruct (str_contains _ _)|..]; reflexivity.
  - rewrite H. simpl. rewrite H0. simpl.
    destruct (exn_cls cause); [destruct (str_contains _ _)|..]; reflexivity.
  - rewrite H. simpl. rewrite H0. simpl.
    destruct (exn_cls cause); [destruct (str_contains _ _)|..]; reflexivity.
  - rewrite H. simpl. rewrite H0. reflexivity.
  - rewrite H. simpl. rewrite H0. reflexivity.
  - rewrite H. simpl. rewrite H0. simpl. unfold added.
    rewrite <- !app_assoc. rewrite skipn_app, skipn_all, Nat.sub_diag. reflexivity.
  - destruct (IMAP4_SSL _ _ (world t)) as [[cause|c] w]; simpl.
    + destruct (exn_cls cause); [destruct (str_contains _ _)|..]; reflexivity.
    + destruct (imap_login c _ _ w) as [[cause|[]] w1]; simpl; [|reflexivity].
      destruct (exn_cls cause); [destruct (str_contains _ _)|..]; reflexivity.
Qed.

(** X3.  When [connect_smtp] raises, what it raises is a plain
    [Exception] built from the error [cause] of the constructor, of
    [starttls] or of [login]: tagged AUTHENTICATION_FAILED for an
    [SMTPAuthenticationError], SMTP_CONNECTION_FAILED for the other SMTP
    errors and NETWORK_ERROR for every other exception. *)
Theorem connect_smtp_raises_classified
    (cfg : config) (t t' : tool W) (e : exn) :
  connect_smtp cfg t = (inl e, t') ->
  exists cause,
    (fst (SMTP (cfg_smtp_server cfg) (config_get (cfg_smtp_port cfg) 587)
            (world t)) = inl cause \/
     exists c w,
       SMTP (cfg_smtp_server cfg) (config_get (cfg_smtp_port cfg) 587)
         (world t) = (inr c, w) /\
       (fst (smtp_starttls c w) = inl cause \/
        exists w',
          smtp_starttls c w = (inr tt, w') /\
          fst (smtp_login c (cfg_email cfg) (cfg_password cfg) w') = inl cause)) /\
    exn_cls e = OtherException /\
    ((exn_cls cause = SMTPAuthenticationError /\
      exn_str e = lit "AUTHENTICATION_FAILED: " ++ exn_str cause) \/
     (exn_cls cause = SMTPException /\
      exn_str e = lit "SMTP_CONNECTION_FAILED: " ++ exn_str cause) \/
     (exn_cls cause <> SMTPAuthenticationError /\
      exn_cls cause <> SMTPException /\
      exn_str e = lit "NETWORK_ERROR: " ++ exn_str cause)).
Proof.
  assert (Hclass : forall cause t0,
    (match exn_cls cause with
     | SMTPAuthenticationError =>
         raise (Exception (lit "AUTHENTICATION_FAILED: " ++ exn_str cause))
     | SMTPException =>
         raise (Exception (lit "SMTP_CONNECTION_FAILED: " ++ exn_str cause))
     | _ => raise (Exception (lit "NETWORK_ERROR: " ++ exn_str cause))
     end) t0 = (@inl exn bool e, t') ->
    exn_cls e = OtherException /\
    ((exn_cls cause = SMTPAuthenticationError /\
      exn_str e = lit "AUTHENTICATION_FAILED: " ++ exn_str cause) \/
     (exn_cls cause = SMTPException /\
      exn_str e = lit "SMTP_CONNECTION_FAILED: " ++ exn_str cause) \/
     (exn_cls cause <> SMTPAuthenticationError /\
      exn_cls cause <> SMTPException /\
      exn_str e = lit "NETWORK_ERROR: " ++ exn_str cause))).
  { intros cause t0.
    destruct (exn_cls cause) eqn:Ec;
      unfold raise; intros E; inversion E; subst; simpl;
      (split; [reflexivity|]).
    - right; right. repeat split; discriminate.
    - left. repeat split.
    - right; left. repeat split.
    - right; right. repeat split; discriminate. }
  unfold connect_smtp, try_catch, bind, call_new, call, set_smtp_conn, log, emit, ret.
  destruct (SMTP _ _ (world t)) as [[cause|c] w] eqn:Ec; simpl.
  - intros E. exists cause. split; [left; reflexivity|]. eapply Hclass; eauto.
  - destruct (smtp_starttls c w) as [[cause|[]] w1] eqn:Es; simpl.
    + intros E. exists cause. split.
      * right. exists c, w. rewrite Es. auto.
      * eapply Hclass; eauto.
    + destruct (smtp_login c _ _ w1) as [[cause|[]] w2] eqn:El; simpl.
      * intros E. exists cause. split.
        -- right. exists c, w. split; [reflexivity|]. right.
           exists w1. rewrite El. auto.
        -- eapply Hclass; eauto.
      * discriminate.
Qed.

End Connecting.

(** On the library whose server refuses the password. *)
Lemma connect_imap_raises_classified_witness :
  exists t',
    @connect_imap unit locked_out (example_config 3)
      (Tool None None tt [])
    = (inl (Exception (lit "AUTHENTICATION_FAILED: [AUTHENTICATIONFAILED] Authentication failed.")),
       t') /\
    exists cause,
      exn_cls cause = IMAP4_error /\
      exn_str cause = lit "[AUTHENTICATIONFAILED] Authentication failed.".
Proof.
  eexists. split; [reflexivity|].
  destruct (@connect_imap_raises_classified unit locked_out (example_config 3)
              (Tool None None tt []) _ _ eq_refl)
    as (cause & [Hc|(c & w & Hc & Hl)] & _ & _).
  - discriminate.
  - exists cause. simpl in Hl. inversion Hl. split; reflexivity.
Defined.

Lemma connect_imap_session_slot_witness :
  is_raise (fst (@connect_imap unit locked_out (example_config 3)
                   (Tool None None tt []))) = true /\
  imap_conn (snd (@connect_imap unit locked_out (example_config 3)
                    (Tool None None tt []))) = Some 7%nat.
Proof.
  destruct (@connect_imap_session_slot unit locked_out (example_config 3)
              (Tool None None tt [])) as (_ & H & _).
  eapply H; reflexivity.
Defined.

Lemma connect_smtp_raises_classified_witness :
  exists t',
    @connect_smtp unit locked_out (example_config 3) (Tool None None tt [])
    = (inl (Exception (lit "SMTP_CONNECTION_FAILED: Connection unexpectedly closed")),
       t') /\
    exists cause, exn_cls cause = SMTPException.
Proof.
  eexists. split; [reflexivity|].
  destruct (@connect_smtp_raises_classified unit locked_out (example_config 3)
              (Tool None None tt []) _ _ eq_refl)
    as (cause & [Hc|(c & w & Hc & _)] & _ & _).
  - exists cause. simpl in Hc. inversion Hc. reflexivity.
  - discriminate.
Defined.

(* ================================================================== *)
(** ** Headers and recipients *)

Lemma first_piece_is_text_before (sep : Z) (s : str) :
  hd [] (split_char sep s) = text_before sep s.
Proof.
  induction s as [|x s IH]; simpl; [reflexivity|].
  destruct (x =? sep); [reflexivity|].
  destruct (split_char_pieces sep s) as (w & ws & E).
  rewrite E in *. simpl in *. now rewrite IH.
Qed.

Section Headers.
Context {W : Type} {lib : MailLib W}.

(** The two ways [decode_mime_words] ends. *)
Lemma decode_mime_words_cases (s : str) (t : tool W) :
  (exists frs r,
     decode_header s = inr frs /\ decode_fragments frs [] = inr r /\
     decode_mime_words s t = (inr r, t)) \/
  (exists e,
     (decode_header s = inl e \/
      exists frs, decode_header s = inr frs /\ decode_fragments frs [] = inl e) /\
     decode_mime_words s t
     = (inr s, logged t WARNING (L_decode_failed (exn_str e)))).
Proof.
  unfold decode_mime_words, try_catch, bind, lift.
  destruct (decode_header s) as [e|frs] eqn:Eh.
  - right. exists e. split; [left; reflexivity|reflexivity].
  - destruct (decode_fragments frs []) as [e|r] eqn:Ef.
    + right. exists e. split; [right; eauto|reflexivity].
    + left. exists frs, r. auto.
Qed.

(** [mail_send] by the outcome of line 287. *)
Lemma mail_send_split (cfg : config) (to subject body : str) (t : tool W) :
  mail_send cfg to subject body t
  = if char_in chr_at to
       && char_in chr_dot (text_before chr_at (text_after_at to))
    then retry_loop cfg (send_retried cfg to subject body)
           (py_range (retry_count cfg)) t
    else (inr (PyDict (Send_invalid invalid_email_format)), t).
Proof.
  unfold mail_send, bind, lift, recipient_rejected.
  destruct (char_in chr_at to) eqn:E; simpl; [|reflexivity].
  rewrite (second_piece to E), first_piece_is_text_before.
  destruct (char_in chr_dot _); reflexivity.
Qed.

(** X4.  [decode_mime_words] never raises, and its answer is all or
    nothing: either every fragment decoded and it returns their join,
    touching nothing, or [decode_header] or one fragment raised and it
    returns the header [s] as it came, with one warning logged; no
    partly decoded text is ever returned. *)
Theorem decode_mime_words_all_or_nothing (s : str) (t : tool W) :
  (exists frs r,
     decode_header s = inr frs /\ decode_fragments frs [] = inr r /\
     decode_mime_words s t = (inr r, t)) \/
  (exists e,
     (decode_header s = inl e \/
      exists frs, decode_header s = inr frs /\ decode_fragments frs [] = inl e) /\
     decode_mime_words s t
     = (inr s, logged t WARNING (L_decode_failed (exn_str e)))).
Proof. apply decode_mime_words_cases. Qed.

(** X5.  Which recipients [mail_send] lets through: exactly those with an
    '@' whose text between the first '@' and the next one (or the end)
    has a '.'.  Every other recipient gets the INVALID_EMAIL_FORMAT dict
    with the state untouched; the accepted ones enter the retry loop. *)
Theorem mail_send_validation (cfg : config) (to subject body : str) (t : tool W) :
  mail_send cfg to subject body t
  = if char_in chr_at to
       && char_in chr_dot (text_before chr_at (text_after_at to))
    then retry_loop cfg (send_retried cfg to subject body)
           (py_range (retry_count cfg)) t
    else (inr (PyDict (Send_invalid invalid_email_format)), t).
Proof. apply mail_send_split. Qed.

End Headers.

(** A '.' after a second '@' does not count, one between the two does. *)
Example second_at_ends_the_domain :
  recipient_rejected (lit "a@b@c.d") = inr true /\
  recipient_rejected (lit "a@b.c@d") = inr false.
Proof. split; reflexivity. Qed.

(* ================================================================== *)
(** ** load_config *)

Lemma check_required_ok (fields : list str) (config : json) :
  check_required fields config = inr tt <->
  Forall (fun field => py_in field config = inr true) fields.
Proof.
  induction fields as [|f fields IH]; simpl.
  - split; auto.
  - destruct (py_in f config) as [e|[|]] eqn:E.
    + split; [discriminate|]. intros H. inversion H; subst. congruence.
    + rewrite IH. split; [auto|]. intros H. now inversion H.
    + split; [discriminate|]. intros H. inversion H; subst. congruence.
Qed.

Lemma check_required_dict (fields : list str) (items : list (str * json)) :
  check_required fields (J_dict items)
  = match find (fun field =>
                  negb (existsb (fun kv => str_eqb (fst kv) field) items)) fields with
    | Some field => inl (Exception (config_field_missing field))
    | None => inr tt
    end.
Proof.
  induction fields as [|f fields IH]; simpl; [reflexivity|].
  destruct (existsb _ items); simpl; [exact IH|reflexivity].
Qed.

Section LoadConfig.
Context {host : Host}.

(** When [load_config] returns and what it raises. *)
Lemma load_config_cases (config_file : str) :
  (forall config,
     load_config config_file = inr config <->
     path_exists config_file = true /\
     json_load config_file = inr config /\
     Forall (fun field => py_in field config = inr true) required_fields) /\
  (forall e,
     load_config config_file = inl e ->
     exn_cls e = OtherException /\
     exists inner, exn_str e = lit "CONFIGURATION_ERROR: " ++ inner).
Proof.
  unfold load_config, load_config_try.
  generalize required_fields as fields. intros fields. split.
  - intros config.
    destruct (path_exists config_file); simpl.
    + destruct (json_load config_file) as [e|j].
      * split; [discriminate|]. intros (_ & H & _). discriminate.
      * destruct (check_required fields j) as [e|[]] eqn:Ec; simpl.
        -- split; [discriminate|]. intros (_ & H & Hall).
           inversion H; subst. apply check_required_ok in Hall. congruence.
        -- apply check_required_ok in Ec.
           split.
           ++ intros H. inversion H; subst. auto.
           ++ intros (_ & H & _). congruence.
    + split; [discriminate|]. intros (H & _). discriminate.
  - intros e.
    destruct (path_exists config_file); simpl;
      [destruct (json_load config_file) as [e0|j];
       [|destruct (check_required fields j) as [e0|[]]]|];
      intros H; inversion H; subst; simpl; eauto.
Qed.

(** X6.  For a configuration file that holds a JSON object, the error
    names one missing field: the first of email, password, imap_server,
    smtp_server that is not a key of the object. *)
Theorem load_config_names_first_missing_field
    (config_file : str) (items : list (str * json)) (field : str) :
  path_exists config_file = true ->
  json_load config_file = inr (J_dict items) ->
  find (fun field => negb (existsb (fun kv => str_eqb (fst kv) field) items))
    required_fields = Some field ->
  load_config config_file
  = inl (Exception (lit "CONFIGURATION_ERROR: " ++ config_field_missing field)).
Proof.
  intros Hp Hj Hf. unfold load_config, load_config_try.
  rewrite Hp, Hj. simpl negb. cbv iota.
  rewrite check_required_dict, Hf. reflexivity.
Qed.

(** X7.  [load_config] does not ask for a JSON object: a file that holds
    a JSON list with the four field names among its strings passes the
    check and is returned as the configuration. *)
Theorem load_config_accepts_list (config_file : str) (items : list json) :
  path_exists config_file = true ->
  json_load config_file = inr (J_list items) ->
  (forall field, In field required_fields -> In (J_str field) items) ->
  load_config config_file = inr (J_list items).
Proof.
  intros Hp Hj Hin.
  apply (proj1 (load_config_cases config_file)).
  split; [assumption|]. split; [assumption|].
  apply Forall_forall. intros field Hf. simpl. f_equal.
  apply existsb_exists. exists (J_str field). split; [auto|apply str_eqb_refl].
Qed.

(** X8.  [load_config] returns a configuration exactly when the file
    exists, [json.load] reads a value from it and each of the four
    required names is [in] that value; what it returns is that value,
    unchanged.  Whatever goes wrong, what it raises is a plain
    [Exception] whose text starts with "CONFIGURATION_ERROR: ". *)
Theorem load_config_returns_iff (config_file : str) :
  (forall config,
     load_config config_file = inr config <->
     path_exists config_file = true /\
     json_load config_file = inr config /\
     Forall (fun field => py_in field config = inr true) required_fields) /\
  (forall e,
     load_config config_file = inl e ->
     exn_cls e = OtherException /\
     exists inner, exn_str e = lit "CONFIGURATION_ERROR: " ++ inner).
Proof. apply load_config_cases. Qed.

End LoadConfig.

Definition listed_host : Host :=
  host_with [(lit "config.json",
              inr (J_list [J_str (lit "smtp_server"); J_str (lit "imap_server");
                           J_str (lit "password"); J_str (lit "email")]))].

(** The file of the example host that lacks both password and
    smtp_server: password is the one named. *)
Lemma load_config_names_first_missing_field_witness :
  @load_config example_host (lit "short.json")
  = inl (Exception (lit "CONFIGURATION_ERROR: " ++ config_field_missing (lit "password"))).
Proof.
  eapply (@load_config_names_first_missing_field example_host); reflexivity.
Defined.

Lemma load_config_accepts_list_witness :
  exists items, @load_config listed_host (lit "config.json") = inr (J_list items).
Proof.
  eexists.
  apply (@load_config_accepts_list listed_host); [reflexivity|reflexivity|].
  intros field Hf. simpl in Hf.
  destruct Hf as [<-|[<-|[<-|[<-|[]]]]]; simpl; auto 6.
Defined.

(* ================================================================== *)
(** ** main *)

Section MainProperties.
Context {W : Type} {lib : MailLib W} {host : Host}.

(** Whatever happens in it, [close_connections] ends by logging: that all
    is closed, or the error that stopped it. *)
Lemma close_connections_logs_last (t : tool W) :
  exists tr txt,
    trace (snd (close_connections t)) = tr ++ [Ev_log INFO txt] /\ txt = L_all_closed \/
    trace (snd (close_connections t)) = tr ++ [Ev_log WARNING txt] /\
    exists e, txt = L_close_failed e.
Proof.
  unfold close_connections, try_catch, bind, get_imap_conn, get_smtp_conn,
    call, set_imap_conn, set_smtp_conn, log, emit, ret.
  destruct (imap_conn t) as [c|]; simpl.
  - destruct (imap_close c (world t)) as [[e|[]] w1]; simpl;
      [do 2 eexists; right; split; [reflexivity|eauto]|].
    destruct (imap_logout c w1) as [[e|[]] w2]; simpl;
      [do 2 eexists; right; split; [reflexivity|eauto]|].
    destruct (smtp_conn t) as [c'|]; simpl;
      [|do 2 eexists; left; split; reflexivity].
    destruct (smtp_quit c' w2) as [[e|[]] w3]; simpl;
      [do 2 eexists; right; split; [reflexivity|eauto]|].
    do 2 eexists; left; split; reflexivity.
  - destruct (smtp_conn t) as [c'|]; simpl;
      [|do 2 eexists; left; split; reflexivity].
    destruct (smtp_quit c' (world t)) as [[e|[]] w3]; simpl;
      [do 2 eexists; right; split; [reflexivity|eauto]|].
    do 2 eexists; left; split; reflexivity.
Qed.

(** With no session open, closing calls nothing and logs once. *)
Lemma close_connections_idle (t : tool W) :
  imap_conn t = None -> smtp_conn t = None ->
  close_connections t = (inr tt, logged t INFO L_all_closed).
Proof.
  intros Hi Hs. destruct t as [ic sc w tr]. simpl in Hi, Hs. subst.
  reflexivity.
Qed.

(** Printing touches neither the sessions nor the trace. *)
Lemma py_print_trace (stdout_write : printed -> W -> Exc unit * W)
    (p : printed) (t : tool W) :
  trace (snd (py_print stdout_write p t)) = trace t.
Proof.
  unfold py_print. destruct (stdout_write p (world t)); reflexivity.
Qed.

(** The [finally] block of [main] when [tool] was bound: the outcome of
    the block before it stands, and [close_connections] has run. *)
Lemma finally_close {A} (m : M W A) (t : tool W) :
  try_finally m close_connections t
  = (fst (m t), snd (close_connections (snd (m t)))).
Proof.
  unfold try_finally. destruct (m t) as [r t1]. simpl.
  pose proof (close_connections_total t1) as H.
  destruct (close_connections t1) as [[e|[]] t2]; simpl in *;
    [discriminate|reflexivity].
Qed.

Lemma finally_nothing {A} (m : M W A) (t : tool W) :
  try_finally m (ret tt) t = m t.
Proof. unfold try_finally, ret. destruct (m t); reflexivity. Qed.

(** With a command, [main] ends as the [try] block with its [except]
    clause did. *)
Lemma main_printing_outcome (stdout_write : printed -> W -> Exc unit * W)
    (constructed : Exc config) (prog command : str) (rest : list str)
    (t : tool W) :
  fst (main_printing stdout_write constructed (prog :: command :: rest) t)
  = fst (try_catch
           (main_try_printing stdout_write constructed (prog :: command :: rest) command)
           (fun e => py_print stdout_write (Pr_error (exn_str e))) t).
Proof.
  unfold main_printing. destruct constructed as [e0|cfg].
  - now rewrite finally_nothing.
  - now rewrite finally_close.
Qed.

(** For a standard output that takes every line and leaves the world as
    it was, [main_printing] leaves the state [main] leaves. *)
Lemma main_printing_taking_every_line
    (stdout_write : printed -> W -> Exc unit * W)
    (constructed : Exc config) (argv : list str) (t : tool W) :
  (forall p w, stdout_write p w = (inr tt, w)) ->
  main_printing stdout_write constructed argv t
  = (inr tt, snd (main constructed argv t)).
Proof.
  intros Hw.
  assert (Hp : forall p t0, py_print stdout_write p t0 = (inr tt, t0)).
  { intros p [ic sc w tr]. unfold py_print. simpl. now rewrite Hw. }
  assert (Htry : forall command,
             main_try_printing stdout_write constructed argv command t
             = (match fst (main_try constructed argv command t) with
                | inl e => inl e
                | inr _ => inr tt
                end, snd (main_try constructed argv command t))).
  { intros command. unfold main_try_printing, main_try, bind, lift, ret.
    destruct constructed as [e0|cfg]; [reflexivity|].
    destruct (str_eqb command (lit "read")).
    - destruct (nth_error argv 3) as [l|]; [destruct (py_int l) as [e|limit]|];
        try reflexivity;
        match goal with |- context [mail_read ?c ?f ?l t] =>
          destruct (mail_read c f l t) as [[e1|v] t1] end;
        simpl; rewrite ?Hp; reflexivity.
    - destruct (str_eqb command (lit "send")).
      + destruct argv as [|a0 [|a1 [|a2 [|a3 [|a4 argv]]]]];
          rewrite ?Hp; try reflexivity.
        destruct (mail_send cfg a2 a3 a4 t) as [[e1|v] t1];
          simpl; rewrite ?Hp; reflexivity.
      + destruct (str_eqb command (lit "get")).
        * destruct argv as [|a0 [|a1 [|a2 argv]]]; rewrite ?Hp; try reflexivity.
          destruct (mail_get cfg a2 t) as [[e1|v] t1];
            simpl; rewrite ?Hp; reflexivity.
        * rewrite Hp. reflexivity. }
  unfold main_printing, main.
  destruct argv as [|prog [|command rest]]; [rewrite Hp; reflexivity..|].
  assert (Hc : try_catch
                 (main_try_printing stdout_write constructed
                    (prog :: command :: rest) command)
                 (fun e => py_print stdout_write (Pr_error (exn_str e))) t
               = (inr tt, snd (main_try constructed (prog :: command :: rest)
                                 command t))).
  { unfold try_catch. rewrite Htry.
    destruct (main_try constructed (prog :: command :: rest) command t)
      as [[e|out] t1]; simpl; rewrite ?Hp; reflexivity. }
  unfold bind, try_catch at 2.
  destruct constructed as [e0|cfg].
  - rewrite finally_nothing, Hc.
    destruct (main_try (inl e0) (prog :: command :: rest) command t)
      as [[e|out] t1]; reflexivity.
  - rewrite finally_close, Hc. simpl.
    destruct (main_try (inr cfg) (prog :: command :: rest) command t)
      as [[e|out] t1]; simpl;
      pose proof (close_connections_total t1) as H;
      destruct (close_connections t1) as [[e1|[]] t2]; simpl in *;
      try discriminate; reflexivity.
Qed.

(** X9.  The only exception that leaves [main] is one a [print] raised
    where nothing catches it: on the usage lines, which are printed
    outside the [try] block, or on the error line, which is printed
    inside the [except] clause.  So with a standard output that takes
    every line [main] returns, whatever the arguments, the configuration
    and the servers do.  And once [MCPMailTool()] has returned, the last
    thing a run with a command does is [close_connections], whose log
    line ends the trace: also after an unknown command, missing
    arguments, an exception that left the operation, and a [print] that
    raised, in the [try] block or in the [except] clause. *)
Theorem main_raises_only_from_print_and_closes
    (stdout_write : printed -> W -> Exc unit * W)
    (constructed : Exc config) (argv : list str) (t : tool W) :
  (forall e,
     fst (main_printing stdout_write constructed argv t) = inl e ->
     exists p w,
       fst (stdout_write p w) = inl e /\
       (p = Pr_usage \/ exists msg, p = Pr_error msg)) /\
  ((forall p w, is_raise (fst (stdout_write p w)) = false) ->
   fst (main_printing stdout_write constructed argv t) = inr tt) /\
  (forall cfg prog command rest,
     constructed = inr cfg -> argv = prog :: command :: rest ->
     exists tr lv txt,
       trace (snd (main_printing stdout_write constructed argv t))
       = tr ++ [Ev_log lv txt] /\
       (txt = L_all_closed \/ exists e, txt = L_close_failed e)).
Proof.
  assert (Hraise : forall e,
             fst (main_printing stdout_write constructed argv t) = inl e ->
             exists p w,
               fst (stdout_write p w) = inl e /\
               (p = Pr_usage \/ exists msg, p = Pr_error msg)).
  { intros e. destruct argv as [|prog [|command rest]].
    - unfold main_printing, py_print. intros H. exists Pr_usage, (world t).
      destruct (stdout_write Pr_usage (world t)) as [r w]. simpl in *. auto.
    - unfold main_printing, py_print. intros H. exists Pr_usage, (world t).
      destruct (stdout_write Pr_usage (world t)) as [r w]. simpl in *. auto.
    - rewrite main_printing_outcome. unfold try_catch.
      destruct (main_try_printing stdout_write constructed
                  (prog :: command :: rest) command t) as [[e0|[]] t1];
        [|discriminate].
      unfold py_print. intros H.
      exists (Pr_error (exn_str e0)), (world t1).
      destruct (stdout_write (Pr_error (exn_str e0)) (world t1)) as [r w].
      simpl in *. eauto. }
  split; [exact Hraise|]. split.
  - intros Hok.
    destruct (fst (main_printing stdout_write constructed argv t))
      as [e|[]] eqn:E; [|reflexivity].
    destruct (Hraise e eq_refl) as (p & w & Hp & _).
    specialize (Hok p w). rewrite Hp in Hok. discriminate.
  - intros cfg prog command rest -> ->. unfold main_printing.
    rewrite finally_close. simpl.
    match goal with |- context [close_connections ?t1] =>
      destruct (close_connections_logs_last t1) as (tr & txt & Hl) end.
    destruct Hl as [[-> ->]|[-> He]]; eauto 6.
Qed.

(** X10.  A command line that cannot be run makes no call to the mail
    servers.  On the tool [MCPMailTool()] has just built, [send] with
    fewer than three operands, [get] without an identifier, an unknown
    command and [read] with a limit that [int] rejects each print their
    one line and leave nothing but the closing log line behind. *)
Theorem main_bad_arguments_call_nothing (cfg : config) (prog : str) (t : tool W) :
  imap_conn t = None -> smtp_conn t = None ->
  (forall operands, (length operands < 3)%nat ->
     main (inr cfg) (prog :: lit "send" :: operands) t
     = (inr [Pr_send_needs_arguments], logged t INFO L_all_closed)) /\
  main (inr cfg) [prog; lit "get"] t
  = (inr [Pr_get_needs_id], logged t INFO L_all_closed) /\
  (forall command rest,
     str_eqb command (lit "read") = false ->
     str_eqb command (lit "send") = false ->
     str_eqb command (lit "get") = false ->
     main (inr cfg) (prog :: command :: rest) t
     = (inr [Pr_unknown_command command], logged t INFO L_all_closed)) /\
  (forall folder limit rest e,
     py_int limit = inl e ->
     main (inr cfg) (prog :: lit "read" :: folder :: limit :: rest) t
     = (inr [Pr_error (exn_str e)], logged t INFO L_all_closed)).
Proof.
  intros Hi Hs. destruct t as [ic sc w tr]. simpl in Hi, Hs. subst.
  repeat split.
  - intros operands Hl.
    destruct operands as [|a [|b [|c operands]]]; simpl in Hl; try lia;
      reflexivity.
  - intros command rest Hr Hsd Hg.
    unfold main, bind, try_catch, main_try, lift, ret.
    rewrite Hr, Hsd, Hg. reflexivity.
  - intros folder limit rest e He.
    unfold main, bind, try_catch, main_try, lift, ret. simpl.
    rewrite He. reflexivity.
Qed.

(** When [MCPMailTool()] raises (a configuration error), a run
    with a command prints that error and does nothing else: no call, no
    log line, and no [close_connections], as [tool] was never bound. *)
Remark main_configuration_error
    (e : exn) (prog command : str) (rest : list str) (t : tool W) :
  main (inl e) (prog :: command :: rest) t = (inr [Pr_error (exn_str e)], t).
Proof. reflexivity. Qed.

End MainProperties.

(** A standard output that has been closed: every [print] raises the
    ValueError of a closed file. *)
Definition closed_stdout (p : printed) (w : server) : Exc unit * server :=
  (inl (Exception (lit "I/O operation on closed file.")), w).

(** The CLI run [read INBOX ten] with that standard output: [int]
    raises, the [except] clause raises in turn at its [print], and the
    exception leaves [main]; the connections have been closed first. *)
Lemma main_raises_only_from_print_and_closes_witness :
  is_raise (fst (@main_printing _ _ example_host closed_stdout
                   (inr (example_config 3))
                   [lit "mcp_mail.py"; lit "read"; lit "INBOX"; lit "ten"]
                   (fresh (server_with 0 three_messages)))) = true /\
  exists tr lv txt,
    trace (snd (@main_printing _ _ example_host closed_stdout
                  (inr (example_config 3))
                  [lit "mcp_mail.py"; lit "read"; lit "INBOX"; lit "ten"]
                  (fresh (server_with 0 three_messages))))
    = tr ++ [Ev_log lv txt].
Proof.
  split; [reflexivity|].
  destruct (@main_raises_only_from_print_and_closes _ _ example_host
              closed_stdout (inr (example_config 3))
              [lit "mcp_mail.py"; lit "read"; lit "INBOX"; lit "ten"]
              (fresh (server_with 0 three_messages))) as (_ & _ & H).
  destruct (H _ _ _ _ eq_refl eq_refl) as (tr & lv & txt & E & _).
  exists tr, lv, txt. exact E.
Defined.

Lemma main_bad_arguments_call_nothing_witness :
  @main _ _ example_host (inr (example_config 3))
    [lit "mcp_mail.py"; lit "read"; lit "INBOX"; lit "ten"]
    (fresh (server_with 0 three_messages))
  = (inr [Pr_error (lit "invalid literal for int() with base 10: 'ten'")],
     logged (fresh (server_with 0 three_messages)) INFO L_all_closed).
Proof.
  destruct (@main_bad_arguments_call_nothing _ _ example_host
              (example_config 3) (lit "mcp_mail.py")
              (fresh (server_with 0 three_messages)) eq_refl eq_refl)
    as (_ & _ & _ & H).
  apply (H (lit "INBOX") (lit "ten") []
           (Exception (lit "invalid literal for int() with base 10: 'ten'"))).
  reflexivity.
Defined.

(* ================================================================== *)
(** ** Bounds and frames of the operations *)

Lemma repeat_cons_pred {A} (d : A) (k : nat) :
  (1 <= k)%nat -> [d] ++ repeat d (k - 1) = repeat d k.
Proof. destruct k; [lia|]. simpl. now rewrite Nat.sub_0_r. Qed.

Lemma calls_app (a b : list event) : calls (a ++ b) = calls a ++ calls b.
Proof.
  induction a as [|[] a IH]; simpl; auto. now rewrite IH.
Qed.

Section Bounds.
Context {W : Type} {lib : MailLib W}.

(** The [except] block where the loop goes on, whatever [time.sleep]
    does: it raises without having slept, or it returns having slept
    once. *)
Lemma go_on_outcome (cfg : config) (r : @retried W) (a : Z) (e : exn)
    (t : tool W) :
  well_behaved r ->
  (exists e' t', go_on cfg r a e t = (inl e', t') /\
     sleeps (trace t') = sleeps (trace t) /\
     attempts (trace t') = attempts (trace t)) \/
  (exists t', go_on cfg r a e t = (inr tt, t') /\
     sleeps (trace t') = sleeps (trace t) ++ [retry_delay cfg] /\
     attempts (trace t') = attempts (trace t)).
Proof.
  intros Hwb. unfold go_on, bind, log, emit, sleep. simpl.
  destruct (time_sleep (retry_delay cfg) (world t)) as [[e'|[]] w'].
  - left. do 2 eexists. split; [reflexivity|]. simpl.
    rewrite sleeps_app, attempts_app. simpl. now rewrite !app_nil_r.
  - right.
    match goal with |- context [r_drop r ?t1] =>
      destruct (wb_drop r Hwb t1) as (t' & E & Htr)
    end.
    exists t'. rewrite E, Htr. simpl.
    rewrite !sleeps_app, !attempts_app; simpl.
    rewrite !app_nil_r. auto.
Qed.

(** However the attempts end, the loop over the last [m] numbers begins
    at most [m] of them, in order, and sleeps once between two. *)
Lemma retry_loop_bound (cfg : config) (r : @retried W) :
  well_behaved r ->
  forall (m : nat) (a : Z) (t : tool W),
    a + Z.of_nat m = retry_count cfg \/ m = O ->
    exists k,
      (k <= m)%nat /\ ((1 <= m)%nat -> (1 <= k)%nat) /\
      attempts (trace (snd (retry_loop cfg r (range_from a m) t)))
      = attempts (trace t) ++ range_from a k /\
      sleeps (trace (snd (retry_loop cfg r (range_from a m) t)))
      = sleeps (trace t) ++ repeat (retry_delay cfg) (k - 1).
Proof.
  intros Hwb. induction m as [|m IH]; intros a t Ha.
  - exists O. simpl. rewrite !app_nil_r. repeat split; auto; lia.
  - destruct Ha as [Ha|Ha]; [|discriminate].
    rewrite range_from_S, (retry_loop_cons cfg r). unfold try_catch.
    destruct (attempt_trace r Hwb a t) as [Hs Hat].
    destruct (attempt r a t) as [[e|v] t1] eqn:E; simpl in Hs, Hat.
    + destruct (Z.ltb_spec a (retry_count cfg - 1)) as [Hlt|Hge].
      * destruct (go_on_outcome cfg r a e t1 Hwb)
          as [(e' & t2 & G & Hs2 & Hat2)|(t2 & G & Hs2 & Hat2)].
        -- exists 1%nat.
           assert (E2 : (go_on cfg r a e ;; retry_loop cfg r (range_from (a + 1) m)) t1
                        = (inl e', t2))
             by (unfold bind at 1; rewrite G; reflexivity).
           rewrite E2. simpl.
           rewrite Hs2, Hat2, Hs, Hat. simpl.
           rewrite !app_nil_r, range_from_S. repeat split; auto; lia.
        -- assert (E2 : (go_on cfg r a e ;; retry_loop cfg r (range_from (a + 1) m)) t1
                        = retry_loop cfg r (range_from (a + 1) m) t2)
             by (unfold bind; rewrite G; reflexivity).
           rewrite E2.
           destruct (IH (a + 1) t2) as (k & Hk & Hk1 & Hka & Hks); [left; lia|].
           assert (1 <= m)%nat by lia.
           exists (S k). repeat split; [lia|lia| |].
           ++ rewrite Hka, Hat2, Hat, <- app_assoc, range_from_S. reflexivity.
           ++ rewrite Hks, Hs2, Hs, <- app_assoc.
              rewrite repeat_cons_pred by auto.
              simpl. now rewrite Nat.sub_0_r.
      * destruct (bail_out_run cfg r Hwb a e t1) as (f & t' & G & _ & _ & Hs' & Hat').
        rewrite G. simpl. exists 1%nat.
        rewrite Hs', Hat', Hs, Hat, range_from_S. simpl. rewrite app_nil_r.
        repeat split; auto; lia.
    + exists 1%nat. simpl. rewrite Hs, Hat, range_from_S. simpl.
      rewrite app_nil_r. repeat split; auto; lia.
Qed.

(** X11.  Whatever the servers do and whatever the configuration holds,
    a call of [mail_read], [mail_send] or [mail_get] begins at most
    [retry_count] attempts, numbered from 0 without a gap, and sleeps
    exactly once between two attempts, each time for [retry_delay]: never
    before the first attempt and never after the last. *)
Theorem operations_attempt_bound (cfg : config) (t : tool W) :
  let bounded (run : M W pyvalue) :=
    exists k,
      (k <= Z.to_nat (retry_count cfg))%nat /\
      attempts (trace (snd (run t)))
      = attempts (trace t) ++ py_range (Z.of_nat k) /\
      sleeps (trace (snd (run t)))
      = sleeps (trace t) ++ repeat (retry_delay cfg) (k - 1) in
  (forall folder limit, bounded (mail_read cfg folder limit)) /\
  (forall to subject body, bounded (mail_send cfg to subject body)) /\
  (forall email_id, bounded (mail_get cfg email_id)).
Proof.
  assert (Hloop : forall r : @retried W, well_behaved r ->
            exists k,
              (k <= Z.to_nat (retry_count cfg))%nat /\
              attempts (trace (snd (retry_loop cfg r (py_range (retry_count cfg)) t)))
              = attempts (trace t) ++ py_range (Z.of_nat k) /\
              sleeps (trace (snd (retry_loop cfg r (py_range (retry_count cfg)) t)))
              = sleeps (trace t) ++ repeat (retry_delay cfg) (k - 1)).
  { intros r Hwb. rewrite py_range_from.
    destruct (retry_loop_bound cfg r Hwb (Z.to_nat (retry_count cfg)) 0 t)
      as (k & Hk & _ & Ha & Hs).
    - destruct (Z.le_gt_cases 0 (retry_count cfg)); [left|right]; lia.
    - exists k. rewrite py_range_from, Nat2Z.id. auto. }
  simpl. split; [|split].
  - intros folder limit. apply Hloop, read_well_behaved.
  - intros to subject body. rewrite mail_send_split.
    destruct (char_in chr_at to && _).
    + apply Hloop, send_well_behaved.
    + exists O. simpl. rewrite !app_nil_r. repeat split; auto; lia.
  - intros email_id. apply Hloop, get_well_behaved.
Qed.

(** A method keeps a view of the tool state when it returns or raises
    with the view as it found it. *)
Definition keeps {X A} (view : tool W -> X) (m : M W A) : Prop :=
  forall t, view (snd (m t)) = view t.

(** The SMTP side of the tool: its session slot and the calls made to
    the SMTP client.  The IMAP side likewise. *)
Definition smtp_side (t : tool W) := (smtp_conn t, smtp_calls (trace t)).
Definition imap_side (t : tool W) := (imap_conn t, imap_calls (trace t)).

Lemma keeps_bind {X A B} (view : tool W -> X) (m : M W A) (k : A -> M W B) :
  keeps view m -> (forall a, keeps view (k a)) -> keeps view (bind m k).
Proof.
  intros Hm Hk t. unfold bind. specialize (Hm t).
  destruct (m t) as [[e|a] t1]; simpl in *; auto.
  rewrite Hk. exact Hm.
Qed.

Lemma keeps_try_catch {X A} (view : tool W -> X) (m : M W A) (h : exn -> M W A) :
  keeps view m -> (forall e, keeps view (h e)) -> keeps view (try_catch m h).
Proof.
  intros Hm Hh t. unfold try_catch. specialize (Hm t).
  destruct (m t) as [[e|a] t1]; simpl in *; auto.
  rewrite Hh. exact Hm.
Qed.

Lemma keeps_pure {X A} (view : tool W -> X) (x : Exc A) : keeps view (lift x).
Proof. intros t. reflexivity. Qed.

Lemma smtp_side_call {A} (p : prim) (c : conn) (f : W -> Exc A * W) :
  is_smtp_prim p = false -> keeps smtp_side (call p c f).
Proof.
  intros Hp t. unfold call, smtp_side, smtp_calls.
  destruct (f (world t)) as [x w]; simpl.
  rewrite calls_app, filter_app. simpl. rewrite Hp. simpl.
  now rewrite app_nil_r.
Qed.

Lemma imap_side_call {A} (p : prim) (c : conn) (f : W -> Exc A * W) :
  is_smtp_prim p = true -> keeps imap_side (call p c f).
Proof.
  intros Hp t. unfold call, imap_side, imap_calls.
  destruct (f (world t)) as [x w]; simpl.
  rewrite calls_app, filter_app. simpl. rewrite Hp. simpl.
  now rewrite app_nil_r.
Qed.

Lemma smtp_side_call_new (p : prim) (f : W -> Exc conn * W) :
  is_smtp_prim p = false -> keeps smtp_side (call_new p f).
Proof.
  intros Hp t. unfold call_new, smtp_side, smtp_calls.
  destruct (f (world t)) as [x w]; simpl.
  rewrite calls_app, filter_app. simpl. rewrite Hp. simpl.
  now rewrite app_nil_r.
Qed.

Lemma imap_side_call_new (p : prim) (f : W -> Exc conn * W) :
  is_smtp_prim p = true -> keeps imap_side (call_new p f).
Proof.
  intros Hp t. unfold call_new, imap_side, imap_calls.
  destruct (f (world t)) as [x w]; simpl.
  rewrite calls_app, filter_app. simpl. rewrite Hp. simpl.
  now rewrite app_nil_r.
Qed.

Lemma smtp_side_emit (ev : event) :
  calls [ev] = [] -> keeps smtp_side (@emit W ev).
Proof.
  intros He t. unfold emit, smtp_side, smtp_calls. simpl.
  rewrite calls_app, He. now rewrite app_nil_r.
Qed.

Lemma imap_side_emit (ev : event) :
  calls [ev] = [] -> keeps imap_side (@emit W ev).
Proof.
  intros He t. unfold emit, imap_side, imap_calls. simpl.
  rewrite calls_app, He. now rewrite app_nil_r.
Qed.

Lemma smtp_side_sleep (d : Z) : keeps smtp_side (sleep d).
Proof.
  intros t. unfold sleep, smtp_side, smtp_calls.
  destruct (time_sleep d (world t)) as [[e|[]] w]; simpl; [reflexivity|].
  rewrite calls_app. simpl. now rewrite app_nil_r.
Qed.

Lemma imap_side_sleep (d : Z) : keeps imap_side (sleep d).
Proof.
  intros t. unfold sleep, imap_side, imap_calls.
  destruct (time_sleep d (world t)) as [[e|[]] w]; simpl; [reflexivity|].
  rewrite calls_app. simpl. now rewrite app_nil_r.
Qed.

Lemma smtp_side_now : keeps smtp_side now.
Proof. intros t. unfold now. destruct (now_isoformat (world t)). reflexivity. Qed.

Lemma imap_side_now : keeps imap_side now.
Proof. intros t. unfold now. destruct (now_isoformat (world t)). reflexivity. Qed.

(** Walks a method body for [keeps], as [quiet_walk] does for [quiet]. *)
Ltac keeps_step :=
  match goal with
  | |- keeps _ (bind _ _) => apply keeps_bind; [|intros]
  | |- keeps _ (try_catch _ _) => apply keeps_try_catch; [|intros]
  | |- keeps _ (if ?b then _ else _) => destruct b
  | |- keeps _ (match ?x with _ => _ end) => destruct x
  | |- keeps _ (lift _) => apply keeps_pure
  | |- keeps smtp_side (call _ _ _) => apply smtp_side_call; reflexivity
  | |- keeps imap_side (call _ _ _) => apply imap_side_call; reflexivity
  | |- keeps smtp_side (call_new _ _) => apply smtp_side_call_new; reflexivity
  | |- keeps imap_side (call_new _ _) => apply imap_side_call_new; reflexivity
  | |- keeps smtp_side (log _ _) => apply smtp_side_emit; reflexivity
  | |- keeps imap_side (log _ _) => apply imap_side_emit; reflexivity
  | |- keeps smtp_side (emit _) => apply smtp_side_emit; reflexivity
  | |- keeps imap_side (emit _) => apply imap_side_emit; reflexivity
  | |- keeps smtp_side (sleep _) => apply smtp_side_sleep
  | |- keeps imap_side (sleep _) => apply imap_side_sleep
  | |- keeps smtp_side now => apply smtp_side_now
  | |- keeps imap_side now => apply imap_side_now
  | |- keeps _ _ => solve [intros ?; reflexivity]
  end.
Ltac keeps_walk := repeat keeps_step.

Lemma smtp_side_read_all (ids : list bytes) (emails : list summary) :
  keeps smtp_side (read_all ids emails).
Proof.
  revert emails; induction ids as [|i ids IH]; intros emails; simpl.
  - intros t; reflexivity.
  - apply keeps_bind; [|intros; apply IH].
    unfold read_one, the_imap_conn, get_imap_conn, decode_mime_words,
      extract_body_summary. keeps_walk.
Qed.

Lemma smtp_side_mail_read_body (cfg : config) (folder : str) (limit : Z) :
  keeps smtp_side (mail_read_body cfg folder limit).
Proof.
  unfold mail_read_body, ensure_imap, connect_imap, the_imap_conn,
    get_imap_conn, set_imap_conn.
  repeat match goal with
         | |- keeps _ (read_all _ _) => apply smtp_side_read_all
         | _ => keeps_step
         end.
Qed.

Lemma smtp_side_mail_get_body (cfg : config) (email_id : str) :
  keeps smtp_side (mail_get_body cfg email_id).
Proof.
  unfold mail_get_body, ensure_imap, connect_imap, the_imap_conn,
    get_imap_conn, set_imap_conn, decode_mime_words, extract_full_body.
  keeps_walk.
Qed.

Lemma imap_side_mail_send_body (cfg : config) (to subject body : str) :
  keeps imap_side (mail_send_body cfg to subject body).
Proof.
  unfold mail_send_body, ensure_smtp, connect_smtp, the_smtp_conn,
    get_smtp_conn, set_smtp_conn.
  keeps_walk.
Qed.

Lemma keeps_retry_loop {X} (view : tool W -> X) (cfg : config) (r : @retried W) :
  (forall a, keeps view (attempt r a)) ->
  (forall a e, keeps view (log ERROR (L_attempt_failed (r_op r) a (retry_count cfg) e))) ->
  keeps view (sleep (retry_delay cfg)) ->
  keeps view (r_drop r) ->
  (forall e, keeps view (r_failure r e)) ->
  forall todo, keeps view (retry_loop cfg r todo).
Proof.
  intros Ha Hl Hsl Hd Hf. induction todo as [|a todo IH]; simpl.
  - intros t; reflexivity.
  - apply keeps_try_catch; [apply Ha|]. intros e.
    apply keeps_bind; [apply Hl|]. intros _.
    destruct (a <? retry_count cfg - 1); [|apply Hf].
    apply keeps_bind; [apply Hsl|]. intros _.
    apply keeps_bind; [apply Hd|]. intros _. apply IH.
Qed.

(** X12.  The two sides of the tool do not touch each other:
    [mail_read] and [mail_get] leave [self.smtp_conn] as it was and make
    no call to the SMTP client; [mail_send] leaves [self.imap_conn] as it
    was and makes no call to the IMAP client; whether they succeed, fail
    or raise. *)
Theorem operations_keep_the_other_side (cfg : config) (t : tool W) :
  (forall folder limit,
     smtp_conn (snd (mail_read cfg folder limit t)) = smtp_conn t /\
     smtp_calls (trace (snd (mail_read cfg folder limit t))) = smtp_calls (trace t)) /\
  (forall email_id,
     smtp_conn (snd (mail_get cfg email_id t)) = smtp_conn t /\
     smtp_calls (trace (snd (mail_get cfg email_id t))) = smtp_calls (trace t)) /\
  (forall to subject body,
     imap_conn (snd (mail_send cfg to subject body t)) = imap_conn t /\
     imap_calls (trace (snd (mail_send cfg to subject body t))) = imap_calls (trace t)).
Proof.
  assert (Hpair : forall {X Y} (a b : X) (c d : Y), (a, c) = (b, d) -> a = b /\ c = d)
    by (intros X Y a b c d H; inversion H; auto).
  split; [|split].
  - intros folder limit. apply Hpair.
    change (smtp_side (snd (mail_read cfg folder limit t)) = smtp_side t).
    apply keeps_retry_loop; simpl; intros; try solve [keeps_walk].
    unfold attempt. apply keeps_bind; [keeps_walk|intros].
    apply smtp_side_mail_read_body.
  - intros email_id. apply Hpair.
    change (smtp_side (snd (mail_get cfg email_id t)) = smtp_side t).
    apply keeps_retry_loop; simpl; intros; try solve [keeps_walk].
    unfold attempt. apply keeps_bind; [keeps_walk|intros].
    apply smtp_side_mail_get_body.
  - intros to subject body. apply Hpair.
    change (imap_side (snd (mail_send cfg to subject body t)) = imap_side t).
    rewrite mail_send_split.
    destruct (char_in chr_at to && _); [|reflexivity].
    apply keeps_retry_loop; simpl; intros; try solve [keeps_walk].
    unfold attempt. apply keeps_bind; [keeps_walk|intros].
    apply imap_side_mail_send_body.
Qed.

End Bounds.

(* ================================================================== *)
(** ** What [mail_read] lists and what [mail_send] sends *)

Lemma added_app (tr more : list event) : added tr (tr ++ more) = more.
Proof.
  unfold added. rewrite skipn_app, skipn_all, Nat.sub_diag. reflexivity.
Qed.

Section Reading.
Context {W : Type} {lib : MailLib W}.

(** With at least one attempt configured, an attempt 0 that returns
    ends the call. *)
Lemma retry_loop_first_attempt (cfg : config) (r : @retried W) (t t1 : tool W)
    (v : pyvalue) :
  1 <= retry_count cfg ->
  attempt r 0 t = (inr v, t1) ->
  retry_loop cfg r (py_range (retry_count cfg)) t = (inr v, t1).
Proof.
  intros Hrc Ha. rewrite py_range_from.
  destruct (Z.to_nat (retry_count cfg)) as [|n] eqn:En; [lia|].
  rewrite range_from_S. simpl. unfold try_catch. rewrite Ha. reflexivity.
Qed.

(** [decode_mime_words] returns, and changes nothing but the trace. *)
Lemma decode_mime_words_run (s : str) (t : tool W) :
  exists r t',
    decode_mime_words s t = (inr r, t') /\
    imap_conn t' = imap_conn t /\ smtp_conn t' = smtp_conn t /\
    world t' = world t.
Proof.
  destruct (decode_mime_words_cases s t)
    as [(frs & r & _ & _ & E)|(e & _ & E)]; rewrite E; eauto 8.
Qed.

(** One message: no summary, or one summary whose id is the identifier,
    decoded.  Only the trace and the world change. *)
Lemma read_one_result (msg_id : bytes) (emails : list summary) (t : tool W) :
  exists more t',
    read_one msg_id emails t = (inr (emails ++ more), t') /\
    imap_conn t' = imap_conn t /\ smtp_conn t' = smtp_conn t /\
    (more = [] \/
     exists e, more = [e] /\ bytes_decode msg_id (lit "utf-8") = inr (s_id e)).
Proof.
  assert (Hskip : forall t0 : tool W,
             imap_conn t0 = imap_conn t -> smtp_conn t0 = smtp_conn t ->
             exists more t',
               (inr emails, t0) = (@inr exn _ (emails ++ more), t') /\
               imap_conn t' = imap_conn t /\ smtp_conn t' = smtp_conn t /\
               (more = [] \/
                exists e, more = [e] /\
                          bytes_decode msg_id (lit "utf-8") = inr (s_id e))).
  { intros t0 Hi Hs. exists [], t0. rewrite app_nil_r. auto. }
  unfold read_one, try_catch, bind at 1, the_imap_conn, bind at 1, get_imap_conn.
  destruct (imap_conn t) as [c|] eqn:Hc; simpl;
    [|apply Hskip; simpl; auto].
  unfold bind at 1, call.
  destruct (imap_fetch c msg_id (world t)) as [[e|[status parsed]] w1]; simpl;
    [apply Hskip; simpl; auto|].
  destruct (negb (str_eqb status (lit "OK"))); simpl;
    [apply Hskip; simpl; auto|].
  unfold bind at 1, lift.
  destruct parsed as [e|msg]; simpl; [apply Hskip; simpl; auto|].
  unfold bind at 1.
  match goal with |- context [decode_mime_words ?s ?t0] =>
    destruct (decode_mime_words_run s t0) as (subject & t3 & -> & Hi3 & Hs3 & _)
  end. simpl in Hi3, Hs3.
  unfold bind at 1.
  match goal with |- context [decode_mime_words ?s ?t0] =>
    destruct (decode_mime_words_run s t0) as (sender & t4 & -> & Hi4 & Hs4 & _)
  end.
  unfold bind at 1. rewrite extract_body_summary_run.
  destruct (summary_raw msg) as [e|body]; simpl.
  - unfold bind, lift.
    destruct (bytes_decode msg_id (lit "utf-8")) as [e'|id] eqn:Ed; simpl.
    + apply Hskip; simpl; congruence.
    + do 2 eexists. split; [reflexivity|]. simpl.
      split; [congruence|]. split; [congruence|]. right. eexists. split; reflexivity.
  - unfold bind, lift.
    destruct (bytes_decode msg_id (lit "utf-8")) as [e'|id] eqn:Ed; simpl.
    + apply Hskip; simpl; congruence.
    + do 2 eexists. split; [reflexivity|]. simpl.
      split; [congruence|]. split; [congruence|]. right. eexists. split; reflexivity.
Qed.

(** X16 for the loop: the summaries come in the order of the
    identifiers, at most one for each, with the identifier decoded as
    their id. *)
Lemma read_all_in_order (ids : list bytes) :
  forall (emails : list summary) (t : tool W),
  exists more kept t',
    read_all ids emails t = (inr (emails ++ more), t') /\
    imap_conn t' = imap_conn t /\
    subsequence kept ids /\
    Forall2 (fun e id => bytes_decode id (lit "utf-8") = inr (s_id e)) more kept.
Proof.
  induction ids as [|i ids IH]; intros emails t; simpl.
  - exists [], [], t. rewrite app_nil_r. repeat split; constructor.
  - unfold bind.
    destruct (read_one_result i emails t) as (m1 & t1 & -> & Hi1 & _ & Hm1).
    destruct (IH (emails ++ m1) t1) as (m2 & kept & t2 & -> & Hi2 & Hsub & Hf).
    rewrite <- app_assoc.
    destruct Hm1 as [->|(e & -> & Hd)].
    + exists m2, kept, t2. simpl.
      split; [reflexivity|]. split; [congruence|]. split; [now constructor|exact Hf].
    + exists (e :: m2), (i :: kept), t2. simpl.
      split; [reflexivity|]. split; [congruence|].
      split; now constructor.
Qed.

(** Running a bind whose first part returns. *)
Lemma bind_run {A B} (m : M W A) (k : A -> M W B) (t t1 : tool W) (a : A) :
  m t = (inr a, t1) -> bind m k t = k a t1.
Proof. intros H. unfold bind. rewrite H. reflexivity. Qed.

Lemma ensure_imap_open (cfg : config) (t : tool W) (c : conn) :
  imap_conn t = Some c -> ensure_imap cfg t = (inr tt, t).
Proof. intros H. unfold ensure_imap, bind, get_imap_conn. rewrite H. reflexivity. Qed.

Lemma the_imap_conn_open (t : tool W) (c : conn) :
  imap_conn t = Some c -> the_imap_conn t = (inr c, t).
Proof. intros H. unfold the_imap_conn, bind, get_imap_conn. rewrite H. reflexivity. Qed.

Lemma call_run {A} (p : prim) (c : conn) (f : W -> Exc A * W) (t : tool W)
    (x : A) (w : W) :
  f (world t) = (inr x, w) ->
  call p c f t
  = (inr x, Tool (imap_conn t) (smtp_conn t) w
              (trace t ++ [Ev_call p (Some c) false])).
Proof. intros H. unfold call. rewrite H. reflexivity. Qed.

(** The [try] block of [mail_read] up to its loop, with a session open
    and both SELECT and SEARCH answering OK. *)
Lemma mail_read_attempt_after_search
    (cfg : config) (folder : str) (limit : Z) (t : tool W) (c : conn)
    (w1 w2 : W) (ids : list bytes) :
  imap_conn t = Some c ->
  imap_select c folder (world t) = (inr (lit "OK"), w1) ->
  imap_search c w1 = (inr (lit "OK", inr ids), w2) ->
  attempt (read_retried cfg folder limit) 0 t
  = let t2 := Tool (imap_conn t) (smtp_conn t) w2
                (trace t ++ [Ev_attempt Op_read 0;
                             Ev_call P_select (Some c) false;
                             Ev_call P_search (Some c) false]) in
    match ids with
    | [] => (inr (PyDict (Read_ok [] 0)), t2)
    | _ => (emails <- read_all (latest_ids ids limit) [] ;;
            ret (PyDict (Read_ok emails (len emails)))) t2
    end.
Proof.
  intros Hc Hsel Hsea.
  unfold attempt, read_retried, r_body, r_op, mail_read_body.
  erewrite bind_run by reflexivity.
  erewrite bind_run by (eapply ensure_imap_open; exact Hc).
  erewrite bind_run by (eapply the_imap_conn_open; exact Hc).
  erewrite bind_run by (apply call_run; exact Hsel).
  replace (negb (str_eqb (lit "OK") (lit "OK"))) with false by reflexivity.
  erewrite bind_run by (eapply the_imap_conn_open; exact Hc).
  erewrite bind_run by (apply call_run; exact Hsea).
  cbv beta iota.
  replace (negb (str_eqb (lit "OK") (lit "OK"))) with false by reflexivity.
  erewrite bind_run by reflexivity.
  cbn [imap_conn smtp_conn trace world]. rewrite <- !app_assoc. cbn [app].
  destruct ids; reflexivity.
Qed.

(** X13.  A folder without messages: with a session open, a SELECT that
    answers OK and a SEARCH that answers OK with no identifier,
    [mail_read] returns success with an empty list and count 0 on its
    first attempt, whatever the limit; it sends those two calls and no
    FETCH, and keeps the session. *)
Theorem mail_read_empty_folder
    (cfg : config) (folder : str) (limit : Z) (t : tool W) (c : conn) (w1 w2 : W) :
  1 <= retry_count cfg ->
  imap_conn t = Some c ->
  imap_select c folder (world t) = (inr (lit "OK"), w1) ->
  imap_search c w1 = (inr (lit "OK", inr []), w2) ->
  exists t',
    mail_read cfg folder limit t = (inr (PyDict (Read_ok [] 0)), t') /\
    calls (added (trace t) (trace t'))
    = [(P_select, Some c, false); (P_search, Some c, false)] /\
    sleeps (added (trace t) (trace t')) = [] /\
    imap_conn t' = Some c.
Proof.
  intros Hrc Hc Hsel Hsea. eexists. split.
  - apply retry_loop_first_attempt; [assumption|].
    rewrite (mail_read_attempt_after_search cfg folder limit t c w1 w2 [])
      by assumption.
    reflexivity.
  - simpl. rewrite added_app. auto.
Qed.

(** X14.  With a session open, a SELECT that answers OK and a SEARCH
    that answers OK with the identifiers [ids], [mail_read] returns
    success on its first attempt whatever the fetches do: the summaries
    stand for a selection of the identifiers it asked for, in that order
    (newest first), one summary for an identifier at most, and ["count"]
    is their number. *)
Theorem mail_read_lists_in_order
    (cfg : config) (folder : str) (limit : Z) (t : tool W) (c : conn)
    (w1 w2 : W) (ids : list bytes) :
  1 <= retry_count cfg ->
  imap_conn t = Some c ->
  imap_select c folder (world t) = (inr (lit "OK"), w1) ->
  imap_search c w1 = (inr (lit "OK", inr ids), w2) ->
  exists emails kept t',
    mail_read cfg folder limit t = (inr (PyDict (Read_ok emails (len emails))), t') /\
    subsequence kept (latest_ids ids limit) /\
    Forall2 (fun e id => bytes_decode id (lit "utf-8") = inr (s_id e)) emails kept.
Proof.
  intros Hrc Hc Hsel Hsea.
  pose (t2 := Tool (imap_conn t) (smtp_conn t) w2
                (trace t ++ [Ev_attempt Op_read 0;
                             Ev_call P_select (Some c) false;
                             Ev_call P_search (Some c) false])).
  destruct (read_all_in_order (latest_ids ids limit) [] t2)
    as (more & kept & t3 & E & _ & Hsub & Hf).
  simpl app in E.
  destruct ids as [|i ids].
  - exists [], [], t2. split; [|split; [|constructor]].
    + apply retry_loop_first_attempt; [assumption|].
      rewrite (mail_read_attempt_after_search cfg folder limit t c w1 w2 [])
        by assumption.
      reflexivity.
    + replace (latest_ids [] limit) with (@nil bytes); [constructor|].
      unfold latest_ids, slice_from.
      destruct (limit <=? len []); destruct (0 <=? - limit); simpl;
        try rewrite skipn_nil; reflexivity.
  - exists more, kept, t3. split; [|auto].
    apply retry_loop_first_attempt; [assumption|].
    rewrite (mail_read_attempt_after_search cfg folder limit t c w1 w2 (i :: ids))
      by assumption.
    cbv zeta. fold t2. unfold bind. rewrite E. reflexivity.
Qed.

(** X15.  When, besides, every FETCH answers OK with a message and every
    identifier decodes, a positive limit lists exactly the last
    [min(limit, n)] of the [n] identifiers, newest first: none is left
    out. *)
Theorem mail_read_lists_all
    (cfg : config) (folder : str) (limit : Z) (t : tool W) (c : conn)
    (w1 w2 : W) (ids : list bytes) :
  1 <= retry_count cfg ->
  1 <= limit ->
  imap_conn t = Some c ->
  imap_select c folder (world t) = (inr (lit "OK"), w1) ->
  imap_search c w1 = (inr (lit "OK", inr ids), w2) ->
  (forall id w, exists msg w', imap_fetch c id w = (inr (lit "OK", inr msg), w')) ->
  (forall id, exists s, bytes_decode id (lit "utf-8") = inr s) ->
  exists emails t',
    mail_read cfg folder limit t
    = (inr (PyDict (Read_ok emails (Z.min limit (len ids)))), t') /\
    Forall2 (fun e id => bytes_decode id (lit "utf-8") = inr (s_id e))
      emails (latest_ids ids limit).
Proof.
  intros Hrc Hlimit Hc Hsel Hsea Hfetch Hdec.
  assert (Hall : forall (l : list bytes) (emails : list summary) (t0 : tool W),
             imap_conn t0 = Some c ->
             exists more t',
               read_all l emails t0 = (inr (emails ++ more), t') /\
               Forall2 (fun e id => bytes_decode id (lit "utf-8") = inr (s_id e))
                 more l).
  { induction l as [|i l IH]; intros emails t0 Hc0; simpl.
    - exists [], t0. rewrite app_nil_r. split; [reflexivity|constructor].
    - assert (Hone : exists e t1,
                 read_one i emails t0 = (inr (emails ++ [e]), t1) /\
                 imap_conn t1 = Some c /\
                 bytes_decode i (lit "utf-8") = inr (s_id e)).
      { unfold read_one, try_catch, bind at 1, the_imap_conn, bind at 1,
          get_imap_conn. rewrite Hc0. simpl.
        unfold bind at 1, call.
        destruct (Hfetch i (world t0)) as (msg & w' & ->). simpl.
        unfold bind at 1, lift. unfold bind at 1.
        match goal with |- context [decode_mime_words ?s ?t1] =>
          destruct (decode_mime_words_run s t1) as (subject & t3 & -> & Hi3 & _)
        end. simpl in Hi3.
        unfold bind at 1.
        match goal with |- context [decode_mime_words ?s ?t1] =>
          destruct (decode_mime_words_run s t1) as (sender & t4 & -> & Hi4 & _)
        end.
        unfold bind at 1. rewrite extract_body_summary_run.
        destruct (Hdec i) as (s & Hs).
        destruct (summary_raw msg) as [e|body]; simpl;
          unfold bind, lift; rewrite Hs; simpl;
          do 2 eexists; (split; [reflexivity|]); simpl; split; congruence. }
      destruct Hone as (e & t1 & E1 & Hc1 & Hd1).
      unfold bind. rewrite E1.
      destruct (IH (emails ++ [e]) t1 Hc1) as (more & t' & -> & Hf).
      exists (e :: more), t'. rewrite <- app_assoc. split; [reflexivity|].
      now constructor. }
  pose (t2 := Tool (imap_conn t) (smtp_conn t) w2
                (trace t ++ [Ev_attempt Op_read 0;
                             Ev_call P_select (Some c) false;
                             Ev_call P_search (Some c) false])).
  destruct (Hall (latest_ids ids limit) [] t2 Hc) as (emails & t3 & E & Hf).
  simpl app in E.
  assert (Hlen : len emails = Z.min limit (len ids)).
  { destruct (latest_ids_positive ids limit Hlimit) as [_ <-].
    unfold len. f_equal. eapply Forall2_length; eauto. }
  destruct ids as [|i ids].
  - exists [], t2. split.
    + replace (Z.min limit (len [])) with 0 by (unfold len; simpl; lia).
      apply retry_loop_first_attempt; [assumption|].
      rewrite (mail_read_attempt_after_search cfg folder limit t c w1 w2 [])
        by assumption.
      reflexivity.
    + destruct (latest_ids_positive [] limit Hlimit) as [-> _].
      rewrite skipn_nil. constructor.
  - exists emails, t3. split; [|exact Hf].
    rewrite <- Hlen.
    apply retry_loop_first_attempt; [assumption|].
    rewrite (mail_read_attempt_after_search cfg folder limit t c w1 w2 (i :: ids))
      by assumption.
    cbv zeta. fold t2. unfold bind. rewrite E. reflexivity.
Qed.

(** X16.  Sending with a session open: when the message renders and
    [sendmail] returns, [mail_send] to a recipient that passes validation
    returns success on its first attempt, with the message "Email sent
    to" and the recipient and the time after the send; the one call it
    makes is that [sendmail], on the open session, which stays in its
    slot. *)
Theorem mail_send_on_open_session
    (cfg : config) (to subject body text : str) (t : tool W) (c : conn) (w1 : W) :
  1 <= retry_count cfg ->
  char_in chr_at to = true ->
  char_in chr_dot (text_before chr_at (text_after_at to)) = true ->
  smtp_conn t = Some c ->
  as_string (cfg_email cfg) to subject body = inr text ->
  smtp_sendmail c (cfg_email cfg) to text (world t) = (inr tt, w1) ->
  exists t',
    mail_send cfg to subject body t
    = (inr (PyDict (Send_ok (lit "Email sent to " ++ to) (fst (now_isoformat w1)))), t') /\
    calls (added (trace t) (trace t')) = [(P_sendmail, Some c, false)] /\
    smtp_conn t' = Some c.
Proof.
  intros Hrc Hat Hdot Hc Htext Hsend.
  exists (Tool (imap_conn t) (smtp_conn t) (snd (now_isoformat w1))
            (trace t ++ [Ev_attempt Op_send 0;
                         Ev_call P_sendmail (Some c) false])).
  split; [|split].
  - rewrite mail_send_split, Hat, Hdot. simpl.
    apply retry_loop_first_attempt; [assumption|].
    unfold attempt, send_retried, r_body, r_op, mail_send_body, ensure_smtp,
      the_smtp_conn, get_smtp_conn, bind, emit, call, lift, ret, now. simpl.
    rewrite Hc. simpl. rewrite Htext. simpl. rewrite Hsend. simpl.
    destruct (now_isoformat w1) as [ts w2]. simpl.
    rewrite <- app_assoc. reflexivity.
  - simpl. rewrite added_app. reflexivity.
  - exact Hc.
Qed.

End Reading.

(** A tool whose IMAP and SMTP sessions 0 and 1 are open. *)
Definition connected (w : server) : tool server :=
  {| imap_conn := Some 0%nat; smtp_conn := Some 1%nat; world := w; trace := [] |}.

Lemma mail_read_empty_folder_witness :
  exists t',
    mail_read (example_config 3) (lit "INBOX") 10 (connected (server_with 0 []))
    = (inr (PyDict (Read_ok [] 0)), t') /\
    calls (added [] (trace t'))
    = [(P_select, Some 0%nat, false); (P_search, Some 0%nat, false)].
Proof.
  assert (Hrc : 1 <= retry_count (example_config 3)) by (vm_compute; discriminate).
  edestruct (mail_read_empty_folder (example_config 3) (lit "INBOX") 10
               (connected (server_with 0 [])) 0%nat)
    as (t' & E & Hcalls & _);
    [exact Hrc|reflexivity|reflexivity|reflexivity|].
  exists t'. split; [exact E|exact Hcalls].
Defined.

Lemma mail_read_lists_in_order_witness :
  exists emails kept t',
    mail_read (example_config 3) (lit "INBOX") 2 (connected (server_with 0 three_messages))
    = (inr (PyDict (Read_ok emails (len emails))), t') /\
    subsequence kept [id3; id2].
Proof.
  assert (Hrc : 1 <= retry_count (example_config 3)) by (vm_compute; discriminate).
  edestruct (mail_read_lists_in_order (example_config 3) (lit "INBOX") 2
               (connected (server_with 0 three_messages)) 0%nat)
    as (emails & kept & t' & E & Hsub & _);
    [exact Hrc|reflexivity|reflexivity|reflexivity|].
  exists emails, kept, t'. split; [exact E|exact Hsub].
Defined.

(** Limit 3 against the four messages of the server that has them all:
    three summaries. *)
Lemma mail_read_lists_all_witness :
  exists emails t',
    @mail_read unit obliging (example_config 3) (lit "INBOX") 3
      (Tool (Some 1%nat) None tt [])
    = (inr (PyDict (Read_ok emails 3)), t').
Proof.
  assert (Hrc : 1 <= retry_count (example_config 3)) by (vm_compute; discriminate).
  assert (Hl : 1 <= 3) by lia.
  edestruct (@mail_read_lists_all unit obliging (example_config 3) (lit "INBOX") 3
               (Tool (Some 1%nat) None tt []) 1%nat)
    as (emails & t' & E & _);
    [exact Hrc|exact Hl|reflexivity|reflexivity|reflexivity| | |].
  - intros id w. do 2 eexists. reflexivity.
  - intros id. eexists. reflexivity.
  - exists emails, t'. exact E.
Defined.

Lemma mail_send_on_open_session_witness :
  exists t',
    mail_send (example_config 3) (lit "a@b.c") (lit "hi") (lit "there")
      (connected (server_with 0 []))
    = (inr (PyDict (Send_ok (lit "Email sent to a@b.c") (lit "2024-01-01T00:00:00"))), t') /\
    calls (added [] (trace t')) = [(P_sendmail, Some 1%nat, false)].
Proof.
  assert (Hrc : 1 <= retry_count (example_config 3)) by (vm_compute; discriminate).
  edestruct (mail_send_on_open_session (example_config 3) (lit "a@b.c") (lit "hi")
               (lit "there") (lit "there") (connected (server_with 0 [])) 1%nat)
    as (t' & E & Hcalls & _);
    [exact Hrc|reflexivity|reflexivity|reflexivity|reflexivity|reflexivity|].
  exists t'. split; [exact E|exact Hcalls].
Defined.

(* ================================================================== *)
(** ** The shape of summaries and bodies *)

Lemma char_in_app (c : Z) (a b : str) :
  char_in c (a ++ b) = char_in c a || char_in c b.
Proof. unfold char_in. apply existsb_app. Qed.

Lemma char_in_replaced (c b : Z) (s : str) :
  c <> b -> char_in c (replace_char c b s) = false.
Proof.
  intros H. induction s as [|x s IH]; simpl; [reflexivity|].
  rewrite IH, orb_false_r.
  destruct (Z.eqb_spec x c); apply Z.eqb_neq; congruence.
Qed.

Lemma char_in_replace_other (c a b : Z) (s : str) :
  c <> b -> char_in c s = false -> char_in c (replace_char a b s) = false.
Proof.
  intros H. induction s as [|x s IH]; simpl; [reflexivity|].
  intros Hs. apply orb_false_iff in Hs as [Hx Hs].
  rewrite (IH Hs), orb_false_r.
  destruct (x =? a); [apply Z.eqb_neq; congruence|exact Hx].
Qed.

Lemma char_in_firstn (c : Z) (n : nat) (s : str) :
  char_in c s = false -> char_in c (firstn n s) = false.
Proof.
  revert n; induction s as [|x s IH]; intros [|n]; simpl; auto.
  intros H. apply orb_false_iff in H as [Hx Hs]. now rewrite Hx, IH.
Qed.

Lemma char_in_slice_to (c : Z) (k : Z) (s : str) :
  char_in c s = false -> char_in c (slice_to k s) = false.
Proof.
  intros H. unfold slice_to. destruct (0 <=? k); now apply char_in_firstn.
Qed.

Lemma clean_single_line (body : str) :
  char_in chr_nl (clean body) = false /\ char_in chr_cr (clean body) = false.
Proof.
  unfold clean. split.
  - apply char_in_replace_other; [discriminate|].
    apply char_in_replaced. discriminate.
  - apply char_in_replaced. discriminate.
Qed.

(** The summary of a text: not empty, at most 203 characters, on one
    line. *)
Definition summary_shaped (x : str) : Prop :=
  x <> [] /\ len x <= 203 /\
  char_in chr_nl x = false /\ char_in chr_cr x = false.

Lemma summarize_shaped (body : str) : summary_shaped (summarize 200 body).
Proof.
  destruct (clean_single_line body) as [Hn Hr].
  destruct (Z.lt_ge_cases 200 (len (clean body))) as [Hlong|Hshort].
  - rewrite summarize_long by assumption.
    assert (Hl : len (slice_to 200 (clean body)) = 200)
      by (apply slice_to_length; lia).
    repeat split.
    + intros H. apply (f_equal len) in H. unfold len in H, Hl.
      rewrite length_app in H. simpl in H. lia.
    + unfold len in *. rewrite length_app. simpl. lia.
    + rewrite char_in_app, char_in_slice_to by assumption. reflexivity.
    + rewrite char_in_app, char_in_slice_to by assumption. reflexivity.
  - rewrite summarize_short by assumption.
    destruct (clean body) as [|x s] eqn:E; simpl.
    + repeat split; try reflexivity; [discriminate|vm_compute; discriminate].
    + repeat split; auto; [discriminate|lia].
Qed.

Section Shapes.
Context {W : Type} {lib : MailLib W}.
Local Abbreviation returns := (@returns W _).

(** What [extract_body_summary] returns has the shape of a summary. *)
Lemma extract_body_summary_shaped (m : email_message) (t : tool W) :
  exists x,
    fst (extract_body_summary m 200 t) = inr x /\
    x <> [] /\ len x <= 203 /\
    char_in chr_nl x = false /\ char_in chr_cr x = false.
Proof.
  rewrite extract_body_summary_run.
  destruct (summary_raw m) as [e|body]; simpl.
  - eexists. split; [reflexivity|].
    repeat split; try reflexivity; [discriminate|vm_compute; discriminate].
  - eexists. split; [reflexivity|]. apply summarize_shaped.
Qed.

Lemma returns_bind_with {A B} (Q : A -> Prop) (P : B -> Prop)
    (m : M W A) (k : A -> M W B) :
  returns Q m -> (forall a, Q a -> returns P (k a)) -> returns P (bind m k).
Proof.
  intros Hm Hk t b t' E. unfold bind in E.
  destruct (m t) as [[e|a] t1] eqn:Em; [inversion E|].
  eapply Hk; eauto.
Qed.

Lemma returns_try_catch {A} (P : A -> Prop) (m : M W A) (h : exn -> M W A) :
  returns P m -> (forall e, returns P (h e)) -> returns P (try_catch m h).
Proof.
  intros Hm Hh t a t' E. unfold try_catch in E.
  destruct (m t) as [[e|a0] t1] eqn:Em.
  - eapply Hh; eauto.
  - inversion E; subst. eapply Hm; eauto.
Qed.

Lemma returns_summary (m : email_message) :
  returns summary_shaped (extract_body_summary m 200).
Proof.
  intros t x t' E.
  destruct (extract_body_summary_shaped m t) as (y & Hy & H).
  rewrite E in Hy. simpl in Hy. inversion Hy; subst. exact H.
Qed.

Lemma returns_full_body (m : email_message) :
  returns (fun x => x <> []) (extract_full_body m).
Proof.
  intros t x t' E. rewrite extract_full_body_run in E.
  destruct (full_raw m) as [e|body]; inversion E; subst;
    [discriminate|apply str_or_nonempty; discriminate].
Qed.

Lemma returns_read_one (msg_id : bytes) (emails : list summary) :
  Forall (fun s => summary_shaped (s_body_summary s)) emails ->
  returns (Forall (fun s => summary_shaped (s_body_summary s)))
    (read_one msg_id emails).
Proof.
  intros He. unfold read_one.
  apply returns_try_catch.
  - apply returns_bind; intros c.
    apply returns_bind; intros [status parsed].
    destruct (negb (str_eqb status (lit "OK"))); [now apply returns_ret|].
    apply returns_bind; intros msg.
    apply returns_bind; intros subject.
    apply returns_bind; intros sender.
    eapply returns_bind_with; [apply returns_summary|]. intros bs Hbs.
    apply returns_bind; intros id. apply returns_ret.
    apply Forall_app. split; [exact He|]. constructor; [exact Hbs|constructor].
  - intros e. apply returns_bind; intros _. now apply returns_ret.
Qed.

Lemma returns_read_all (ids : list bytes) : forall emails,
  Forall (fun s => summary_shaped (s_body_summary s)) emails ->
  returns (Forall (fun s => summary_shaped (s_body_summary s)))
    (read_all ids emails).
Proof.
  induction ids as [|i ids IH]; intros emails He; simpl.
  - now apply returns_ret.
  - eapply returns_bind_with; [apply returns_read_one; exact He|].
    intros emails' He'. now apply IH.
Qed.

Lemma returns_retry_loop (P : pyvalue -> Prop) (cfg : config) (r : @retried W) :
  P PyNone -> returns P (r_body r) -> (forall e, returns P (r_failure r e)) ->
  forall todo, returns P (retry_loop cfg r todo).
Proof.
  intros Hn Hb Hf. induction todo as [|a todo IH]; simpl.
  - now apply returns_ret.
  - apply returns_try_catch.
    + unfold attempt. apply returns_bind; intros _. exact Hb.
    + intros e. apply returns_bind; intros _.
      destruct (a <? retry_count cfg - 1); [|apply Hf].
      apply returns_bind; intros _. apply returns_bind; intros _. exact IH.
Qed.

(** What [mail_read] can return. *)
Lemma mail_read_shape
    (cfg : config) (folder : str) (limit : Z) (t t' : tool W) (v : pyvalue) :
  mail_read cfg folder limit t = (inr v, t') ->
  v = PyNone \/
  (exists e, v = PyDict (Read_failed e)) \/
  (exists emails,
     v = PyDict (Read_ok emails (len emails)) /\
     Forall (fun s => s_body_summary s <> [] /\
                      len (s_body_summary s) <= 203 /\
                      char_in chr_nl (s_body_summary s) = false /\
                      char_in chr_cr (s_body_summary s) = false) emails).
Proof.
  revert t v t'.
  change (returns (fun v =>
            v = PyNone \/
            (exists e, v = PyDict (Read_failed e)) \/
            (exists emails,
               v = PyDict (Read_ok emails (len emails)) /\
               Forall (fun s => summary_shaped (s_body_summary s)) emails))
          (mail_read cfg folder limit)).
  apply returns_retry_loop.
  - auto.
  - simpl. unfold mail_read_body.
    apply returns_bind; intros _. apply returns_bind; intros c.
    apply returns_bind; intros status.
    destruct (negb (str_eqb status (lit "OK"))); [apply returns_raise|].
    apply returns_bind; intros c'. apply returns_bind; intros [status' messages].
    destruct (negb (str_eqb status' (lit "OK"))); [apply returns_raise|].
    apply returns_bind; intros ids.
    destruct ids as [|i ids].
    + apply returns_ret. right; right. exists []. split; [reflexivity|constructor].
    + eapply returns_bind_with; [apply returns_read_all; constructor|].
      intros emails He. apply returns_ret. right; right. eauto.
  - intros e. simpl. apply returns_ret. eauto.
Qed.

(** What [mail_get] can return. *)
Lemma mail_get_shape
    (cfg : config) (email_id : str) (t t' : tool W) (v : pyvalue) :
  mail_get cfg email_id t = (inr v, t') ->
  v = PyNone \/
  (exists e, v = PyDict (Get_failed e)) \/
  (exists d, v = PyDict (Get_ok d) /\ d_id d = email_id /\ d_body d <> []).
Proof.
  revert t v t'.
  change (returns (fun v =>
            v = PyNone \/
            (exists e, v = PyDict (Get_failed e)) \/
            (exists d, v = PyDict (Get_ok d) /\ d_id d = email_id /\ d_body d <> []))
          (mail_get cfg email_id)).
  apply returns_retry_loop.
  - auto.
  - simpl. unfold mail_get_body.
    apply returns_bind; intros _. apply returns_bind; intros c.
    apply returns_bind; intros _. apply returns_bind; intros c'.
    apply returns_bind; intros idb. apply returns_bind; intros [status parsed].
    destruct (negb (str_eqb status (lit "OK"))); [apply returns_raise|].
    apply returns_bind; intros msg.
    apply returns_bind; intros subject. apply returns_bind; intros sender.
    apply returns_bind; intros to.
    eapply returns_bind_with; [apply returns_full_body|]. intros body Hb.
    apply returns_ret. right; right. eexists. split; [reflexivity|]. auto.
  - intros e. simpl. apply returns_ret. eauto.
Qed.

(** X17.  What [mail_read] can return: [None] (no attempt configured), a
    failure dict, or a success dict whose ["count"] is the number of its
    summaries and whose summaries each carry a body summary that is not
    empty, has at most 203 characters and is on one line. *)
Theorem mail_read_result_shape
    (cfg : config) (folder : str) (limit : Z) (t t' : tool W) (v : pyvalue) :
  mail_read cfg folder limit t = (inr v, t') ->
  v = PyNone \/
  (exists e, v = PyDict (Read_failed e)) \/
  (exists emails,
     v = PyDict (Read_ok emails (len emails)) /\
     Forall (fun s => s_body_summary s <> [] /\
                      len (s_body_summary s) <= 203 /\
                      char_in chr_nl (s_body_summary s) = false /\
                      char_in chr_cr (s_body_summary s) = false) emails).
Proof. apply mail_read_shape. Qed.

(** X18.  What [mail_get] can return: [None], a failure dict, or a
    success dict that carries the identifier it was asked for and a body
    that is not empty. *)
Theorem mail_get_result_shape
    (cfg : config) (email_id : str) (t t' : tool W) (v : pyvalue) :
  mail_get cfg email_id t = (inr v, t') ->
  v = PyNone \/
  (exists e, v = PyDict (Get_failed e)) \/
  (exists d, v = PyDict (Get_ok d) /\ d_id d = email_id /\ d_body d <> []).
Proof. apply mail_get_shape. Qed.

(** X19.  Every body summary, placeholders included, is a non-empty
    string of at most 203 characters (200 and the "...") with no line
    feed and no carriage return in it. *)
Theorem body_summary_is_short_and_single_line (m : email_message) (t : tool W) :
  exists x,
    fst (extract_body_summary m 200 t) = inr x /\
    x <> [] /\ len x <= 203 /\
    char_in chr_nl x = false /\ char_in chr_cr x = false.
Proof. apply extract_body_summary_shaped. Qed.

(** X20.  [close_connections] never raises, whatever CLOSE, LOGOUT and
    QUIT do: every exception of its body is caught and logged. *)
Theorem close_connections_never_raises (t : tool W) :
  fst (close_connections t) = inr tt.
Proof. apply close_connections_total. Qed.

(** X21.  With at least one attempt configured and a delay [time.sleep]
    takes (the call returns, in every world), each of the three
    operations returns a dict and raises nothing, whatever the servers
    and the other libraries do.  A delay [time.sleep] refuses is the one
    way an exception leaves an operation: see [refused_delay_escapes]. *)
Theorem operations_always_return_a_dict (cfg : config) (t : tool W) :
  1 <= retry_count cfg ->
  sleep_returns (retry_delay cfg) ->
  (forall folder limit, exists f t',
      mail_read cfg folder limit t = (inr (PyDict f), t')) /\
  (forall to subject body, exists f t',
      mail_send cfg to subject body t = (inr (PyDict f), t')) /\
  (forall email_id, exists f t',
      mail_get cfg email_id t = (inr (PyDict f), t')).
Proof. apply operations_return_dict. Qed.

End Shapes.

Lemma mail_read_result_shape_witness :
  exists emails,
    fst (mail_read (example_config 3) (lit "INBOX") 2
           (fresh (server_with 0 three_messages)))
    = inr (PyDict (Read_ok emails (len emails))) /\
    Forall (fun s => len (s_body_summary s) <= 203) emails.
Proof.
  destruct (mail_read (example_config 3) (lit "INBOX") 2
              (fresh (server_with 0 three_messages))) as [[e|v] t'] eqn:E;
    [vm_compute in E; discriminate|].
  destruct (mail_read_result_shape _ _ _ _ _ _ E)
    as [->|[(e & ->)|(emails & -> & Hall)]];
    [vm_compute in E; discriminate|vm_compute in E; discriminate|].
  exists emails. split; [reflexivity|].
  eapply Forall_impl; [|exact Hall]. simpl. intros s (_ & H & _). exact H.
Defined.

Lemma mail_get_result_shape_witness :
  exists d,
    fst (mail_get (example_config 3) (lit "2")
           (fresh (server_with 0 three_messages)))
    = inr (PyDict (Get_ok d)) /\
    d_id d = lit "2" /\ d_body d <> [].
Proof.
  destruct (mail_get (example_config 3) (lit "2")
              (fresh (server_with 0 three_messages))) as [[e|v] t'] eqn:E;
    [vm_compute in E; discriminate|].
  destruct (mail_get_result_shape _ _ _ _ _ E)
    as [->|[(e & ->)|(d & -> & Hid & Hb)]];
    [vm_compute in E; discriminate|vm_compute in E; discriminate|].
  exists d. auto.
Defined.

(* ================================================================== *)
(** ** Closing, part by part *)

Section Closing.
Context {W : Type} {lib : MailLib W}.

(** X22.  When CLOSE, LOGOUT and QUIT all return, [close_connections]
    clears both session slots, having sent exactly these three calls in
    this order, and logs that all is closed. *)
Theorem close_connections_clears_both
    (t : tool W) (ic sc : conn) (w1 w2 w3 : W) :
  imap_conn t = Some ic -> smtp_conn t = Some sc ->
  imap_close ic (world t) = (inr tt, w1) ->
  imap_logout ic w1 = (inr tt, w2) ->
  smtp_quit sc w2 = (inr tt, w3) ->
  close_connections t
  = (inr tt,
     Tool None None w3
       (trace t ++ [Ev_call P_close (Some ic) false;
                    Ev_call P_logout (Some ic) false;
                    Ev_call P_quit (Some sc) false;
                    Ev_log INFO L_all_closed])).
Proof.
  intros Hi Hs Hc Hl Hq.
  unfold close_connections, try_catch, bind, get_imap_conn, get_smtp_conn,
    call, set_imap_conn, set_smtp_conn, log, emit, ret.
  rewrite Hi. simpl. rewrite Hc. simpl. rewrite Hl. simpl.
  rewrite Hs. simpl. rewrite Hq. simpl.
  rewrite <- !app_assoc. reflexivity.
Qed.

(** X23.  When QUIT raises after the IMAP session was closed and logged
    out, [close_connections] still returns: the IMAP slot is cleared, the
    SMTP slot keeps its session, and the error is logged as a warning. *)
Theorem close_connections_when_quit_raises
    (t : tool W) (ic sc : conn) (w1 w2 w3 : W) (e : exn) :
  imap_conn t = Some ic -> smtp_conn t = Some sc ->
  imap_close ic (world t) = (inr tt, w1) ->
  imap_logout ic w1 = (inr tt, w2) ->
  smtp_quit sc w2 = (inl e, w3) ->
  close_connections t
  = (inr tt,
     Tool None (Some sc) w3
       (trace t ++ [Ev_call P_close (Some ic) false;
                    Ev_call P_logout (Some ic) false;
                    Ev_call P_quit (Some sc) true;
                    Ev_log WARNING (L_close_failed (exn_str e))])).
Proof.
  intros Hi Hs Hc Hl Hq.
  unfold close_connections, try_catch, bind, get_imap_conn, get_smtp_conn,
    call, set_imap_conn, set_smtp_conn, log, emit, ret.
  rewrite Hi. simpl. rewrite Hc. simpl. rewrite Hl. simpl.
  rewrite Hs. simpl. rewrite Hq. simpl.
  rewrite <- !app_assoc. reflexivity.
Qed.

End Closing.

(** After a send that worked and a read that worked on the scripted
    server, closing clears both slots. *)
Definition after_send_and_read : tool server :=
  snd (mail_read (example_config 3) (lit "INBOX") 1
         (snd (mail_send (example_config 3) (lit "a@b.c") (lit "hi") (lit "there")
                 (fresh (server_with 0 three_messages))))).

Lemma close_connections_clears_both_witness :
  imap_conn (snd (close_connections after_send_and_read)) = None /\
  smtp_conn (snd (close_connections after_send_and_read)) = None.
Proof.
  erewrite (close_connections_clears_both after_send_and_read 1%nat 0%nat);
    [split; reflexivity|lazy; reflexivity..].
Defined.

(** On the library whose SMTP side answers QUIT with an error. *)
Lemma close_connections_when_quit_raises_witness :
  imap_conn (snd (@close_connections unit locked_out
                    (Tool (Some 7%nat) (Some 8%nat) tt []))) = None /\
  smtp_conn (snd (@close_connections unit locked_out
                    (Tool (Some 7%nat) (Some 8%nat) tt []))) = Some 8%nat.
Proof.
  erewrite (@close_connections_when_quit_raises unit locked_out
              (Tool (Some 7%nat) (Some 8%nat) tt []) 7%nat 8%nat);
    [split; reflexivity|lazy; reflexivity..].
Defined.

(* ================================================================== *)
(** ** Which part gives the body *)

Definition is_plain (p : mime) : bool := str_eqb (get_content_type p) text_plain.
Definition is_html (p : mime) : bool := str_eqb (get_content_type p) text_html.

(** The summary loop returns what the first text/plain part decodes to. *)
Lemma summary_walk_first_plain (parts : list mime) (body : str) :
  summary_walk parts body
  = match find is_plain parts with
    | Some p => decode_payload p
    | None => inr body
    end.
Proof.
  induction parts as [|q parts IH]; simpl; [reflexivity|].
  unfold is_plain at 1. destruct (str_eqb (get_content_type q) text_plain); auto.
Qed.

Lemma full_walk_first_plain (parts : list mime) : forall (body : str) (p : mime),
  find is_plain parts = Some p ->
  forallb (fun q => negb (is_html q) || negb (is_raise (decode_payload q))) parts
  = true ->
  full_walk parts body = decode_payload p.
Proof.
  induction parts as [|q parts IH]; intros body p; simpl; [discriminate|].
  unfold is_plain at 1, is_html at 1.
  destruct (str_eqb (get_content_type q) text_plain).
  - intros H _. inversion H; subst. reflexivity.
  - intros Hf Hd. apply andb_true_iff in Hd as [Hq Hd].
    destruct (str_eqb (get_content_type q) text_html); simpl in *.
    + destruct body; simpl.
      * destruct (decode_payload q) as [e|html]; [discriminate|]. now apply IH.
      * now apply IH.
    + now apply IH.
Qed.

Lemma full_walk_keeps_body (parts : list mime) (body : str) :
  forallb (fun q => negb (is_plain q)) parts = true ->
  body <> [] ->
  full_walk parts body = inr body.
Proof.
  induction parts as [|q parts IH]; simpl; [reflexivity|].
  unfold is_plain at 1. intros H Hb. apply andb_true_iff in H as [Hq H].
  apply negb_true_iff in Hq. rewrite Hq.
  destruct body; [congruence|]. rewrite andb_false_r. now apply IH.
Qed.

Lemma full_walk_first_html (parts : list mime) : forall (h : mime) (html : str),
  forallb (fun q => negb (is_plain q)) parts = true ->
  find is_html parts = Some h ->
  decode_payload h = inr html ->
  re_sub_tags html <> [] ->
  full_walk parts [] = inr (re_sub_tags html).
Proof.
  induction parts as [|q parts IH]; intros h html; simpl; [discriminate|].
  unfold is_plain at 1, is_html at 1. intros Hp Hf Hd Hne.
  apply andb_true_iff in Hp as [Hq Hp]. apply negb_true_iff in Hq. rewrite Hq.
  destruct (str_eqb (get_content_type q) text_html); simpl.
  - inversion Hf; subst. rewrite Hd. now apply full_walk_keeps_body.
  - eapply IH; eauto.
Qed.

(** X24.  In a multipart message the text/plain part wins wherever it
    stands: both extractions take the text of the first text/plain part
    in walk order, parts nested in containers included; the full-body
    one provided each text/html part decodes. *)
Theorem plain_part_gives_the_body (m : email_message) (p : mime) :
  is_multipart (content m) = true ->
  find is_plain (walk (content m)) = Some p ->
  summary_raw m = decode_payload p /\
  (forallb (fun q => negb (is_html q) || negb (is_raise (decode_payload q)))
     (walk (content m)) = true ->
   full_raw m = decode_payload p).
Proof.
  intros Hm Hp. unfold summary_raw, full_raw. rewrite Hm. split.
  - rewrite summary_walk_first_plain, Hp. reflexivity.
  - intros Hd. now apply full_walk_first_plain.
Qed.

(** X25.  In a multipart message without a text/plain part, the full
    body is the first text/html part without its tags, when that is not
    empty; the later parts are not looked at. *)
Theorem html_part_gives_the_full_body (m : email_message) (h : mime) (html : str) :
  is_multipart (content m) = true ->
  forallb (fun q => negb (is_plain q)) (walk (content m)) = true ->
  find is_html (walk (content m)) = Some h ->
  decode_payload h = inr html ->
  re_sub_tags html <> [] ->
  full_raw m = inr (re_sub_tags html).
Proof.
  intros Hm Hp Hf Hd Hne. unfold full_raw. rewrite Hm.
  eapply full_walk_first_html; eauto.
Qed.

(** A text/html part first, a text/plain part nested in a container
    after it. *)
Definition html_then_plain_message : email_message :=
  {| hdr_subject := None; hdr_from := None; hdr_to := None; hdr_date := None;
     content := Multi (lit "multipart/mixed")
                  [Leaf text_html (inr (lit "<p>rich</p>"));
                   Multi (lit "multipart/alternative")
                     [Leaf text_plain (inr (lit "plain"))]] |}.

Lemma plain_part_gives_the_body_witness :
  summary_raw html_then_plain_message = inr (lit "plain") /\
  full_raw html_then_plain_message = inr (lit "plain").
Proof.
  destruct (plain_part_gives_the_body html_then_plain_message
              (Leaf text_plain (inr (lit "plain"))) eq_refl eq_refl) as [Hs Hf].
  split; [exact Hs|]. apply Hf. reflexivity.
Defined.

Lemma html_part_gives_the_full_body_witness :
  full_raw html_only_message = inr (lit "Hello world").
Proof.
  apply (html_part_gives_the_full_body html_only_message
           (Leaf text_html (inr (lit "<p>Hello <b>world</b></p>")))
           (lit "<p>Hello <b>world</b></p>"));
    try reflexivity.
  vm_compute. discriminate.
Defined.

(* ================================================================== *)
(** ** Tag removal *)

Lemma char_in_cons (c x : Z) (s : str) :
  char_in c (x :: s) = (c =? x) || char_in c s.
Proof. reflexivity. Qed.

Lemma re_sub_tags_from_cons_none (c : Z) (t : str) :
  re_sub_tags_from None (c :: t)
  = if c =? chr_lt then re_sub_tags_from (Some [c]) t
    else c :: re_sub_tags_from None t.
Proof. reflexivity. Qed.

Lemma re_sub_tags_from_cons_some (buf : str) (c : Z) (t : str) :
  re_sub_tags_from (Some buf) (c :: t)
  = if c =? chr_gt then
      match buf with
      | [_] => buf ++ c :: re_sub_tags_from None t
      | _ => re_sub_tags_from None t
      end
    else re_sub_tags_from (Some (buf ++ [c])) t.
Proof. reflexivity. Qed.

Lemma re_sub_tags_pending_open (s : str) : forall buf,
  char_in chr_gt s = false ->
  re_sub_tags_from (Some buf) s = buf ++ s.
Proof.
  induction s as [|c s IH]; intros buf.
  - intros _. simpl. now rewrite app_nil_r.
  - rewrite char_in_cons, re_sub_tags_from_cons_some. intros H.
    apply orb_false_iff in H as [Hc Hs].
    rewrite Z.eqb_sym in Hc. rewrite Hc.
    rewrite IH by assumption. now rewrite <- app_assoc.
Qed.

Lemma re_sub_tags_outside (s : str) :
  char_in chr_lt s = false -> re_sub_tags_from None s = s.
Proof.
  induction s as [|c s IH]; [reflexivity|].
  rewrite char_in_cons, re_sub_tags_from_cons_none. intros H.
  apply orb_false_iff in H as [Hc Hs].
  rewrite Z.eqb_sym in Hc. rewrite Hc. now rewrite IH.
Qed.

Lemma tagless_stable (s : str) : tagless s -> re_sub_tags s = s.
Proof.
  unfold re_sub_tags. induction 1 as [|c s Hc _ IH|s _ IH|s Hs].
  - reflexivity.
  - rewrite re_sub_tags_from_cons_none.
    apply Z.eqb_neq in Hc. rewrite Hc. now rewrite IH.
  - rewrite re_sub_tags_from_cons_none, Z.eqb_refl.
    rewrite re_sub_tags_from_cons_some, Z.eqb_refl.
    rewrite IH. reflexivity.
  - rewrite re_sub_tags_from_cons_none, Z.eqb_refl.
    now rewrite re_sub_tags_pending_open.
Qed.

Lemma char_in_snoc (c x : Z) (s : str) :
  char_in c (s ++ [x]) = char_in c s || (c =? x).
Proof. rewrite char_in_app, char_in_cons. simpl. now rewrite orb_false_r. Qed.

Lemma re_sub_tags_from_tagless (s : str) :
  tagless (re_sub_tags_from None s) /\
  forall b, char_in chr_gt b = false ->
            tagless (re_sub_tags_from (Some (chr_lt :: b)) s).
Proof.
  induction s as [|c s [IHn IHp]].
  - split; [constructor|]. intros b Hb. now apply tagless_open.
  - split.
    + rewrite re_sub_tags_from_cons_none.
      destruct (Z.eqb_spec c chr_lt) as [->|Hc].
      * apply (IHp []). reflexivity.
      * now apply tagless_char.
    + intros b Hb. rewrite re_sub_tags_from_cons_some.
      destruct (Z.eqb_spec c chr_gt) as [->|Hc].
      * destruct b as [|x b]; [now apply tagless_pair|exact IHn].
      * apply (IHp (b ++ [c])).
        rewrite char_in_snoc, Hb. cbn [orb]. apply Z.eqb_neq. congruence.
Qed.

(** X26.  What [re.sub(r'<[^>]+>', '', ...)] returns has no tag left in
    it: removing tags a second time changes nothing.  A text without
    '<' comes back as it is. *)
Theorem re_sub_tags_leaves_no_tag (s : str) :
  re_sub_tags (re_sub_tags s) = re_sub_tags s /\
  (char_in chr_lt s = false -> re_sub_tags s = s).
Proof.
  split.
  - apply tagless_stable. apply re_sub_tags_from_tagless.
  - apply re_sub_tags_outside.
Qed.

(** X27.  For a positive limit the identifiers [mail_read] asks for are
    the last [min(limit, n)] of the [n] that SEARCH returned, the newest
    first. *)
Theorem latest_ids_for_a_positive_limit (ids : list bytes) (limit : Z) :
  1 <= limit ->
  latest_ids ids limit = rev (skipn (length ids - Z.to_nat limit) ids) /\
  len (latest_ids ids limit) = Z.min limit (len ids).
Proof. apply latest_ids_positive. Qed.

(** Limit 5 against 20 identifiers: 5 are asked for. *)
Lemma latest_ids_for_a_positive_limit_witness :
  len (latest_ids (repeat id1 20) 5) = 5.
Proof.
  destruct (latest_ids_for_a_positive_limit (repeat id1 20) 5) as [_ H]; [lia|].
  rewrite H. reflexivity.
Defined.

(** The default configuration on the scripted server that refuses every
    connection: a failure dict, no exception. *)
Lemma operations_always_return_a_dict_witness :
  exists f t',
    mail_get (example_config 3) (lit "1") (fresh (server_with 9 three_messages))
    = (inr (PyDict f), t').
Proof.
  assert (Hrc : 1 <= retry_count (example_config 3)) by (vm_compute; discriminate).
  assert (Hd : sleep_returns (retry_delay (example_config 3)))
    by (intros w; eexists; reflexivity).
  destruct (operations_always_return_a_dict (example_config 3)
              (fresh (server_with 9 three_messages)) Hrc Hd) as (_ & _ & H).
  exact (H (lit "1")).
Defined.

(* ================================================================== *)
(** ** The errors of a folder or a message that is not there *)

Section NotFound.
Context {W : Type} {lib : MailLib W}.

(** When every attempt raises with the same text, from whatever state,
    the call fails with that text after all its attempts. *)
Lemma retry_loop_always_failing (cfg : config) (r : @retried W) (msg : str) :
  well_behaved r ->
  1 <= retry_count cfg -> sleep_returns (retry_delay cfg) ->
  (forall a t, exists e t1, attempt r a t = (inl e, t1) /\ exn_str e = msg) ->
  forall t, exists f,
    fst (retry_loop cfg r (py_range (retry_count cfg)) t) = inr (PyDict f) /\
    success f = false /\ error f = Some msg /\
    attempts (trace (snd (retry_loop cfg r (py_range (retry_count cfg)) t)))
    = attempts (trace t) ++ py_range (retry_count cfg).
Proof.
  intros Hwb Hrc Hd Hall t.
  destruct (retry_loop_contract cfg r Hwb Hd Hrc t) as [Hfail _].
  destruct Hfail as (e & t1 & f & Ea & Ef & Hs & He & Hat & _).
  - intros j _.
    match goal with |- context [attempt r ?a ?t0] =>
      destruct (Hall a t0) as (e & t1 & -> & _) end.
    reflexivity.
  - exists f. split; [exact Ef|]. split; [exact Hs|]. split; [|exact Hat].
    rewrite He. f_equal.
    match type of Ea with attempt r ?a ?t0 = _ =>
      destruct (Hall a t0) as (e' & t1' & Ea' & <-) end.
    congruence.
Qed.

(** With a server that accepts the connection, [connect_imap] fills the
    slot. *)
Lemma ensure_imap_connects (cfg : config) (t : tool W) :
  (forall w, exists c w',
      IMAP4_SSL (cfg_imap_server cfg) (config_get (cfg_imap_port cfg) 993) w
      = (inr c, w')) ->
  (forall c w, exists w',
      imap_login c (cfg_email cfg) (cfg_password cfg) w = (inr tt, w')) ->
  exists c t1, ensure_imap cfg t = (inr tt, t1) /\ imap_conn t1 = Some c.
Proof.
  intros Hconn Hlogin. unfold ensure_imap, bind at 1, get_imap_conn.
  destruct (imap_conn t) as [c|] eqn:Hc.
  - exists c, t. auto.
  - unfold bind, connect_imap, try_catch, bind, call_new, call, set_imap_conn,
      log, emit, ret.
    destruct (Hconn (world t)) as (c & w1 & ->). simpl.
    destruct (Hlogin c w1) as (w2 & ->). simpl.
    do 2 eexists. split; reflexivity.
Qed.

(** X28.  A folder the server does not open: when [time.sleep] takes
    the delay, connections are accepted and SELECT answers the folder
    with a status other than OK, [mail_read] makes all its attempts and
    the failure it returns is FOLDER_NOT_FOUND with the folder's name. *)
Theorem mail_read_folder_not_found
    (cfg : config) (folder : str) (limit : Z) (t : tool W) :
  1 <= retry_count cfg -> sleep_returns (retry_delay cfg) ->
  (forall w, exists c w',
      IMAP4_SSL (cfg_imap_server cfg) (config_get (cfg_imap_port cfg) 993) w
      = (inr c, w')) ->
  (forall c w, exists w',
      imap_login c (cfg_email cfg) (cfg_password cfg) w = (inr tt, w')) ->
  (forall c w, exists status w',
      imap_select c folder w = (inr status, w') /\
      str_eqb status (lit "OK") = false) ->
  fst (mail_read cfg folder limit t)
  = inr (PyDict (Read_failed (folder_not_found folder))) /\
  attempts (trace (snd (mail_read cfg folder limit t)))
  = attempts (trace t) ++ py_range (retry_count cfg).
Proof.
  intros Hrc Hd Hconn Hlogin Hsel.
  assert (Hall : forall a t0, exists e t1,
             attempt (read_retried cfg folder limit) a t0 = (inl e, t1) /\
             exn_str e = folder_not_found folder).
  { intros a t0. unfold attempt, read_retried, r_body, r_op, mail_read_body.
    erewrite bind_run by reflexivity.
    match goal with |- context [bind (ensure_imap cfg) _ ?t1] =>
      destruct (ensure_imap_connects cfg t1 Hconn Hlogin) as (c & t2 & E & Hc) end.
    erewrite bind_run by exact E.
    erewrite bind_run by (eapply the_imap_conn_open; exact Hc).
    destruct (Hsel c (world t2)) as (status & w' & Es & Hst).
    erewrite bind_run by (apply call_run; exact Es).
    rewrite Hst. simpl. do 2 eexists. split; reflexivity. }
  destruct (retry_loop_always_failing cfg _ _ (read_well_behaved cfg folder limit)
              Hrc Hd Hall t) as (f & Ef & Hs & He & Hat).
  fold (mail_read cfg folder limit) in Ef, Hat.
  split; [|exact Hat].
  destruct (mail_read cfg folder limit t) as [[e|v] t'] eqn:E; simpl in Ef;
    [discriminate|]. inversion Ef; subst.
  destruct (mail_read_shape _ _ _ _ _ _ E)
    as [H|[(e & H)|(emails & H & _)]]; inversion H; subst; simpl in *;
    [congruence|discriminate].
Qed.

(** X29.  A message the server does not have: when [time.sleep] takes
    the delay, connections are accepted, SELECT returns, the identifier
    encodes and FETCH answers with a status other than OK, [mail_get]
    makes all its attempts and the failure it returns is EMAIL_NOT_FOUND
    with the identifier. *)
Theorem mail_get_email_not_found
    (cfg : config) (email_id : str) (id_bytes : bytes) (t : tool W) :
  1 <= retry_count cfg -> sleep_returns (retry_delay cfg) ->
  (forall w, exists c w',
      IMAP4_SSL (cfg_imap_server cfg) (config_get (cfg_imap_port cfg) 993) w
      = (inr c, w')) ->
  (forall c w, exists w',
      imap_login c (cfg_email cfg) (cfg_password cfg) w = (inr tt, w')) ->
  (forall c w, exists status w',
      imap_select c (lit "INBOX") w = (inr status, w')) ->
  str_encode email_id = inr id_bytes ->
  (forall c w, exists status parsed w',
      imap_fetch c id_bytes w = (inr (status, parsed), w') /\
      str_eqb status (lit "OK") = false) ->
  fst (mail_get cfg email_id t)
  = inr (PyDict (Get_failed (email_not_found email_id))) /\
  attempts (trace (snd (mail_get cfg email_id t)))
  = attempts (trace t) ++ py_range (retry_count cfg).
Proof.
  intros Hrc Hd Hconn Hlogin Hsel Henc Hfetch.
  assert (Hall : forall a t0, exists e t1,
             attempt (get_retried cfg email_id) a t0 = (inl e, t1) /\
             exn_str e = email_not_found email_id).
  { intros a t0. unfold attempt, get_retried, r_body, r_op, mail_get_body.
    erewrite bind_run by reflexivity.
    match goal with |- context [bind (ensure_imap cfg) _ ?t1] =>
      destruct (ensure_imap_connects cfg t1 Hconn Hlogin) as (c & t2 & E & Hc) end.
    erewrite bind_run by exact E.
    erewrite bind_run by (eapply the_imap_conn_open; exact Hc).
    destruct (Hsel c (world t2)) as (status & w' & Es).
    erewrite bind_run by (apply call_run; exact Es).
    erewrite bind_run by (eapply the_imap_conn_open; exact Hc).
    rewrite Henc. erewrite bind_run by reflexivity.
    destruct (Hfetch c w') as (st & parsed & w'' & Ef & Hst).
    erewrite bind_run by (apply call_run; exact Ef).
    cbv beta iota. rewrite Hst. simpl. do 2 eexists. split; reflexivity. }
  destruct (retry_loop_always_failing cfg _ _ (get_well_behaved cfg email_id)
              Hrc Hd Hall t) as (f & Ef & Hs & He & Hat).
  fold (mail_get cfg email_id) in Ef, Hat.
  split; [|exact Hat].
  destruct (mail_get cfg email_id t) as [[e|v] t'] eqn:E; simpl in Ef;
    [discriminate|]. inversion Ef; subst.
  destruct (mail_get_shape _ _ _ _ _ E)
    as [H|[(e & H)|(d & H & _)]]; inversion H; subst; simpl in *;
    [congruence|discriminate].
Qed.

End NotFound.

(** The server that answers every SELECT with NO, and the one that
    answers every FETCH with NO. *)
Lemma mail_read_folder_not_found_witness :
  fst (@mail_read unit (answering (lit "NO") (lit "OK")) (example_config 3)
         (lit "Archive") 10 (Tool None None tt []))
  = inr (PyDict (Read_failed (folder_not_found (lit "Archive")))).
Proof.
  apply (@mail_read_folder_not_found unit (answering (lit "NO") (lit "OK"))).
  - vm_compute; discriminate.
  - intros w. eexists. reflexivity.
  - intros w. do 2 eexists. reflexivity.
  - intros c w. eexists. reflexivity.
  - intros c w. do 2 eexists. split; reflexivity.
Defined.

Lemma mail_get_email_not_found_witness :
  fst (@mail_get unit (answering (lit "OK") (lit "NO")) (example_config 3)
         (lit "9") (Tool None None tt []))
  = inr (PyDict (Get_failed (email_not_found (lit "9")))).
Proof.
  eapply (@mail_get_email_not_found unit (answering (lit "OK") (lit "NO"))).
  - vm_compute; discriminate.
  - intros w. eexists. reflexivity.
  - intros w. do 2 eexists. reflexivity.
  - intros c w. eexists. reflexivity.
  - intros c w. do 2 eexists. reflexivity.
  - reflexivity.
  - intros c w. do 3 eexists. split; reflexivity.
Defined.
